(** * mcp-remote-oauth-client-provider: the OAuth client provider, verified

    A shallow embedding of [src/OAuthClientProvider.ts], [src/utils.ts]
    ([FileTokenStorage]) and [src/oauth-server.ts]
    ([createOAuthCallbackServer]), and the properties of the program that the
    specification states about them.

    Conventions of the embedding:
    - a JavaScript value that may be [undefined] or [null] is an [option];
      truthiness of strings ([if (s)], [a || b]) is written out;
    - an [async] method is a function in the state-and-exception monad [M]
      over the [World] (the provider's fields, the credential files, the
      callback listener, the verdicts of the platform's URL parser and a
      trace of the calls made to the outside);
    - the answer of every awaited external collaborator (HTTP endpoint, port
      bind, browser, incoming redirect) is an argument of the function that
      awaits it;
    - the event loop that interleaves several pending calls is the step
      function [EventLoop.step] on labels; with one caller it does what the
      method does ([solo_call_agrees]).

    The properties are numbered as the claims of the specification they
    settle (C1 to C10). *)

From Stdlib Require Import NArith ZArith ZifyNat List String Ascii Bool Lia DecimalString.
From Stdlib.Strings Require Import Byte.
From stdpp Require Import base option gmap strings list.

Local Open Scope string_scope.
Local Open Scope list_scope.

(** ** Node's [crypto] and [Buffer] primitives used by the provider *)

Module SHA256.
Local Open Scope N_scope.

Definition w32 (x : N) : N := N.land x 0xFFFFFFFF.
Definition add32 (x y : N) : N := w32 (x + y).
Definition rotr (n x : N) : N := N.lor (N.shiftr x n) (w32 (N.shiftl x (32 - n))).
Definition shr (n x : N) : N := N.shiftr x n.
Definition not32 (x : N) : N := N.lxor x 0xFFFFFFFF.

Definition Ch (x y z : N) : N := N.lxor (N.land x y) (N.land (not32 x) z).
Definition Maj (x y z : N) : N :=
  N.lxor (N.lxor (N.land x y) (N.land x z)) (N.land y z).
Definition bsig0 (x : N) : N := N.lxor (N.lxor (rotr 2 x) (rotr 13 x)) (rotr 22 x).
Definition bsig1 (x : N) : N := N.lxor (N.lxor (rotr 6 x) (rotr 11 x)) (rotr 25 x).
Definition ssig0 (x : N) : N := N.lxor (N.lxor (rotr 7 x) (rotr 18 x)) (shr 3 x).
Definition ssig1 (x : N) : N := N.lxor (N.lxor (rotr 17 x) (rotr 19 x)) (shr 10 x).

(** The round constants are the first 32 bits of the fractional parts of
    the cube roots of the first 64 primes, the initial hash value those of
    the square roots of the first 8 (FIPS 180-4, sections 4.2.2, 5.3.3). *)
Definition is_prime (n : nat) : bool :=
  forallb (fun d => negb (n mod d =? 0)%nat) (seq 2 (n - 2)).

Definition primes : list N := map N.of_nat (List.filter is_prime (seq 2 310)).

(** The integer cube root of [x], one bit at a time from bit [bits - 1]. *)
Fixpoint cbrt_bits (bits : nat) (x r : N) : N :=
  match bits with
  | O => r
  | S b =>
      let r' := r + N.shiftl 1 (N.of_nat b) in
      cbrt_bits b x (if r' * r' * r' <=? x then r' else r)
  end.

Definition frac_cbrt (p : N) : N := w32 (cbrt_bits 36 (N.shiftl p 96) 0).
Definition frac_sqrt (p : N) : N := w32 (N.sqrt (N.shiftl p 64)).

Definition K : list N := Eval vm_compute in map frac_cbrt primes.

(** The eight working variables, and the hash value between blocks. *)
Record state := St { ha : N; hb : N; hc : N; hd : N; he : N; hf : N; hg : N; hh : N }.

Definition H0 : state :=
  Eval vm_compute in
    let h i := frac_sqrt (nth i primes 0) in
    St (h 0%nat) (h 1%nat) (h 2%nat) (h 3%nat) (h 4%nat) (h 5%nat) (h 6%nat) (h 7%nat).

(** Message schedule: [win] holds the sixteen most recent words, oldest
    first; each turn emits the oldest and appends the next one. *)
Fixpoint schedule (n : nat) (win : list N) : list N :=
  match n with
  | O => []
  | S n' =>
      let w0 := nth 0 win 0 in
      let next := add32 (add32 (ssig1 (nth 14 win 0)) (nth 9 win 0))
                        (add32 (ssig0 (nth 1 win 0)) w0) in
      w0 :: schedule n' (tl win ++ [next])
  end.

Definition round (s : state) (kw : N * N) : state :=
  let t1 := add32 (add32 (add32 (hh s) (bsig1 (he s))) (Ch (he s) (hf s) (hg s)))
                  (add32 (fst kw) (snd kw)) in
  let t2 := add32 (bsig0 (ha s)) (Maj (ha s) (hb s) (hc s)) in
  St (add32 t1 t2) (ha s) (hb s) (hc s) (add32 (hd s) t1) (he s) (hf s) (hg s).

Definition compress (h : state) (block : list N) : state :=
  let s := fold_left round (combine K (schedule 64 block)) h in
  St (add32 (ha h) (ha s)) (add32 (hb h) (hb s)) (add32 (hc h) (hc s))
     (add32 (hd h) (hd s)) (add32 (he h) (he s)) (add32 (hf h) (hf s))
     (add32 (hg h) (hg s)) (add32 (hh h) (hh s)).

(** Big-endian packing of bytes into words and back. *)
Fixpoint words_of_bytes (bs : list N) : list N :=
  match bs with
  | a :: b :: c :: d :: rest =>
      (N.shiftl a 24 + N.shiftl b 16 + N.shiftl c 8 + d) :: words_of_bytes rest
  | _ => []
  end.

Definition bytes_of_word (w : N) : list N :=
  [ N.land (N.shiftr w 24) 0xFF; N.land (N.shiftr w 16) 0xFF;
    N.land (N.shiftr w 8) 0xFF; N.land w 0xFF ].

(** Padding: a 1 bit, zeros up to 56 mod 64 bytes, the bit length on 64 bits. *)
Definition pad (msg : list N) : list N :=
  let len := List.length msg in
  let zeros := ((64 - ((len + 9) mod 64)) mod 64)%nat in
  let bits := N.of_nat len * 8 in
  msg ++ [0x80] ++ repeat 0 zeros
      ++ bytes_of_word (N.shiftr bits 32) ++ bytes_of_word (w32 bits).

Fixpoint blocks (n : nat) (ws : list N) : list (list N) :=
  match n with
  | O => []
  | S n' => firstn 16 ws :: blocks n' (skipn 16 ws)
  end.

Definition digest_words (msg : list N) : state :=
  let ws := words_of_bytes (pad msg) in
  fold_left compress (blocks (List.length ws / 16) ws) H0.

Definition byte_of_N (n : N) : byte := byte_of_ascii (ascii_of_N n).

(** [crypto.createHash('sha256').update(msg).digest()]: 32 bytes. *)
Definition digest (msg : list byte) : list byte :=
  let s := digest_words (map Byte.to_N msg) in
  map byte_of_N
      (flat_map bytes_of_word [ha s; hb s; hc s; hd s; he s; hf s; hg s; hh s]).
End SHA256.

Module Base64url.
(** [Buffer.toString('base64url')]: the URL-safe alphabet of RFC 4648
    section 5, three bytes to four characters, and no padding. *)
Definition alphabet : string :=
  "ABCDEFGHIJKLMNOPQRSTUVWXYZabcdefghijklmnopqrstuvwxyz0123456789-_".

Definition sextet (i : nat) : ascii :=
  match String.get i alphabet with
  | Some c => c
  | None => "A"%char
  end.

Fixpoint encode_nat (bs : list nat) : list ascii :=
  match bs with
  | [] => []
  | [a] => [sextet (a / 4); sextet (a mod 4 * 16)]
  | [a; b] =>
      [sextet (a / 4); sextet (a mod 4 * 16 + b / 16); sextet (b mod 16 * 4)]
  | a :: b :: c :: rest =>
      sextet (a / 4) :: sextet (a mod 4 * 16 + b / 16)
        :: sextet (b mod 16 * 4 + c / 64) :: sextet (c mod 64) :: encode_nat rest
  end.

Definition encode (bs : list byte) : string :=
  string_of_list_ascii (encode_nat (map Byte.to_nat bs)).

(** Membership in the URL-safe alphabet. *)
Definition url_safe (c : ascii) : bool :=
  existsb (Ascii.eqb c) (list_ascii_of_string alphabet).

(** The place of a character in the alphabet. *)
Fixpoint place (c : ascii) (cs : list ascii) : nat :=
  match cs with
  | [] => 0
  | c' :: rest => if Ascii.eqb c' c then 0 else S (place c rest)
  end.

Definition unsextet (c : ascii) : nat := place c (list_ascii_of_string alphabet).

Fixpoint decode_nat (cs : list ascii) : list nat :=
  match cs with
  | c1 :: c2 :: c3 :: c4 :: rest =>
      (unsextet c1 * 4 + unsextet c2 / 16)
        :: (unsextet c2 mod 16 * 16 + unsextet c3 / 4)
        :: (unsextet c3 mod 4 * 64 + unsextet c4) :: decode_nat rest
  | [c1; c2; c3] =>
      [unsextet c1 * 4 + unsextet c2 / 16; unsextet c2 mod 16 * 16 + unsextet c3 / 4]
  | [c1; c2] => [unsextet c1 * 4 + unsextet c2 / 16]
  | _ => []
  end.

Definition byte_of_nat (n : nat) : byte :=
  match Byte.of_nat n with
  | Some b => b
  | None => x00
  end.

(** [Buffer.from(s, 'base64url')] *)
Definition decode (s : string) : list byte :=
  map byte_of_nat (decode_nat (list_ascii_of_string s)).
End Base64url.

Definition hex_digit (n : N) : ascii :=
  match String.get (N.to_nat n) "0123456789abcdef" with
  | Some c => c
  | None => "0"%char
  end.

(** [Buffer.toString('hex')] *)
Definition hex (bs : list byte) : string :=
  string_of_list_ascii
    (flat_map (fun b => [hex_digit (Byte.to_N b / 16); hex_digit (Byte.to_N b mod 16)]%N) bs).


(** ** JavaScript conventions *)

(** A thrown value: [name] is the constructor's name, so that the template
    [`${error}`] prints [name: message]. *)
Record Error := mkError { name : string; message : string }.

Definition newError (msg : string) : Error := mkError "Error" msg.
Definition TypeError (msg : string) : Error := mkError "TypeError" msg.
Definition error_toString (e : Error) : string := name e ++ ": " ++ message e.

Inductive Result (A : Type) : Type :=
| Ok (a : A)
| Throw (e : Error).
Arguments Ok {A} a.
Arguments Throw {A} e.

(** Truthiness of a string, and of a property that may be missing. *)
Definition truthy (s : string) : bool := negb (String.eqb s "").

Definition truthy_opt (o : option string) : bool :=
  match o with
  | Some s => truthy s
  | None => false
  end.

(** [a || b] where [a] is an optional string. *)
Definition js_or (a : option string) (b : string) : string :=
  match a with
  | Some s => if truthy s then s else b
  | None => b
  end.

(** [String(v)]: what [URLSearchParams] stores for a value that may be
    [undefined]. *)
Definition js_string (v : option string) : string :=
  match v with
  | Some s => s
  | None => "undefined"
  end.

(** [xs[0]] where the array itself may be [undefined]: reading a property
    of [undefined] throws, reading past the end of an array gives
    [undefined]. *)
Definition index0 (xs : option (list string)) : Result (option string) :=
  match xs with
  | None => Throw (TypeError "Cannot read properties of undefined (reading '0')")
  | Some l => Ok (l !! 0%nat)
  end.

(** ** Data model (the SDK's [shared/auth] types and [src/types.ts]) *)

Record OAuthTokens := mkTokens {
  access_token : option string;
  token_type : option string;
  expires_in : option N;
  refresh_token : option string;
  scope : option string
}.

Record OAuthClientMetadata := mkClientMetadata {
  client_name : option string;
  client_uri : option string;
  redirect_uris : option (list string);
  grant_types : option (list string);
  response_types : option (list string);
  software_id : option string;
  software_version : option string
}.

(** [OAuthClientInformationFull]: the metadata and the issued identity. *)
Record OAuthClientInformationFull := mkClientInfo {
  client_id : string;
  client_secret : option string;
  client_metadata : OAuthClientMetadata
}.

Record AuthorizationServerMetadata := mkMetadata {
  authorization_endpoint : string;
  token_endpoint : string;
  registration_endpoint : option string
}.

Record OAuthClientProviderOptions := mkOptions {
  serverUrl : string;
  callbackPort : N;
  host : string;
  callbackPath : option string;
  configDir : option string;
  clientName : option string;
  clientUri : option string;
  softwareId : option string;
  softwareVersion : option string;
  staticOAuthClientMetadata : option OAuthClientMetadata;
  staticOAuthClientInfo : option OAuthClientInformationFull;
  authorizeResource : option string;
  autoAuthenticate : option bool
}.

(** ** The outside world *)

(** A URL the provider builds: [new URL(path, base)], or [new URL(base)]
    followed by [searchParams.set] calls. Whether [new URL] returns or
    throws is the verdict of the platform's parser ([canParse] of the
    [World]). *)
Record Url := mkUrl {
  url_base : string;
  url_path : option string;
  url_params : list (string * string)
}.

(** [searchParams.set(k, v)]: replaces the value of the first [k] and drops
    the others, or appends. *)
Fixpoint params_set (k v : string) (ps : list (string * string)) : list (string * string) :=
  match ps with
  | [] => [(k, v)]
  | (k', v') :: rest =>
      if String.eqb k' k
      then (k, v) :: List.filter (fun kv => negb (String.eqb (fst kv) k)) rest
      else (k', v') :: params_set k v rest
  end.

(** [searchParams.get(k)]: the first value of [k], or [null]. *)
Fixpoint params_get (k : string) (ps : list (string * string)) : option string :=
  match ps with
  | [] => None
  | (k', v) :: rest => if String.eqb k' k then Some v else params_get k rest
  end.

Definition searchParams_set (k v : string) (u : Url) : Url :=
  mkUrl (url_base u) (url_path u) (params_set k v (url_params u)).

(** The callback listener's view of a request: [req.url] may be missing,
    [new URL(req.url, base)] may throw, or it yields a path and a query. *)
Inductive Request :=
| NoUrl
| BadUrl
| ReqUrl (pathname : string) (searchParams : list (string * string)).

Record Response := mkResponse {
  status : N;
  content_type : option string;
  body : string
}.

(** A file of the credential store: unreadable (the read or [JSON.parse]
    throws) or holding a record. A missing file is a missing key. *)
Inductive File (A : Type) : Type :=
| Corrupt
| Holds (a : A).
Arguments Corrupt {A}.
Arguments Holds {A} a.

(** How a write of a file fails: [mkdir] or the opening of the file fails
    (EACCES, EROFS), and the file is as it was; or the file is opened,
    which empties it, and [writeFile] fails (ENOSPC, EIO) when [n]
    characters are written. *)
Inductive Fault :=
| Refused
| Torn (n : nat).

#[global] Instance Fault_eq_dec : EqDecision Fault.
Proof. solve_decision. Defined.

(** The three record kinds, each keyed by the path of its file under the
    partition directory [configDir/serverUrlHash], and how the file system
    answers a change: [faults] are the paths whose write fails, each with
    the way it fails (the write of any other path succeeds); [pinned] are
    the paths whose file, when there is one, [unlink] fails to remove
    (EACCES, EPERM, EBUSY). *)
Record Disk := mkDisk {
  tokens_json : gmap string (File OAuthTokens);
  client_info_json : gmap string (File OAuthClientInformationFull);
  code_verifier_txt : gmap string (File string);
  faults : gmap string Fault;
  pinned : gset string
}.

(** Every write succeeds; every file can be removed. *)
Definition writable (d : Disk) : bool := bool_decide (faults d = ∅).
Definition removable (d : Disk) : bool := bool_decide (pinned d = ∅).

(** Calls made to the outside, in order. *)
Inductive Effect :=
| FsRead (path : string)
| FsWrite (path : string)
| FsUnlink (path : string)
| HttpGet (url : Url)
| HttpPostJson (url : string) (payload : OAuthClientMetadata)
| HttpPostForm (url : string) (form : list (string * string))
| Listen (port : N)
| CloseServer (handle : nat)
| OpenBrowser (url : Url)
| Respond (r : Response)
| Emit (event payload : string).

(** The fields of an [OAuthClientProvider] instance. [onceListeners] are the
    names of the one-shot listeners registered on [events]. *)
Record Provider := mkProvider {
  options : OAuthClientProviderOptions;
  onceListeners : list string;
  authServer : option nat;
  authenticationPromise : option nat;
  authInitialized : bool;
  serverUrlHash : string;
  tokenStorage : string;
  discoveryDocument : option AuthorizationServerMetadata;
  clientInfo : option OAuthClientInformationFull;
  _codeVerifier : option string
}.

(** [port] is the server of this process listening on the callback port, if
    any; [servers] counts the servers created and [promises] the calls of
    [_performAuthentication] (each returns a new promise): they name the
    next one. [canParse input base] is [URL.canParse(input, base)]: whether
    [new URL(input, base)] returns a URL or throws; it is the verdict of the
    platform's parser on the two strings, and no method changes it. *)
Record World := mkWorld {
  this : Provider;
  disk : Disk;
  port : option nat;
  servers : nat;
  promises : nat;
  trace : list Effect;
  canParse : string -> option string -> bool
}.

(** ** The monad of [async] methods *)

Definition M (A : Type) : Type := World -> Result A * World.

Definition ret {A} (a : A) : M A := fun w => (Ok a, w).
Definition throw {A} (e : Error) : M A := fun w => (Throw e, w).

Definition bind {A B} (m : M A) (k : A -> M B) : M B :=
  fun w =>
    match m w with
    | (Ok a, w') => k a w'
    | (Throw e, w') => (Throw e, w')
    end.

Declare Scope async_scope.
Delimit Scope async_scope with async.
Notation "x <- m ;; k" := (bind m (fun x => k))
  (at level 20, m at level 99, k at level 200, right associativity) : async_scope.
Notation "m ;; k" := (bind m (fun _ => k))
  (at level 100, k at level 200, right associativity) : async_scope.
Local Open Scope async_scope.

(** [try { m } catch (e) { h e }] *)
Definition try_catch {A} (m : M A) (h : Error -> M A) : M A :=
  fun w =>
    match m w with
    | (Ok a, w') => (Ok a, w')
    | (Throw e, w') => h e w'
    end.

(** [try { m } finally { f }] *)
Definition try_finally {A} (m : M A) (f : M unit) : M A :=
  fun w =>
    match m w with
    | (r, w') =>
        match f w' with
        | (Ok _, w'') => (r, w'')
        | (Throw e, w'') => (Throw e, w'')
        end
    end.

Definition gets {A} (f : World -> A) : M A := fun w => (Ok (f w), w).
Definition modify (f : World -> World) : M unit := fun w => (Ok tt, f w).

(** The result of an awaited external call, as the outside gave it. *)
Definition await {A} (r : Result A) : M A := fun w => (r, w).

Definition set_this (f : Provider -> Provider) (w : World) : World :=
  mkWorld (f (this w)) (disk w) (port w) (servers w) (promises w) (trace w) (canParse w).
Definition set_disk (f : Disk -> Disk) (w : World) : World :=
  mkWorld (this w) (f (disk w)) (port w) (servers w) (promises w) (trace w) (canParse w).
Definition set_port (v : option nat) (w : World) : World :=
  mkWorld (this w) (disk w) v (servers w) (promises w) (trace w) (canParse w).
Definition set_servers (v : nat) (w : World) : World :=
  mkWorld (this w) (disk w) (port w) v (promises w) (trace w) (canParse w).
Definition set_promises (v : nat) (w : World) : World :=
  mkWorld (this w) (disk w) (port w) (servers w) v (trace w) (canParse w).
Definition emit_effect (e : Effect) (w : World) : World :=
  mkWorld (this w) (disk w) (port w) (servers w) (promises w) (trace w ++ [e]) (canParse w).

Definition effect (e : Effect) : M unit := modify (emit_effect e).

Definition set_onceListeners (v : list string) (p : Provider) : Provider :=
  mkProvider (options p) v (authServer p) (authenticationPromise p)
    (authInitialized p) (serverUrlHash p) (tokenStorage p) (discoveryDocument p)
    (clientInfo p) (_codeVerifier p).
Definition set_authServer (v : option nat) (p : Provider) : Provider :=
  mkProvider (options p) (onceListeners p) v (authenticationPromise p)
    (authInitialized p) (serverUrlHash p) (tokenStorage p) (discoveryDocument p)
    (clientInfo p) (_codeVerifier p).
Definition set_authenticationPromise (v : option nat) (p : Provider) : Provider :=
  mkProvider (options p) (onceListeners p) (authServer p) v
    (authInitialized p) (serverUrlHash p) (tokenStorage p) (discoveryDocument p)
    (clientInfo p) (_codeVerifier p).
Definition set_authInitialized (v : bool) (p : Provider) : Provider :=
  mkProvider (options p) (onceListeners p) (authServer p) (authenticationPromise p)
    v (serverUrlHash p) (tokenStorage p) (discoveryDocument p)
    (clientInfo p) (_codeVerifier p).
Definition set_discoveryDocument (v : option AuthorizationServerMetadata) (p : Provider) : Provider :=
  mkProvider (options p) (onceListeners p) (authServer p) (authenticationPromise p)
    (authInitialized p) (serverUrlHash p) (tokenStorage p) v
    (clientInfo p) (_codeVerifier p).
Definition set_clientInfo (v : option OAuthClientInformationFull) (p : Provider) : Provider :=
  mkProvider (options p) (onceListeners p) (authServer p) (authenticationPromise p)
    (authInitialized p) (serverUrlHash p) (tokenStorage p) (discoveryDocument p)
    v (_codeVerifier p).
Definition set_codeVerifier (v : option string) (p : Provider) : Provider :=
  mkProvider (options p) (onceListeners p) (authServer p) (authenticationPromise p)
    (authInitialized p) (serverUrlHash p) (tokenStorage p) (discoveryDocument p)
    (clientInfo p) v.

Definition set_tokens_json (f : gmap string (File OAuthTokens) -> gmap string (File OAuthTokens))
    (d : Disk) : Disk :=
  mkDisk (f (tokens_json d)) (client_info_json d) (code_verifier_txt d) (faults d) (pinned d).
Definition set_client_info_json
    (f : gmap string (File OAuthClientInformationFull) -> gmap string (File OAuthClientInformationFull))
    (d : Disk) : Disk :=
  mkDisk (tokens_json d) (f (client_info_json d)) (code_verifier_txt d) (faults d) (pinned d).
Definition set_code_verifier_txt (f : gmap string (File string) -> gmap string (File string))
    (d : Disk) : Disk :=
  mkDisk (tokens_json d) (client_info_json d) (f (code_verifier_txt d)) (faults d) (pinned d).

(** [new URL(input, base)]: the URL, or [TypeError: Invalid URL] when the
    parser refuses the input. *)
Definition new_URL (input : string) (base : option string) : M Url :=
  parses <- gets (fun w => canParse w input base) ;;
  if parses
  then ret match base with
           | Some b => mkUrl b (Some input) []
           | None => mkUrl input None []
           end
  else throw (TypeError "Invalid URL").

(** ** [src/utils.ts] *)

(** [path.join] of components that need no normalisation. *)
Definition path_join (a b : string) : string := a ++ "/" ++ b.

Definition getServerUrlHash (serverUrl : string) : string :=
  substring 0 16 (hex (SHA256.digest (list_byte_of_string serverUrl))).

Module FileTokenStorage.

(** The constructor: the instance is its [configDir]. *)
Definition new (homedir : string) (configDir : option string) : string :=
  js_or configDir (path_join (path_join homedir ".config") "mcp-oauth").

Definition getTokenPath (serverUrlHash : string) : M string :=
  dir <- gets (fun w => tokenStorage (this w)) ;;
  ret (path_join (path_join dir serverUrlHash) "tokens.json").

Definition getClientInfoPath (serverUrlHash : string) : M string :=
  dir <- gets (fun w => tokenStorage (this w)) ;;
  ret (path_join (path_join dir serverUrlHash) "client_info.json").

Definition getCodeVerifierPath (serverUrlHash : string) : M string :=
  dir <- gets (fun w => tokenStorage (this w)) ;;
  ret (path_join (path_join dir serverUrlHash) "code_verifier.txt").

(** [fs.readFile] (followed by [JSON.parse] for the two JSON records). *)
Definition readFile {A} (files : Disk -> gmap string (File A)) (path : string) : M A :=
  effect (FsRead path) ;;
  d <- gets disk ;;
  match files d !! path with
  | Some (Holds a) => ret a
  | Some Corrupt => throw (mkError "SyntaxError" "Unexpected token")
  | None => throw (newError "ENOENT: no such file or directory")
  end.

(** [fs.mkdir(dir, { recursive: true })] then [fs.writeFile]: [store]
    puts the whole text in the file; when the write is cut short after [n]
    characters, [cut n] is what the file is left with. *)
Definition writeFile (store : string -> Disk -> Disk) (cut : nat -> string -> Disk -> Disk)
    (path : string) : M unit :=
  d <- gets disk ;;
  match faults d !! path with
  | None => effect (FsWrite path) ;; modify (set_disk (store path))
  | Some Refused => throw (newError "EACCES: permission denied")
  | Some (Torn n) =>
      effect (FsWrite path) ;;
      modify (set_disk (cut n path)) ;;
      throw (newError "ENOSPC: no space left on device")
  end.

(** [fs.unlink]: removes the entry; throws when there is none, and when the
    file cannot be removed. *)
Definition unlink {A} (files : Disk -> gmap string (File A))
    (remove : string -> Disk -> Disk) (path : string) : M unit :=
  effect (FsUnlink path) ;;
  d <- gets disk ;;
  match files d !! path with
  | Some _ =>
      if decide (path ∈ pinned d)
      then throw (newError "EPERM: operation not permitted")
      else modify (set_disk (remove path))
  | None => throw (newError "ENOENT: no such file or directory")
  end.

Definition getTokens (serverUrlHash : string) : M (option OAuthTokens) :=
  try_catch
    (tokenPath <- getTokenPath serverUrlHash ;;
     data <- readFile tokens_json tokenPath ;;
     ret (Some data))
    (fun _ => ret None).

(** The JSON text of a record, cut short, does not parse: the file is
    [Corrupt]. *)
Definition saveTokens (serverUrlHash : string) (tokens : OAuthTokens) : M unit :=
  tokenPath <- getTokenPath serverUrlHash ;;
  writeFile (fun p => set_tokens_json (insert p (Holds tokens)))
    (fun _ p => set_tokens_json (insert p Corrupt)) tokenPath.

Definition deleteTokens (serverUrlHash : string) : M unit :=
  try_catch
    (tokenPath <- getTokenPath serverUrlHash ;;
     unlink tokens_json (fun p => set_tokens_json (delete p)) tokenPath)
    (fun _ => ret tt).

Definition getClientInfo (serverUrlHash : string) : M (option OAuthClientInformationFull) :=
  try_catch
    (clientPath <- getClientInfoPath serverUrlHash ;;
     data <- readFile client_info_json clientPath ;;
     ret (Some data))
    (fun _ => ret None).

Definition saveClientInfo (serverUrlHash : string) (clientInfo : OAuthClientInformationFull)
    : M unit :=
  clientPath <- getClientInfoPath serverUrlHash ;;
  writeFile (fun p => set_client_info_json (insert p (Holds clientInfo)))
    (fun _ p => set_client_info_json (insert p Corrupt)) clientPath.

Definition deleteClientInfo (serverUrlHash : string) : M unit :=
  try_catch
    (clientPath <- getClientInfoPath serverUrlHash ;;
     unlink client_info_json (fun p => set_client_info_json (delete p)) clientPath)
    (fun _ => ret tt).

Definition getCodeVerifier (serverUrlHash : string) : M (option string) :=
  try_catch
    (verifierPath <- getCodeVerifierPath serverUrlHash ;;
     data <- readFile code_verifier_txt verifierPath ;;
     ret (Some data))
    (fun _ => ret None).

(** The verifier is written as it is: cut short, the file holds its first
    characters. *)
Definition saveCodeVerifier (serverUrlHash : string) (verifier : string) : M unit :=
  verifierPath <- getCodeVerifierPath serverUrlHash ;;
  writeFile (fun p => set_code_verifier_txt (insert p (Holds verifier)))
    (fun n p => set_code_verifier_txt (insert p (Holds (substring 0 n verifier))))
    verifierPath.

Definition deleteCodeVerifier (serverUrlHash : string) : M unit :=
  try_catch
    (verifierPath <- getCodeVerifierPath serverUrlHash ;;
     unlink code_verifier_txt (fun p => set_code_verifier_txt (delete p)) verifierPath)
    (fun _ => ret tt).

End FileTokenStorage.

(** ** [src/oauth-server.ts] *)

Module OAuthServer.

Definition failed_page (error : string) : string :=
  "
            <html>
              <body>
                <h1>Authentication Failed</h1>
                <p>Error: " ++ error ++ "</p>
                <p>You can close this window.</p>
              </body>
            </html>
          ".

Definition successful_page : string :=
  "
            <html>
              <body>
                <h1>Authentication Successful</h1>
                <p>You can close this window and return to the application.</p>
                <script>window.close();</script>
              </body>
            </html>
          ".

Definition missing_code_page : string :=
  "
            <html>
              <body>
                <h1>Authentication Failed</h1>
                <p>No authorization code received.</p>
                <p>You can close this window.</p>
              </body>
            </html>
          ".

(** What the request listener does with one request: the response it
    writes and the event it emits on [options.events], if any. *)
Record Reply := mkReply {
  response : Response;
  emitted : option (string * string)
}.

(** The listener passed to [createServer]. An exception of [new URL]
    escapes it: nothing is written and nothing emitted. *)
Definition requestListener (path : string) (req : Request) : Result Reply :=
  match req with
  | NoUrl => Ok (mkReply (mkResponse 400 None "Bad Request") None)
  | BadUrl => Throw (TypeError "Invalid URL")
  | ReqUrl pathname searchParams =>
      if String.eqb pathname path then
        let code := params_get "code" searchParams in
        let error := params_get "error" searchParams in
        if truthy_opt error then
          Ok (mkReply (mkResponse 400 (Some "text/html") (failed_page (js_string error)))
                      (Some ("auth-error", js_string error)))
        else if truthy_opt code then
          Ok (mkReply (mkResponse 200 (Some "text/html") successful_page)
                      (Some ("auth-code", js_string code)))
        else
          Ok (mkReply (mkResponse 400 (Some "text/html") missing_code_page) None)
      else
        Ok (mkReply (mkResponse 404 None "Not Found") None)
  end.

(** [createOAuthCallbackServer]: [server.listen] succeeds when the port is
    not held by a server of this process and the operating system grants
    it ([granted]); the promise resolves with the server, or rejects with the
    ['error'] event. *)
Definition createOAuthCallbackServer (callbackPort : N) (granted : Result unit) : M nat :=
  effect (Listen callbackPort) ;;
  held <- gets port ;;
  match held with
  | Some _ => throw (newError "listen EADDRINUSE: address already in use")
  | None =>
      await granted ;;
      server <- gets servers ;;
      modify (set_servers (S server)) ;;
      modify (set_port (Some server)) ;;
      ret server
  end.

(** [server.close(callback)]: the callback gets an error when the server
    is not listening. *)
Definition close (server : nat) : M unit :=
  effect (CloseServer server) ;;
  held <- gets port ;;
  if decide (held = Some server)
  then modify (set_port None)
  else throw (newError "ERR_SERVER_NOT_RUNNING").

End OAuthServer.

(** ** [src/OAuthClientProvider.ts] *)

Module OAuthClientProvider.

(** What the outside answers during one call: the discovery, registration
    and token endpoints, the port bind, [crypto.randomBytes], the browser
    launch, the requests reaching the listener while the flow waits for
    the redirect (none that settles it means the 5 minute timer fires),
    and the outcome of an authentication promise of another call. *)
Record Outside := mkOutside {
  discovery : Result AuthorizationServerMetadata;
  registration : Result OAuthClientInformationFull;
  listen : Result unit;
  randomBytes : nat -> list byte;
  browser : Result unit;
  redirect : list Request;
  token : Result OAuthTokens;
  inflight : Result unit
}.

Definition string_of_N (n : N) : string :=
  DecimalString.NilZero.string_of_uint (N.to_uint n).

Definition some_or (o : option string) (d : string) : option string := Some (js_or o d).

Definition constructor (homedir : string) (o : OAuthClientProviderOptions) : Provider :=
  mkProvider
    (mkOptions (serverUrl o) (callbackPort o) (host o)
       (some_or (callbackPath o) "/oauth/callback")
       (configDir o)
       (some_or (clientName o) "MCP OAuth Client")
       (some_or (clientUri o) "https://modelcontextprotocol.io")
       (some_or (softwareId o) "mcp-oauth-client")
       (some_or (softwareVersion o) "1.0.0")
       (staticOAuthClientMetadata o) (staticOAuthClientInfo o) (authorizeResource o)
       (Some (negb (bool_decide (autoAuthenticate o = Some false)))))
    [] None None false
    (getServerUrlHash (serverUrl o))
    (FileTokenStorage.new homedir (configDir o))
    None None None.

Definition createWithAutoAuth (homedir : string) (o : OAuthClientProviderOptions) : Provider :=
  constructor homedir
    (mkOptions (serverUrl o) (callbackPort o) (host o) (callbackPath o) (configDir o)
       (clientName o) (clientUri o) (softwareId o) (softwareVersion o)
       (staticOAuthClientMetadata o) (staticOAuthClientInfo o) (authorizeResource o)
       (Some true)).

Definition opts : M OAuthClientProviderOptions := gets (fun w => options (this w)).
Definition hash : M string := gets (fun w => serverUrlHash (this w)).

Definition redirectUrl (o : OAuthClientProviderOptions) : string :=
  "http://" ++ host o ++ ":" ++ string_of_N (callbackPort o)
    ++ js_string (callbackPath o).

Definition defaultClientMetadata (o : OAuthClientProviderOptions) : OAuthClientMetadata :=
  mkClientMetadata (clientName o) (clientUri o) (Some [redirectUrl o])
    (Some ["authorization_code"; "refresh_token"]) (Some ["code"])
    (softwareId o) (softwareVersion o).

Definition clientMetadata (o : OAuthClientProviderOptions) : OAuthClientMetadata :=
  match staticOAuthClientMetadata o with
  | Some m => m
  | None => defaultClientMetadata o
  end.

Definition clientInformation : M (option OAuthClientInformationFull) :=
  cached <- gets (fun w => clientInfo (this w)) ;;
  match cached with
  | Some _ => ret cached
  | None =>
      h <- hash ;;
      stored <- FileTokenStorage.getClientInfo h ;;
      modify (set_this (set_clientInfo stored)) ;;
      ret stored
  end.

Definition saveClientInformation (clientInformation : OAuthClientInformationFull) : M unit :=
  modify (set_this (set_clientInfo (Some clientInformation))) ;;
  h <- hash ;;
  FileTokenStorage.saveClientInfo h clientInformation.

Definition saveTokens (tokens : OAuthTokens) : M unit :=
  h <- hash ;;
  FileTokenStorage.saveTokens h tokens.

Definition redirectToAuthorization (authorizationUrl : Url) (launched : Result unit) : M unit :=
  effect (OpenBrowser authorizationUrl) ;;
  await launched.

Definition saveCodeVerifier (codeVerifier : string) : M unit :=
  modify (set_this (set_codeVerifier (Some codeVerifier))) ;;
  h <- hash ;;
  FileTokenStorage.saveCodeVerifier h codeVerifier.

Definition codeVerifier : M string :=
  cached <- gets (fun w => _codeVerifier (this w)) ;;
  if truthy_opt cached then ret (js_string cached)
  else
    h <- hash ;;
    stored <- FileTokenStorage.getCodeVerifier h ;;
    if truthy_opt stored
    then modify (set_this (set_codeVerifier stored)) ;; ret (js_string stored)
    else modify (set_this (set_codeVerifier None)) ;;
         throw (newError "No code verifier saved").

(** The scopes of [invalidateCredentials]: ['all'], ['client'], ['tokens'],
    ['verifier']. *)
Module Scope.
Inductive t := all | client | tokens | verifier.
End Scope.

Definition invalidateCredentials (scope : Scope.t) : M unit :=
  h <- hash ;;
  match scope with
  | Scope.all =>
      FileTokenStorage.deleteTokens h ;;
      FileTokenStorage.deleteClientInfo h ;;
      FileTokenStorage.deleteCodeVerifier h ;;
      modify (set_this (set_clientInfo None)) ;;
      modify (set_this (set_codeVerifier None))
  | Scope.client =>
      FileTokenStorage.deleteClientInfo h ;;
      modify (set_this (set_clientInfo None))
  | Scope.tokens =>
      FileTokenStorage.deleteTokens h
  | Scope.verifier =>
      FileTokenStorage.deleteCodeVerifier h ;;
      modify (set_this (set_codeVerifier None))
  end.

Definition discoverOAuthEndpoints (answer : Result AuthorizationServerMetadata) : M unit :=
  o <- opts ;;
  discoveryUrl <- new_URL "/.well-known/oauth-authorization-server" (Some (serverUrl o)) ;;
  try_catch
    (effect (HttpGet discoveryUrl) ;;
     data <- await answer ;;
     modify (set_this (set_discoveryDocument (Some data))))
    (fun error =>
       throw (newError ("Failed to fetch OAuth discovery document: " ++ error_toString error))).

Definition registerClient (answer : Result OAuthClientInformationFull) : M unit :=
  o <- opts ;;
  match staticOAuthClientInfo o with
  | Some static => modify (set_this (set_clientInfo (Some static)))
  | None =>
      existingClientInfo <- clientInformation ;;
      match existingClientInfo with
      | Some existing => modify (set_this (set_clientInfo (Some existing)))
      | None =>
          doc <- gets (fun w => discoveryDocument (this w)) ;;
          let endpoint := doc ≫= registration_endpoint in
          if negb (truthy_opt endpoint)
          then throw (newError "No registration endpoint found in discovery document")
          else
            let metadata := clientMetadata o in
            try_catch
              (effect (HttpPostJson (js_string endpoint) metadata) ;;
               data <- await answer ;;
               modify (set_this (set_clientInfo (Some data))) ;;
               saveClientInformation data)
              (fun error =>
                 throw (newError ("Failed to register OAuth client: " ++ error_toString error)))
      end
  end.

Definition initializeAuth (granted : Result unit) : M nat :=
  o <- opts ;;
  server <- OAuthServer.createOAuthCallbackServer (callbackPort o) granted ;;
  modify (set_this (set_authServer (Some server))) ;;
  ret server.

(** [events.emit(event, payload)] on the requests that reach the listener
    while the promise of [waitForAuthCode] is pending: the first emission
    settles it and removes the one-shot listeners of that event; when the
    requests run out the timer fires. An exception thrown in the listener
    is thrown to the server, not to the promise: the wait goes on. *)
Fixpoint serve (path : string) (requests : list Request) : M string :=
  match requests with
  | [] => throw (newError "Authentication timeout")
  | req :: rest =>
      match OAuthServer.requestListener path req with
      | Throw _ => serve path rest
      | Ok reply =>
          effect (Respond (OAuthServer.response reply)) ;;
          match OAuthServer.emitted reply with
          | Some (event, payload) =>
              effect (Emit event payload) ;;
              modify (set_this (fun p =>
                set_onceListeners
                  (List.filter (fun l => negb (String.eqb l event)) (onceListeners p)) p)) ;;
              if String.eqb event "auth-code"
              then ret payload
              else throw (newError ("Authentication error: " ++ payload))
          | None => serve path rest
          end
      end
  end.

Definition waitForAuthCode (requests : list Request) : M string :=
  o <- opts ;;
  modify (set_this (fun p =>
    set_onceListeners (onceListeners p ++ ["auth-code"; "auth-error"]) p)) ;;
  serve (js_string (callbackPath o)) requests.

Record PKCE := mkPKCE { challenge : string; verifier : string }.

Definition generatePKCEChallenge (randomBytes : nat -> list byte) : PKCE :=
  let verifier := Base64url.encode (randomBytes 32%nat) in
  let challenge := Base64url.encode (SHA256.digest (list_byte_of_string verifier)) in
  mkPKCE challenge verifier.

Definition secret_field (ci : OAuthClientInformationFull) : list (string * string) :=
  if truthy_opt (client_secret ci)
  then [("client_secret", js_string (client_secret ci))]
  else [].

Definition exchangeCodeForTokens (code codeVerifier : string) (answer : Result OAuthTokens)
    : M unit :=
  doc <- gets (fun w => discoveryDocument (this w)) ;;
  ci <- gets (fun w => clientInfo (this w)) ;;
  match doc, ci with
  | Some doc, Some ci =>
      redirect_uri <- await (index0 (redirect_uris (client_metadata ci))) ;;
      let tokenData :=
        [("grant_type", "authorization_code"); ("code", code);
         ("redirect_uri", js_string redirect_uri); ("client_id", client_id ci);
         ("code_verifier", codeVerifier)] ++ secret_field ci in
      try_catch
        (effect (HttpPostForm (token_endpoint doc) tokenData) ;;
         data <- await answer ;;
         saveTokens data)
        (fun error =>
           throw (newError ("Failed to exchange code for tokens: " ++ error_toString error)))
  | _, _ => throw (newError "Missing discovery document or client info")
  end.

(** Lines 319-343: up to the browser launch. *)
Definition requestAuthorization (randomBytes : nat -> list byte) (launched : Result unit)
    : M PKCE :=
  doc <- gets (fun w => discoveryDocument (this w)) ;;
  ci <- gets (fun w => clientInfo (this w)) ;;
  match doc, ci with
  | Some doc, Some ci =>
      let pkce := generatePKCEChallenge randomBytes in
      saveCodeVerifier (verifier pkce) ;;
      o <- opts ;;
      authUrl <- new_URL (authorization_endpoint doc) None ;;
      let authUrl := searchParams_set "client_id" (client_id ci) authUrl in
      let authUrl := searchParams_set "response_type" "code" authUrl in
      redirect_uri <- await (index0 (redirect_uris (client_metadata ci))) ;;
      let authUrl := searchParams_set "redirect_uri" (js_string redirect_uri) authUrl in
      let authUrl := searchParams_set "code_challenge" (challenge pkce) authUrl in
      let authUrl := searchParams_set "code_challenge_method" "S256" authUrl in
      let authUrl :=
        if truthy_opt (authorizeResource o)
        then searchParams_set "resource" (js_string (authorizeResource o)) authUrl
        else authUrl in
      effect (OpenBrowser authUrl) ;;
      await launched ;;
      ret pkce
  | _, _ => throw (newError "Missing discovery document or client info")
  end.

Definition performAuthorizationCodeFlow (out : Outside) : M unit :=
  pkce <- requestAuthorization (randomBytes out) (browser out) ;;
  authCode <- waitForAuthCode (redirect out) ;;
  exchangeCodeForTokens authCode (verifier pkce) (token out).

Definition _performAuthentication (out : Outside) : M unit :=
  try_catch
    (discoverOAuthEndpoints (discovery out) ;;
     registerClient (registration out) ;;
     initializeAuth (listen out) ;;
     performAuthorizationCodeFlow out ;;
     modify (set_this (set_authInitialized true)))
    (fun error => throw error).

(** The promise that this call of [_performAuthentication] returns. *)
Definition newPromise : M nat :=
  p <- gets promises ;;
  modify (set_promises (S p)) ;;
  ret p.

Definition ensureAuthenticated (out : Outside) : M unit :=
  h <- hash ;;
  existingTokens <- FileTokenStorage.getTokens h ;;
  if truthy_opt (existingTokens ≫= access_token) then ret tt
  else
    pending <- gets (fun w => authenticationPromise (this w)) ;;
    match pending with
    | Some _ => await (inflight out)
    | None =>
        p <- newPromise ;;
        modify (set_this (set_authenticationPromise (Some p))) ;;
        try_finally (_performAuthentication out)
          (modify (set_this (set_authenticationPromise None)))
    end.

Definition tokens (out : Outside) : M (option OAuthTokens) :=
  pending <- gets (fun w => authenticationPromise (this w)) ;;
  match pending with
  | Some _ => ret None
  | None =>
      h <- hash ;;
      existingTokens <- FileTokenStorage.getTokens h ;;
      o <- opts ;;
      initialized <- gets (fun w => authInitialized (this w)) ;;
      match existingTokens, autoAuthenticate o, initialized with
      | None, Some true, false =>
          ensureAuthenticated out ;;
          newTokens <- FileTokenStorage.getTokens h ;;
          ret newTokens
      | _, _, _ => ret existingTokens
      end
  end.

Definition refreshTokens (refreshToken : string) (out : Outside) : M OAuthTokens :=
  doc <- gets (fun w => discoveryDocument (this w)) ;;
  ci <- gets (fun w => clientInfo (this w)) ;;
  match doc, ci with
  | Some _, Some _ => ret tt
  | _, _ => discoverOAuthEndpoints (discovery out) ;; registerClient (registration out)
  end ;;
  doc <- gets (fun w => discoveryDocument (this w)) ;;
  ci <- gets (fun w => clientInfo (this w)) ;;
  match doc, ci with
  | Some doc, Some ci =>
      let tokenData :=
        [("grant_type", "refresh_token"); ("refresh_token", refreshToken);
         ("client_id", client_id ci)] ++ secret_field ci in
      try_catch
        (effect (HttpPostForm (token_endpoint doc) tokenData) ;;
         data <- await (token out) ;;
         let tokens :=
           mkTokens (access_token data) (token_type data) (expires_in data)
             (Some (js_or (refresh_token data) refreshToken)) (scope data) in
         saveTokens tokens ;;
         ret tokens)
        (fun error =>
           throw (newError ("Failed to refresh tokens: " ++ error_toString error)))
  | _, _ => throw (newError "Missing discovery document or client info")
  end.

Definition cleanup : M unit :=
  server <- gets (fun w => authServer (this w)) ;;
  match server with
  | Some s => try_catch (OAuthServer.close s) (fun _ => ret tt)
  | None => ret tt
  end ;;
  modify (set_this (set_onceListeners [])).

End OAuthClientProvider.

(** ** The event loop: several pending calls of [ensureAuthenticated]

    Every [await] gives the loop the chance to run another pending
    continuation. A call of [ensureAuthenticated] is a task; the body of a
    call of [_performAuthentication] is an attempt, and settles the promise
    of that call. A label says which continuation runs next, and carries
    the answer of the outside for it; a stage of an attempt runs, and its
    calls to the outside enter the trace, when the answer it waits for
    arrives. *)

Module EventLoop.
Import OAuthClientProvider.

(** Where an attempt waits (the specification's states). *)
Inductive Stage :=
| Discovering
| Registering
| Binding
| Authorizing
| AwaitingRedirect (pkce : PKCE)
| ExchangingCode (code codeVerifier : string).

Inductive Attempt :=
| Pending (stage : Stage)
| Settled (outcome : Result unit).

(** How a call of [ensureAuthenticated] came to return. *)
Inductive Via :=
| Shortcut
| Own (p : nat)
| Shared (p : nat).

(** Where a call of [ensureAuthenticated] waits: for the read of line 173
    to be done, for its continuation to run, for the attempt it started
    (line 189), for the promise it returned (line 182). *)
Inductive Task :=
| Reading
| ReadDone (existingTokens : option OAuthTokens)
| AwaitingOwn (p : nat)
| AwaitingShared (p : nat)
| Returned (via : Via) (outcome : Result unit).

Record Sys := mkSys {
  world : World;
  attempts : list Attempt;
  tasks : list Task
}.

Inductive Answer :=
| Discovered (answer : Result AuthorizationServerMetadata)
| Registered (answer : Result OAuthClientInformationFull)
| Bound (granted : Result unit)
| Launched (randomBytes : nat -> list byte) (launched : Result unit)
| Redirected (requests : list Request)
| Exchanged (answer : Result OAuthTokens).

(** [Stored d]: the credential files are now [d] (another process sharing
    the store, or a call of [saveTokens] or [invalidateCredentials], wrote
    or removed records). *)
Inductive Label :=
| Call
| Read (i : nat)
| Resume (i : nat)
| Advance (p : nat) (a : Answer)
| Finish (i : nat)
| Stored (d : Disk).

(** One stage of [_performAuthentication]: the next stage, or [None] when
    the body has run to its end. *)
Definition advance (stage : Stage) (a : Answer) : option (M (option Stage)) :=
  match stage, a with
  | Discovering, Discovered answer =>
      Some (discoverOAuthEndpoints answer ;; ret (Some Registering))
  | Registering, Registered answer =>
      Some (registerClient answer ;; ret (Some Binding))
  | Binding, Bound granted =>
      Some (initializeAuth granted ;; ret (Some Authorizing))
  | Authorizing, Launched randomBytes launched =>
      Some (pkce <- requestAuthorization randomBytes launched ;;
            ret (Some (AwaitingRedirect pkce)))
  | AwaitingRedirect pkce, Redirected requests =>
      Some (authCode <- waitForAuthCode requests ;;
            ret (Some (ExchangingCode authCode (verifier pkce))))
  | ExchangingCode code codeVerifier, Exchanged answer =>
      Some (exchangeCodeForTokens code codeVerifier answer ;;
            modify (set_this (set_authInitialized true)) ;;
            ret None)
  | _, _ => None
  end.

Definition settle (r : Result (option Stage)) : Attempt :=
  match r with
  | Ok (Some stage) => Pending stage
  | Ok None => Settled (Ok tt)
  | Throw e => Settled (Throw e)
  end.

(** Lines 174-186, run when the read of line 173 has resolved. The promise
    of an attempt is named by the place of the attempt in [attempts]. *)
Definition resume (existingTokens : option OAuthTokens) (s : Sys) : Sys * Task :=
  if truthy_opt (existingTokens ≫= access_token) then (s, Returned Shortcut (Ok tt))
  else
    match authenticationPromise (this (world s)) with
    | Some p => (s, AwaitingShared p)
    | None =>
        let p := length (attempts s) in
        (mkSys (set_this (set_authenticationPromise (Some p))
                  (set_promises (S (promises (world s))) (world s)))
               (attempts s ++ [Pending Discovering]) (tasks s),
         AwaitingOwn p)
    end.

Definition step (l : Label) (s : Sys) : option Sys :=
  match l with
  | Call => Some (mkSys (world s) (attempts s) (tasks s ++ [Reading]))
  | Read i =>
      match tasks s !! i with
      | Some Reading =>
          match FileTokenStorage.getTokens (serverUrlHash (this (world s))) (world s) with
          | (Ok existingTokens, w) =>
              Some (mkSys w (attempts s) (<[i := ReadDone existingTokens]> (tasks s)))
          | (Throw _, _) => None
          end
      | _ => None
      end
  | Resume i =>
      match tasks s !! i with
      | Some (ReadDone existingTokens) =>
          let '(s', t) := resume existingTokens s in
          Some (mkSys (world s') (attempts s') (<[i := t]> (tasks s')))
      | _ => None
      end
  | Advance p a =>
      match attempts s !! p with
      | Some (Pending stage) =>
          match advance stage a with
          | Some m =>
              let '(r, w) := m (world s) in
              Some (mkSys w (<[p := settle r]> (attempts s)) (tasks s))
          | None => None
          end
      | _ => None
      end
  | Finish i =>
      match tasks s !! i with
      | Some (AwaitingOwn p) =>
          match attempts s !! p with
          | Some (Settled outcome) =>
              Some (mkSys (set_this (set_authenticationPromise None) (world s))
                          (attempts s) (<[i := Returned (Own p) outcome]> (tasks s)))
          | _ => None
          end
      | Some (AwaitingShared p) =>
          match attempts s !! p with
          | Some (Settled outcome) =>
              Some (mkSys (world s) (attempts s)
                          (<[i := Returned (Shared p) outcome]> (tasks s)))
          | _ => None
          end
      | _ => None
      end
  | Stored d => Some (mkSys (set_disk (fun _ => d) (world s)) (attempts s) (tasks s))
  end.

Fixpoint exec (ls : list Label) (s : Sys) : option Sys :=
  match ls with
  | [] => Some s
  | l :: rest =>
      match step l s with
      | Some s' => exec rest s'
      | None => None
      end
  end.

(** An instance on which nothing is pending. *)
Definition idle (w : World) : Sys := mkSys w [] [].

Definition reachable (w : World) (s : Sys) : Prop :=
  exists ls, exec ls (idle w) = Some s.

Definition pending (a : Attempt) : bool :=
  match a with
  | Pending _ => true
  | Settled _ => false
  end.

(** The attempts in progress. *)
Definition in_flight (s : Sys) : list Attempt := List.filter pending (attempts s).

Definition started (t : Task) : bool :=
  match t with
  | AwaitingOwn _ | Returned (Own _) _ => true
  | _ => false
  end.

End EventLoop.

(** ** PKCE (RFC 7636) *)

(** The check a token endpoint makes for [code_challenge_method=S256]:
    the challenge is the unpadded base64url of the SHA-256 of the ASCII
    verifier. *)
Definition S256_valid (code_verifier code_challenge : string) : bool :=
  String.eqb (Base64url.encode (SHA256.digest (list_byte_of_string code_verifier)))
             code_challenge.

Definition all_url_safe (s : string) : Prop :=
  Forall (fun c => Base64url.url_safe c = true) (list_ascii_of_string s).

(** The paths of the three records of a partition. *)
Definition tokenPath (w : World) (h : string) : string :=
  path_join (path_join (tokenStorage (this w)) h) "tokens.json".
Definition clientInfoPath (w : World) (h : string) : string :=
  path_join (path_join (tokenStorage (this w)) h) "client_info.json".
Definition codeVerifierPath (w : World) (h : string) : string :=
  path_join (path_join (tokenStorage (this w)) h) "code_verifier.txt".

(** The record a file holds, if it is there and can be read. *)
Definition record {A} (f : option (File A)) : option A :=
  match f with
  | Some (Holds a) => Some a
  | _ => None
  end.


(** What [unlink] of the path [p] leaves of the files [m] on a disk where
    the files [pin] cannot be removed. *)
Definition unlinked {A} (pin : gset string) (p : string) (m : gmap string A)
    : gmap string A :=
  if decide (p ∈ pin) then m else delete p m.

(** What an invalidation of [scope] must leave: no record of that scope on
    disk, and no copy of it in the instance. *)
Definition cleared (scope : OAuthClientProvider.Scope.t) (w : World) : Prop :=
  let h := serverUrlHash (this w) in
  let no_tokens := tokens_json (disk w) !! tokenPath w h = None in
  let no_client :=
    client_info_json (disk w) !! clientInfoPath w h = None /\ clientInfo (this w) = None in
  let no_verifier :=
    code_verifier_txt (disk w) !! codeVerifierPath w h = None /\ _codeVerifier (this w) = None in
  match scope with
  | OAuthClientProvider.Scope.all => no_tokens /\ no_client /\ no_verifier
  | OAuthClientProvider.Scope.client => no_client
  | OAuthClientProvider.Scope.tokens => no_tokens
  | OAuthClientProvider.Scope.verifier => no_verifier
  end.

(** ** The callback listener *)

(** A query parameter that is there with a non-empty value. *)
Definition given (k : string) (searchParams : list (string * string)) (v : string) : Prop :=
  params_get k searchParams = Some v /\ v <> "".

(** A query parameter that is missing or empty. *)
Definition not_given (k : string) (searchParams : list (string * string)) : Prop :=
  params_get k searchParams = None \/ params_get k searchParams = Some "".

(** [needle] occurs in [hay]. *)
Definition mentions (needle hay : string) : bool :=
  match String.index 0 needle hay with
  | Some _ => true
  | None => false
  end.

(** ** The authorization request and the token request *)

(** The browser was sent to an authorization URL whose [redirect_uri]
    parameter is [v]. *)
Definition authorizes_with (v : string) (t : list Effect) : Prop :=
  exists url, In (OpenBrowser url) t /\ params_get "redirect_uri" (url_params url) = Some v.

(** A form was posted to [endpoint] whose [redirect_uri] field is [v]. *)
Definition posts_with (endpoint v : string) (t : list Effect) : Prop :=
  exists form, In (HttpPostForm endpoint form) t /\ params_get "redirect_uri" form = Some v.

(** ** Counting the calls made to the outside *)

Definition is_discovery (e : Effect) : bool :=
  match e with HttpGet _ => true | _ => false end.
Definition is_registration (e : Effect) : bool :=
  match e with HttpPostJson _ _ => true | _ => false end.
Definition is_bind (e : Effect) : bool :=
  match e with Listen _ => true | _ => false end.
Definition is_exchange (e : Effect) : bool :=
  match e with HttpPostForm _ _ => true | _ => false end.
Definition is_close (e : Effect) : bool :=
  match e with CloseServer _ => true | _ => false end.
Definition opens_browser (e : Effect) : bool :=
  match e with OpenBrowser _ => true | _ => false end.
Definition is_read (e : Effect) : bool :=
  match e with FsRead _ => true | _ => false end.

Definition count (f : Effect -> bool) (t : list Effect) : nat := length (List.filter f t).

(** ** Discovery *)

(** The discovery URL of the instance can be built: the parser accepts the
    well-known path against the server URL. *)
Definition discoverable (w : World) : bool :=
  canParse w "/.well-known/oauth-authorization-server" (Some (serverUrl (options (this w)))).

Definition invalid_url : Error := TypeError "Invalid URL".

(** ** Client identity *)

(** The identity the instance already has: the copy in memory, else the
    record on disk. *)
Definition cached_identity (w : World) : option OAuthClientInformationFull :=
  match clientInfo (this w) with
  | Some c => Some c
  | None => record (client_info_json (disk w) !! clientInfoPath w (serverUrlHash (this w)))
  end.

(** The identity has to be registered: none is configured, none is cached,
    and the discovery document names a registration endpoint. *)
Definition registers (w : World) : bool :=
  match staticOAuthClientInfo (options (this w)), cached_identity w with
  | None, None => truthy_opt (discoveryDocument (this w) ≫= registration_endpoint)
  | _, _ => false
  end.

(** The discovery document names a registration endpoint. *)
Definition has_registration_endpoint (w : World) : Prop :=
  exists doc url,
    discoveryDocument (this w) = Some doc /\ registration_endpoint doc = Some url /\ url <> "".

Definition no_registration_endpoint_error : Error :=
  newError "No registration endpoint found in discovery document".

(** ** Refresh *)

(** The token response carries no refresh token: the field is missing, or
    empty. *)
Definition omits_refresh_token (data : OAuthTokens) : Prop :=
  refresh_token data = None \/ refresh_token data = Some "".

(** ** What a step of the flow does to the outside *)

(** The discoveries, registrations, binds, token requests and server
    closes among the effects [t]. *)
Definition calls (t : list Effect) : nat * nat * nat * nat * nat :=
  (count is_discovery t, count is_registration t, count is_bind t,
   count is_exchange t, count is_close t).

(** [w'] comes after [w]: the trace grew by [d], and the promise registered
    on the instance, the number of promises, the configuration of the
    instance, the URL parser and the faults of the disk are as they were. *)
Definition grows (d : list Effect) (w w' : World) : Prop :=
  trace w' = trace w ++ d
  /\ authenticationPromise (this w') = authenticationPromise (this w)
  /\ promises w' = promises w
  /\ serverUrlHash (this w') = serverUrlHash (this w)
  /\ tokenStorage (this w') = tokenStorage (this w)
  /\ options (this w') = options (this w)
  /\ canParse w' = canParse w
  /\ faults (disk w') = faults (disk w).

(** No server was started or stopped between [w] and [w']. *)
Definition same_listener (w w' : World) : Prop :=
  port w' = port w /\ servers w' = servers w /\ authServer (this w') = authServer (this w).

(** The listener after a step: as before, or started by the step and
    listening. *)
Definition listener_kept_or_started (w w' : World) : Prop :=
  same_listener w w'
  \/ (port w = None /\ port w' = Some (servers w)
      /\ authServer (this w') = Some (servers w)).


(** ** A provider, an authorization server and a user, for the examples *)

Module Example.
Import OAuthClientProvider.

Definition options : OAuthClientProviderOptions :=
  mkOptions "https://mcp.example" 3334 "localhost" None (Some "/cfg")
    None None None None None None None None.

(** The verdicts of the URL parser on the URLs that the examples build:
    the discovery URL of the server, and the authorization endpoint. It
    is asked about no other URL that parses. *)
Definition canParse (input : string) (base : option string) : bool :=
  match base with
  | Some b =>
      String.eqb input "/.well-known/oauth-authorization-server"
      && String.eqb b "https://mcp.example"
  | None => String.eqb input "https://as.example/authorize"
  end.

(** A store without records, on a disk that takes every change. *)
Definition store : Disk := mkDisk ∅ ∅ ∅ ∅ ∅.

(** A new instance, an empty store, a free port. *)
Definition world : World :=
  mkWorld (constructor "/home/user" options) store None 0 0 [] canParse.

Definition metadata : AuthorizationServerMetadata :=
  mkMetadata "https://as.example/authorize" "https://as.example/token"
    (Some "https://as.example/register").

Definition identity : OAuthClientInformationFull :=
  mkClientInfo "client-1" None
    (mkClientMetadata (Some "MCP OAuth Client") None
       (Some ["http://localhost:3334/oauth/callback"]) None None None None).

Definition issued : OAuthTokens :=
  mkTokens (Some "access-1") (Some "Bearer") (Some 3600%N) (Some "refresh-1") None.

(** Every endpoint answers; [requests] reach the listener while the flow
    waits. *)
Definition outside (requests : list Request) : Outside :=
  mkOutside (Ok metadata) (Ok identity) (Ok tt) (fun n => repeat x2a n) (Ok tt)
    requests (Ok issued) (Ok tt).

Definition consent : list Request :=
  [ReqUrl "/favicon.ico" []; ReqUrl "/oauth/callback" [("code", "abc123")]].

Definition denial : list Request :=
  [ReqUrl "/oauth/callback" [("error", "access_denied")]].

Definition refused : Error := mkError "AxiosError" "connect ECONNREFUSED".

(** The instance after discovery and registration. *)
Definition ready : World :=
  set_this (set_clientInfo (Some identity))
    (set_this (set_discoveryDocument (Some metadata)) world).

(** An identity whose list of redirect URIs is empty, and one that has no
    such list: what [staticOAuthClientInfo], or a record of the store, may
    hold; and the instance after discovery with such an identity. *)
Definition no_redirect_uri : OAuthClientInformationFull :=
  mkClientInfo "client-1" None
    (mkClientMetadata (Some "MCP OAuth Client") None (Some []) None None None None).

Definition no_redirect_uris : OAuthClientInformationFull :=
  mkClientInfo "client-1" None
    (mkClientMetadata (Some "MCP OAuth Client") None None None None None None).

Definition ready_with (ci : OAuthClientInformationFull) : World :=
  set_this (set_clientInfo (Some ci))
    (set_this (set_discoveryDocument (Some metadata)) world).

(** The instance after a flow that succeeded. *)
Definition authenticated : World := snd (ensureAuthenticated (outside consent) world).

(** A token response without refresh token, and an outside that gives it. *)
Definition not_rotated : OAuthTokens :=
  mkTokens (Some "access-2") (Some "Bearer") (Some 3600%N) None None.

Definition refreshing : Outside :=
  mkOutside (Ok metadata) (Ok identity) (Ok tt) (fun n => repeat x2a n) (Ok tt)
    [] (Ok not_rotated) (Ok tt).

End Example.

(** ** The token read path *)

(** The token set the store holds for this server, and the world after
    the store was read for it. *)
Definition storedTokens (w : World) : option OAuthTokens :=
  record (tokens_json (disk w) !! tokenPath w (serverUrlHash (this w))).

Definition readTokens (w : World) : World :=
  emit_effect (FsRead (tokenPath w (serverUrlHash (this w)))) w.


Module Unparsable.

(** A new instance whose server URL has no scheme: [new URL] refuses it as
    a base. *)
Definition options : OAuthClientProviderOptions :=
  mkOptions "mcp.example" 3334 "localhost" None (Some "/cfg")
    None None None None None None None None.

Definition world : World :=
  mkWorld (OAuthClientProvider.constructor "/home/user" options) Example.store None 0 0 []
    Example.canParse.

End Unparsable.

Module Pinned.

(** The store of [Example.world] holding a token set, its file protected
    against removal. *)
Definition world : World :=
  set_disk (fun d =>
              mkDisk (tokens_json d) (client_info_json d) (code_verifier_txt d) (faults d)
                {[ tokenPath Example.world (serverUrlHash (this Example.world)) ]})
    (snd (OAuthClientProvider.saveTokens Example.issued Example.world)).

End Pinned.

(** ** Single flight *)

Module SingleFlight.
Import EventLoop.

(** How far an attempt has come. *)
Definition progress (a : Attempt) : nat :=
  match a with
  | Pending Discovering => 0
  | Pending Registering => 1
  | Pending Binding => 2
  | Pending Authorizing => 3
  | Pending (AwaitingRedirect _) => 4
  | Pending (ExchangingCode _ _) => 5
  | Settled _ => 6
  end.

(** One call of the kind made on leaving the stage before [k] is credited
    to an attempt that has come as far as [k]. *)
Definition credit (k : nat) (a : Attempt) : nat :=
  if decide (k <= progress a) then 1 else 0.

Definition credits (k : nat) (s : Sys) : nat := sum_list_with (credit k) (attempts s).

(** The same call is owed by an attempt that has come as far as [k] and
    has not failed: it is past that stage, or has succeeded. *)
Definition owed (k : nat) (a : Attempt) : nat :=
  match a with
  | Settled (Throw _) => 0
  | _ => credit k a
  end.

Definition owes (k : nat) (s : Sys) : nat := sum_list_with (owed k) (attempts s).

Definition succeeded (a : Attempt) : Prop := a = Settled (Ok tt).

(** The calls of [ensureAuthenticated] that started an attempt, and those
    among them that have returned (and so cleared the promise). *)
Definition returned_own (t : Task) : bool :=
  match t with
  | Returned (Own _) _ => true
  | _ => false
  end.

Definition starters (s : Sys) : nat := length (List.filter started (tasks s)).
Definition cleared_by (s : Sys) : nat := length (List.filter returned_own (tasks s)).

End SingleFlight.

(** What holds of every state the event loop reaches from an instance [w0]
    on which no promise is registered. *)
Record SingleFlightInv (w0 : World) (s : EventLoop.Sys) : Prop := {
  inv_pending : forall p stage,
    EventLoop.attempts s !! p = Some (EventLoop.Pending stage) ->
    authenticationPromise (this (EventLoop.world s)) = Some p;
  inv_owner : forall i p,
    EventLoop.tasks s !! i = Some (EventLoop.AwaitingOwn p) ->
    authenticationPromise (this (EventLoop.world s)) = Some p;
  inv_owner_unique : forall i j p q,
    EventLoop.tasks s !! i = Some (EventLoop.AwaitingOwn p) ->
    EventLoop.tasks s !! j = Some (EventLoop.AwaitingOwn q) -> i = j;
  inv_returned : forall i p r,
    EventLoop.tasks s !! i = Some (EventLoop.Returned (EventLoop.Own p) r)
    \/ EventLoop.tasks s !! i = Some (EventLoop.Returned (EventLoop.Shared p) r) ->
    EventLoop.attempts s !! p = Some (EventLoop.Settled r);
  inv_starters : SingleFlight.starters s = length (EventLoop.attempts s);
  inv_discovery :
    (count is_discovery (trace (EventLoop.world s))
     <= count is_discovery (trace w0) + SingleFlight.credits 1 s)%nat;
  inv_registration :
    (count is_registration (trace (EventLoop.world s))
     <= count is_registration (trace w0) + SingleFlight.credits 2 s)%nat;
  inv_bind :
    (count is_bind (trace (EventLoop.world s))
     <= count is_bind (trace w0) + SingleFlight.credits 3 s)%nat;
  inv_exchange :
    (count is_exchange (trace (EventLoop.world s))
     <= count is_exchange (trace w0) + SingleFlight.credits 6 s)%nat;
  inv_close :
    count is_close (trace (EventLoop.world s)) = count is_close (trace w0);
  inv_discovery_owed :
    (count is_discovery (trace w0) + SingleFlight.owes 1 s
     <= count is_discovery (trace (EventLoop.world s)))%nat;
  inv_bind_owed :
    (count is_bind (trace w0) + SingleFlight.owes 3 s
     <= count is_bind (trace (EventLoop.world s)))%nat;
  inv_exchange_owed :
    (count is_exchange (trace w0) + SingleFlight.owes 6 s
     <= count is_exchange (trace (EventLoop.world s)))%nat;
  inv_registered : forall p,
    authenticationPromise (this (EventLoop.world s)) = Some p ->
    (p < length (EventLoop.attempts s))%nat;
  inv_shared : forall i p,
    EventLoop.tasks s !! i = Some (EventLoop.AwaitingShared p) ->
    (p < length (EventLoop.attempts s))%nat
}.

Definition awaiting_own (t : EventLoop.Task) : bool :=
  match t with
  | EventLoop.AwaitingOwn _ => true
  | _ => false
  end.

(** ** Schedules of the event loop, for the examples *)

Module Schedule.
Import EventLoop.

(** Two calls; the first starts an attempt, whose discovery fails; the
    second was made while that attempt was in flight, but its read of the
    store and its continuation come after the first call has returned. *)
Definition second_flow : list Label :=
  [Call; Read 0; Resume 0; Call;
   Advance 0 (Discovered (Throw Example.refused)); Finish 0;
   Read 1; Resume 1;
   Advance 1 (Discovered (Ok Example.metadata));
   Advance 1 (Registered (Ok Example.identity));
   Advance 1 (Bound (Ok tt));
   Advance 1 (Launched (fun n => repeat x2a n) (Ok tt));
   Advance 1 (Redirected Example.consent);
   Advance 1 (Exchanged (Ok Example.issued));
   Finish 1]%nat.


(** Two calls, both resumed before anything else happens. *)
Definition two_callers : list Label :=
  [Call; Call; Read 0; Read 1; Resume 0; Resume 1]%nat.

(** The same two calls, and the flow of the first to its end with the user
    consenting; then both return. *)
Definition shared_flow : list Label :=
  two_callers
  ++ [Advance 0 (Discovered (Ok Example.metadata));
      Advance 0 (Registered (Ok Example.identity));
      Advance 0 (Bound (Ok tt));
      Advance 0 (Launched (fun n => repeat x2a n) (Ok tt));
      Advance 0 (Redirected Example.consent);
      Advance 0 (Exchanged (Ok Example.issued));
      Finish 1; Finish 0]%nat.

Definition after (ls : list Label) : Sys :=
  match exec ls (idle Example.world) with
  | Some s => s
  | None => idle Example.world
  end.

End Schedule.

(** ** One caller on the event loop *)

Module Solo.
Import OAuthClientProvider EventLoop.

(** What is left of [_performAuthentication] at a stage, with the answers
    of [out]. *)
Definition rest (out : Outside) (stage : Stage) : M unit :=
  let from_exchange code codeVerifier :=
    exchangeCodeForTokens code codeVerifier (token out) ;;
    modify (set_this (set_authInitialized true)) in
  let from_redirect pkce :=
    authCode <- waitForAuthCode (redirect out) ;;
    from_exchange authCode (verifier pkce) in
  let from_authorize :=
    pkce <- requestAuthorization (randomBytes out) (browser out) ;;
    from_redirect pkce in
  let from_bind := initializeAuth (listen out) ;; from_authorize in
  let from_register := registerClient (registration out) ;; from_bind in
  match stage with
  | Discovering => discoverOAuthEndpoints (discovery out) ;; from_register
  | Registering => from_register
  | Binding => from_bind
  | Authorizing => from_authorize
  | AwaitingRedirect pkce => from_redirect pkce
  | ExchangingCode code codeVerifier => from_exchange code codeVerifier
  end.

(** The answer of [out] that a stage waits for. *)
Definition answer (out : Outside) (stage : Stage) : Answer :=
  match stage with
  | Discovering => Discovered (discovery out)
  | Registering => Registered (registration out)
  | Binding => Bound (listen out)
  | Authorizing => Launched (randomBytes out) (browser out)
  | AwaitingRedirect _ => Redirected (redirect out)
  | ExchangingCode _ _ => Exchanged (token out)
  end.

End Solo.

(** ** Vocabulary of the further properties *)

(** A lowercase hexadecimal digit. *)
Definition is_hex_digit (c : ascii) : bool :=
  existsb (Ascii.eqb c) (list_ascii_of_string "0123456789abcdef").

(** What the three reads of the store return for the partition [h]. *)
Definition reads (h : string) (w : World)
    : Result (option OAuthTokens) * Result (option OAuthClientInformationFull)
      * Result (option string) :=
  (fst (FileTokenStorage.getTokens h w), fst (FileTokenStorage.getClientInfo h w),
   fst (FileTokenStorage.getCodeVerifier h w)).

(** How a save returns on a path with the fault [fault]: normally when
    there is none, with an exception otherwise. *)
Definition save_returns (fault : option Fault) (r : Result unit) : Prop :=
  match fault with
  | None => r = Ok tt
  | Some _ => exists e, r = Throw e
  end.

(** What the read of a record returns after a save of [a] on a path with
    the fault [fault]: [a]; what it returned [before], when the write was
    refused; what is left of the text ([cut n]) when it was cut short after
    [n] characters. *)
Definition read_after_save {A} (fault : option Fault) (before : Result (option A))
    (a : A) (cut : nat -> option A) : Result (option A) :=
  match fault with
  | None => Ok (Some a)
  | Some Refused => before
  | Some (Torn n) => Ok (cut n)
  end.

(** The writes and deletes of the store on the partition [h]. *)
Definition storage_updates (h : string) (t : OAuthTokens) (c : OAuthClientInformationFull)
    (v : string) : list (M unit) :=
  [ FileTokenStorage.saveTokens h t; FileTokenStorage.deleteTokens h;
    FileTokenStorage.saveClientInfo h c; FileTokenStorage.deleteClientInfo h;
    FileTokenStorage.saveCodeVerifier h v; FileTokenStorage.deleteCodeVerifier h ].

(** A new process: a new instance, made by the constructor, over the disk
    [d] and with the URL parser [parser]; nothing is in memory, no server
    runs. *)
Definition fresh (homedir : string) (o : OAuthClientProviderOptions) (d : Disk)
    (parser : string -> option string -> bool) : World :=
  mkWorld (OAuthClientProvider.constructor homedir o) d None 0 0 [] parser.

(** The instance [w] was made by the constructor from [o]: the two fields
    that are set there and never assigned again are the constructor's. *)
Definition constructed_from (homedir : string) (o : OAuthClientProviderOptions) (w : World)
    : Prop :=
  serverUrlHash (this w) = getServerUrlHash (serverUrl o)
  /\ tokenStorage (this w) = FileTokenStorage.new homedir (configDir o).

(** The code verifier the store holds for this server. *)
Definition storedCodeVerifier (w : World) : option string :=
  record (code_verifier_txt (disk w) !! codeVerifierPath w (serverUrlHash (this w))).

(** What an invalidation of [scope] must leave alone: the records, on disk
    and in memory, that the scope does not name. *)
Definition kept (scope : OAuthClientProvider.Scope.t) (w w' : World) : Prop :=
  let same_tokens := tokens_json (disk w') = tokens_json (disk w) in
  let same_client :=
    client_info_json (disk w') = client_info_json (disk w)
    /\ clientInfo (this w') = clientInfo (this w) in
  let same_verifier :=
    code_verifier_txt (disk w') = code_verifier_txt (disk w)
    /\ _codeVerifier (this w') = _codeVerifier (this w) in
  match scope with
  | OAuthClientProvider.Scope.all => True
  | OAuthClientProvider.Scope.client => same_tokens /\ same_verifier
  | OAuthClientProvider.Scope.tokens => same_client /\ same_verifier
  | OAuthClientProvider.Scope.verifier => same_tokens /\ same_client
  end.

(** The effects that reach outside the file system: a request, a bind, a
    server closed, a browser opened, a response or an event. *)
Definition beyond_files (e : Effect) : bool :=
  match e with
  | FsRead _ | FsWrite _ | FsUnlink _ => false
  | _ => true
  end.

Module Sample.

(** The new instance of [Example.world] over a store in which the write of
    each of its three files fails in the way [fault]. *)
Definition failing (fault : Fault) : World :=
  let h := serverUrlHash (this Example.world) in
  set_disk (fun d =>
              mkDisk (tokens_json d) (client_info_json d) (code_verifier_txt d)
                (<[tokenPath Example.world h := fault]>
                   (<[clientInfoPath Example.world h := fault]>
                      (<[codeVerifierPath Example.world h := fault]> ∅)))
                (pinned d))
    Example.world.

(** The same over a store that cannot be written. *)
Definition read_only : World := failing Refused.

(** The same after the discovery. *)
Definition discovered : World :=
  set_this (set_discoveryDocument (Some Example.metadata)) read_only.

(** An outside whose token endpoint refuses the connection, and one whose
    discovery endpoint does. *)
Definition token_endpoint_down : OAuthClientProvider.Outside :=
  OAuthClientProvider.mkOutside (Ok Example.metadata) (Ok Example.identity) (Ok tt)
    (fun n => repeat x2a n) (Ok tt) [] (Throw Example.refused) (Ok tt).

Definition server_down : OAuthClientProvider.Outside :=
  OAuthClientProvider.mkOutside (Throw Example.refused) (Ok Example.identity) (Ok tt)
    (fun n => repeat x2a n) (Ok tt) Example.consent (Ok Example.issued) (Ok tt).

End Sample.

(** ** What a step of the flow leaves alone *)

(** The browser launches so far. *)
Definition browsers (w : World) : nat := count opens_browser (trace w).

(** The token requests so far. *)
Definition exchanges (w : World) : nat := count is_exchange (trace w).

(** The token record and [authInitialized] are as they were. *)
Definition keeps_tokens (w w' : World) : Prop :=
  tokens_json (disk w') = tokens_json (disk w)
  /\ authInitialized (this w') = authInitialized (this w).

(** The token record after a step that failed: as it was, or, when the
    write of a token set was cut short, unreadable; [authInitialized] is as
    it was. *)
Definition kept_or_torn (w w' : World) : Prop :=
  authInitialized (this w') = authInitialized (this w)
  /\ (tokens_json (disk w') = tokens_json (disk w)
      \/ exists n,
           faults (disk w) !! tokenPath w (serverUrlHash (this w)) = Some (Torn n)
           /\ tokens_json (disk w')
              = <[tokenPath w (serverUrlHash (this w)) := Corrupt]> (tokens_json (disk w))).

(** A step that opens no browser, posts no token request and keeps the
    token record. *)
Definition quiet (w w' : World) : Prop :=
  keeps_tokens w w' /\ browsers w' = browsers w /\ exchanges w' = exchanges w.

(** The discovery document and the client identity of the instance are as
    they were. *)
Definition same_endpoints (w w' : World) : Prop :=
  discoveryDocument (this w') = discoveryDocument (this w)
  /\ clientInfo (this w') = clientInfo (this w).

(** The paths of the store are as they were. *)
Definition same_partition (w w' : World) : Prop :=
  serverUrlHash (this w') = serverUrlHash (this w)
  /\ tokenStorage (this w') = tokenStorage (this w).

(** The store holds no token set with a (non-empty) access token: what
    makes [ensureAuthenticated] go on to authenticate. *)
Definition unauthenticated (w : World) : Prop :=
  truthy_opt (storedTokens w ≫= access_token) = false.

(** The discovery request of the instance: [new URL(path, serverUrl)]. *)
Definition discoveryUrl (w : World) : Url :=
  mkUrl (serverUrl (options (this w))) (Some "/.well-known/oauth-authorization-server") [].

Module Retry.

(** The instance after an attempt on which the timer fired: the listener
    it started is still listening. *)
Definition timed_out : World :=
  snd (OAuthClientProvider.ensureAuthenticated (Example.outside []) Example.world).

End Retry.

(** ** The redirect *)

(** The path the listener of the instance dispatches on. *)
Definition listenerPath (w : World) : string :=
  js_string (callbackPath (options (this w))).

(** The listener answers the request and emits no event. *)
Definition passed_over (path : string) (req : Request) : Prop :=
  exists reply,
    OAuthServer.requestListener path req = Ok reply /\ OAuthServer.emitted reply = None.

(** ** The two requests of the flow *)

(** The value of a field of a form or of a query. *)
Definition field (k : string) (ps : list (string * string)) : string :=
  js_string (params_get k ps).

(** ** Refresh *)

(** The form of a refresh request. *)
Definition refreshForm (refreshToken : string) (ci : OAuthClientInformationFull)
    : list (string * string) :=
  [("grant_type", "refresh_token"); ("refresh_token", refreshToken);
   ("client_id", client_id ci)] ++ OAuthClientProvider.secret_field ci.

(** The discovery document and the client identity are both in memory. *)
Definition endpoints_cached (w : World) : bool :=
  match discoveryDocument (this w), clientInfo (this w) with
  | Some _, Some _ => true
  | _, _ => false
  end.

(** Lines 402-405 of [refreshTokens]: nothing when the endpoints are
    cached, the discovery and the resolution of the identity otherwise. *)
Definition refresh_resolution (out : OAuthClientProvider.Outside) : M unit :=
  fun w =>
    match discoveryDocument (this w), clientInfo (this w) with
    | Some _, Some _ => ret tt w
    | _, _ =>
        bind (OAuthClientProvider.discoverOAuthEndpoints (OAuthClientProvider.discovery out))
          (fun _ => OAuthClientProvider.registerClient (OAuthClientProvider.registration out))
          w
    end.

(** ** Construction *)

(** The address the redirect is sent to: host, port and path of the
    callback, the path defaulting to [/oauth/callback]. *)
Definition callbackAddress (o : OAuthClientProviderOptions) : string :=
  "http://" ++ host o ++ ":" ++ OAuthClientProvider.string_of_N (callbackPort o)
    ++ js_or (callbackPath o) "/oauth/callback".

Module Partial.

(** A token response without access token, and the store of
    [Example.world] holding it. *)
Definition token_set : OAuthTokens :=
  mkTokens None (Some "Bearer") None (Some "refresh-1") None.

Definition world : World :=
  snd (OAuthClientProvider.saveTokens token_set Example.world).

End Partial.

(** ** The configuration of an instance *)

(** The options, the partition and the directory of the store are as they
    were. *)
Definition same_configuration (w w' : World) : Prop :=
  options (this w') = options (this w) /\ same_partition w w'.

(** The public methods of the provider, as changes of the world. *)
Definition public_calls (out : OAuthClientProvider.Outside) (refreshToken : string)
    (t : OAuthTokens) (c : OAuthClientInformationFull) (v : string)
    (scope : OAuthClientProvider.Scope.t) (url : Url) : list (World -> World) :=
  [ fun w => snd (OAuthClientProvider.clientInformation w);
    fun w => snd (OAuthClientProvider.saveClientInformation c w);
    fun w => snd (OAuthClientProvider.tokens out w);
    fun w => snd (OAuthClientProvider.saveTokens t w);
    fun w => snd (OAuthClientProvider.redirectToAuthorization url
                    (OAuthClientProvider.browser out) w);
    fun w => snd (OAuthClientProvider.saveCodeVerifier v w);
    fun w => snd (OAuthClientProvider.codeVerifier w);
    fun w => snd (OAuthClientProvider.invalidateCredentials scope w);
    fun w => snd (OAuthClientProvider.ensureAuthenticated out w);
    fun w => snd (OAuthClientProvider.refreshTokens refreshToken out w);
    fun w => snd (OAuthClientProvider.cleanup w) ].

(** ** When the flow succeeds *)

(** Where [registerClient] gets the identity [ci] from, [doc] being the
    discovery document: the static identity of the options, else the
    cached one, else the answer of the registration endpoint that [doc]
    names. *)
Definition identity_source (out : OAuthClientProvider.Outside) (w : World)
    (doc : AuthorizationServerMetadata) (ci : OAuthClientInformationFull) : Prop :=
  match staticOAuthClientInfo (options (this w)) with
  | Some static => static = ci
  | None =>
      match cached_identity w with
      | Some cached => cached = ci
      | None =>
          truthy_opt (registration_endpoint doc) = true
          /\ OAuthClientProvider.registration out = Ok ci
      end
  end.
(** * Properties *)

Section Base64urlFacts.
Import Base64url.

Lemma sextet_url_safe (i : nat) : url_safe (sextet i) = true.
Proof.
  do 64 (destruct i as [|i]; [reflexivity|]).
  reflexivity.
Qed.

(** Induction over a list three elements at a time, as [encode_nat] recurses. *)
Lemma list_ind3 {A} (P : list A -> Prop) :
  P [] -> (forall a, P [a]) -> (forall a b, P [a; b]) ->
  (forall a b c l, P l -> P (a :: b :: c :: l)) ->
  forall l, P l.
Proof.
  intros H0 H1 H2 H3.
  fix IH 1.
  intros [|a [|b [|c l]]].
  - exact H0.
  - apply H1.
  - apply H2.
  - apply H3, IH.
Qed.

Lemma encode_nat_length (bs : list nat) :
  length (encode_nat bs) = ((4 * length bs + 2) / 3)%nat.
Proof.
  induction bs as [|a|a b|a b c l IH] using list_ind3; try reflexivity.
  cbn [encode_nat length]. rewrite IH.
  replace (4 * S (S (S (length l))) + 2)%nat with ((4 * length l + 2) + 4 * 3)%nat by lia.
  rewrite Nat.div_add by lia. lia.
Qed.

Lemma encode_nat_url_safe (bs : list nat) :
  Forall (fun c => url_safe c = true) (encode_nat bs).
Proof.
  induction bs as [|a|a b|a b c l IH] using list_ind3; cbn [encode_nat];
    repeat (apply Forall_cons; split; [apply sextet_url_safe|]);
    solve [apply Forall_nil; exact I | exact IH | constructor].
Qed.

Lemma string_of_list_ascii_length (l : list ascii) :
  String.length (string_of_list_ascii l) = length l.
Proof. induction l; simpl; congruence. Qed.

Lemma encode_length (bs : list byte) :
  String.length (encode bs) = ((4 * length bs + 2) / 3)%nat.
Proof.
  unfold encode.
  rewrite string_of_list_ascii_length, encode_nat_length, length_map.
  reflexivity.
Qed.

Lemma encode_url_safe (bs : list byte) : all_url_safe (encode bs).
Proof.
  unfold all_url_safe, encode.
  rewrite list_ascii_of_string_of_list_ascii.
  apply encode_nat_url_safe.
Qed.

Lemma padding_not_url_safe : url_safe "="%char = false.
Proof. reflexivity. Qed.

#[local] Ltac Zify.zify_post_hook ::= Z.to_euclidean_division_equations.

Lemma unsextet_sextet (i : nat) : (i < 64)%nat -> unsextet (sextet i) = i.
Proof.
  intros H. do 64 (destruct i as [|i]; [reflexivity|]). lia.
Qed.

Lemma decode_encode_nat (bs : list nat) :
  Forall (fun b => b < 256)%nat bs -> decode_nat (encode_nat bs) = bs.
Proof.
  induction bs as [|a|a b|a b c l IH] using list_ind3; intros H.
  - reflexivity.
  - apply Forall_cons in H as [Ha _]. cbn [encode_nat decode_nat].
    rewrite !unsextet_sextet by lia. f_equal. lia.
  - apply Forall_cons in H as [Ha H]. apply Forall_cons in H as [Hb _].
    cbn [encode_nat decode_nat].
    rewrite !unsextet_sextet by lia. repeat (f_equal; try lia).
  - apply Forall_cons in H as [Ha H]. apply Forall_cons in H as [Hb H].
    apply Forall_cons in H as [Hc H].
    cbn [encode_nat decode_nat]. rewrite IH by exact H.
    rewrite !unsextet_sextet by lia. repeat (f_equal; try lia).
Qed.

Lemma decode_encode (bs : list byte) : decode (encode bs) = bs.
Proof.
  unfold decode, encode. rewrite list_ascii_of_string_of_list_ascii.
  rewrite decode_encode_nat.
  - rewrite map_map. rewrite <- (map_id bs) at 2. apply map_ext.
    intros b. unfold byte_of_nat. now rewrite Byte.of_to_nat.
  - induction bs as [|b bs IHbs]; constructor; [|exact IHbs].
    pose proof (Byte.to_nat_bounded b). lia.
Qed.
End Base64urlFacts.

Lemma digest_length (msg : list byte) : length (SHA256.digest msg) = 32%nat.
Proof.
  unfold SHA256.digest.
  generalize (SHA256.digest_words (map Byte.to_N msg)); intros s.
  rewrite length_map. reflexivity.
Qed.

(** Test vectors: FIPS 180-4 (one and two blocks), RFC 4648, and the
    verifier and challenge of RFC 7636, appendix B. *)
Example sha256_abc :
  hex (SHA256.digest (list_byte_of_string "abc"))
  = "ba7816bf8f01cfea414140de5dae2223b00361a396177a9cb410ff61f20015ad".
Proof. vm_compute. reflexivity. Qed.

Example sha256_two_blocks :
  hex (SHA256.digest (list_byte_of_string
         "abcdbcdecdefdefgefghfghighijhijkijkljklmklmnlmnomnopnopq"))
  = "248d6a61d20638b8e5c026930c3e6039a33ce45964ff2167f6ecedd419db06c1".
Proof. vm_compute. reflexivity. Qed.

Example base64url_foobar :
  map (fun s => Base64url.encode (list_byte_of_string s)) ["f"; "fo"; "foo"; "foobar"]
  = ["Zg"; "Zm8"; "Zm9v"; "Zm9vYmFy"].
Proof. vm_compute. reflexivity. Qed.

Example rfc7636_appendix_B :
  S256_valid "dBjftJeZ4CVP-mB92K27uhbUJU1p1r_wW1gFWFOEjXk"
             "E9Melhoa2OwvFrEMTJguCHaoeK1t8URWbuGJSstw-cM" = true.
Proof. vm_compute. reflexivity. Qed.

(** C5. PKCE generation: for the pair that [generatePKCEChallenge] makes
    from [crypto.randomBytes(32)] (32 bytes), the verifier is the base64url
    encoding of those 32 bytes, which it gives back when decoded: 43
    characters, all of the URL-safe alphabet, so without the padding
    character; the challenge is the
    base64url of the SHA-256 of the verifier, again 43 URL-safe characters
    without padding; and the pair passes the S256 check. *)
Theorem C5_pkce_generation (randomBytes : nat -> list byte) :
  length (randomBytes 32%nat) = 32%nat ->
  let pkce := OAuthClientProvider.generatePKCEChallenge randomBytes in
  let verifier := OAuthClientProvider.verifier pkce in
  let challenge := OAuthClientProvider.challenge pkce in
  verifier = Base64url.encode (randomBytes 32%nat)
  /\ Base64url.decode verifier = randomBytes 32%nat
  /\ String.length verifier = 43%nat
  /\ all_url_safe verifier
  /\ challenge = Base64url.encode (SHA256.digest (list_byte_of_string verifier))
  /\ String.length challenge = 43%nat
  /\ all_url_safe challenge
  /\ Base64url.url_safe "="%char = false
  /\ S256_valid verifier challenge = true.
Proof.
  intros Hlen pkce verifier challenge.
  subst verifier challenge pkce. unfold OAuthClientProvider.generatePKCEChallenge.
  cbn [OAuthClientProvider.verifier OAuthClientProvider.challenge].
  split; [reflexivity|].
  split; [apply decode_encode|].
  split; [rewrite encode_length, Hlen; reflexivity|].
  split; [apply encode_url_safe|].
  split; [reflexivity|].
  split; [rewrite encode_length, digest_length; reflexivity|].
  split; [apply encode_url_safe|].
  split; [reflexivity|].
  unfold S256_valid. apply String.eqb_refl.
Qed.

Lemma C5_pkce_generation_witness :
  let pkce := OAuthClientProvider.generatePKCEChallenge (fun n => repeat x2a n) in
  String.length (OAuthClientProvider.verifier pkce) = 43%nat
  /\ S256_valid (OAuthClientProvider.verifier pkce) (OAuthClientProvider.challenge pkce) = true.
Proof.
  pose proof (C5_pkce_generation (fun n => repeat x2a n) eq_refl) as H.
  cbv zeta in H. split; [apply H | apply H].
Defined.

(** ** The credential store *)

Ltac unfold_async :=
  unfold new_URL, bind, ret, throw, try_catch, try_finally, gets, modify, await, effect in *.

Ltac unfold_storage :=
  unfold FileTokenStorage.getTokens, FileTokenStorage.getClientInfo,
    FileTokenStorage.getCodeVerifier, FileTokenStorage.saveTokens,
    FileTokenStorage.saveClientInfo, FileTokenStorage.saveCodeVerifier,
    FileTokenStorage.deleteTokens, FileTokenStorage.deleteClientInfo,
    FileTokenStorage.deleteCodeVerifier, FileTokenStorage.getTokenPath,
    FileTokenStorage.getClientInfoPath, FileTokenStorage.getCodeVerifierPath,
    FileTokenStorage.readFile, FileTokenStorage.writeFile, FileTokenStorage.unlink in *.

Lemma getTokens_run h w :
  FileTokenStorage.getTokens h w
  = (Ok (record (tokens_json (disk w) !! tokenPath w h)),
     emit_effect (FsRead (tokenPath w h)) w).
Proof.
  unfold_storage; unfold_async; unfold tokenPath; simpl.
  destruct (tokens_json (disk w) !! _) as [[|t]|]; reflexivity.
Qed.

Lemma getClientInfo_run h w :
  FileTokenStorage.getClientInfo h w
  = (Ok (record (client_info_json (disk w) !! clientInfoPath w h)),
     emit_effect (FsRead (clientInfoPath w h)) w).
Proof.
  unfold_storage; unfold_async; unfold clientInfoPath; simpl.
  destruct (client_info_json (disk w) !! _) as [[|t]|]; reflexivity.
Qed.

Lemma getCodeVerifier_run h w :
  FileTokenStorage.getCodeVerifier h w
  = (Ok (record (code_verifier_txt (disk w) !! codeVerifierPath w h)),
     emit_effect (FsRead (codeVerifierPath w h)) w).
Proof.
  unfold_storage; unfold_async; unfold codeVerifierPath; simpl.
  destruct (code_verifier_txt (disk w) !! _) as [[|t]|]; reflexivity.
Qed.

#[global] Arguments unlinked : simpl never.
#[global] Arguments writable : simpl never.
#[global] Arguments removable : simpl never.

Lemma deleteTokens_run h w :
  FileTokenStorage.deleteTokens h w
  = (Ok tt,
     set_disk (set_tokens_json (unlinked (pinned (disk w)) (tokenPath w h)))
       (emit_effect (FsUnlink (tokenPath w h)) w)).
Proof.
  unfold_storage; unfold_async; unfold tokenPath, unlinked; simpl.
  destruct w as [? [] ? ? ? ? ?]; unfold set_disk, set_tokens_json; simpl.
  destruct (tokens_json0 !! _) eqn:E; case_decide; try reflexivity.
  rewrite delete_id by exact E. reflexivity.
Qed.

Lemma deleteClientInfo_run h w :
  FileTokenStorage.deleteClientInfo h w
  = (Ok tt,
     set_disk (set_client_info_json (unlinked (pinned (disk w)) (clientInfoPath w h)))
       (emit_effect (FsUnlink (clientInfoPath w h)) w)).
Proof.
  unfold_storage; unfold_async; unfold clientInfoPath, unlinked; simpl.
  destruct w as [? [] ? ? ? ? ?]; unfold set_disk, set_client_info_json; simpl.
  destruct (client_info_json0 !! _) eqn:E; case_decide; try reflexivity.
  rewrite delete_id by exact E. reflexivity.
Qed.

Lemma deleteCodeVerifier_run h w :
  FileTokenStorage.deleteCodeVerifier h w
  = (Ok tt,
     set_disk (set_code_verifier_txt (unlinked (pinned (disk w)) (codeVerifierPath w h)))
       (emit_effect (FsUnlink (codeVerifierPath w h)) w)).
Proof.
  unfold_storage; unfold_async; unfold codeVerifierPath, unlinked; simpl.
  destruct w as [? [] ? ? ? ? ?]; unfold set_disk, set_code_verifier_txt; simpl.
  destruct (code_verifier_txt0 !! _) eqn:E; case_decide; try reflexivity.
  rewrite delete_id by exact E. reflexivity.
Qed.

Create Rewrite HintDb run.
#[global] Hint Rewrite getTokens_run getClientInfo_run getCodeVerifier_run
  deleteTokens_run deleteClientInfo_run deleteCodeVerifier_run : run.

Ltac run := repeat (unfold_async; cbn; autorewrite with run).

Lemma writable_faults d p : writable d = true -> faults d !! p = None.
Proof.
  unfold writable. intros H. apply bool_decide_eq_true in H. rewrite H. apply lookup_empty.
Qed.

Lemma removable_pinned d p : removable d = true -> p ∉ pinned d.
Proof.
  unfold removable. intros H. apply bool_decide_eq_true in H. rewrite H.
  apply not_elem_of_empty.
Qed.

Lemma unlinked_lookup {A} pin p (m : gmap string A) : p ∉ pin -> unlinked pin p m !! p = None.
Proof. intros H. unfold unlinked. rewrite decide_False by exact H. apply lookup_delete_eq. Qed.

Lemma unlinked_absent {A} pin p (m : gmap string A) : m !! p = None -> unlinked pin p m = m.
Proof. intros H. unfold unlinked. case_decide; [reflexivity|apply delete_id, H]. Qed.

Lemma unlinked_twice {A} pin p (m : gmap string A) :
  unlinked pin p (unlinked pin p m) = unlinked pin p m.
Proof. unfold unlinked. case_decide; [reflexivity|apply delete_delete_eq]. Qed.

Lemma invalidateCredentials_run scope w :
  exists w',
    OAuthClientProvider.invalidateCredentials scope w = (Ok tt, w')
    /\ (removable (disk w) = true -> cleared scope w')
    /\ tokenStorage (this w') = tokenStorage (this w)
    /\ serverUrlHash (this w') = serverUrlHash (this w)
    /\ pinned (disk w') = pinned (disk w)
    /\ (cleared scope w -> disk w' = disk w /\ this w' = this w).
Proof.
  unfold OAuthClientProvider.invalidateCredentials, OAuthClientProvider.hash.
  destruct w as [[] [] ? ? ? ? ?].
  destruct scope; run; eexists; (split; [reflexivity|]);
    unfold cleared, tokenPath, clientInfoPath, codeVerifierPath,
      set_tokens_json, set_client_info_json, set_code_verifier_txt; cbn;
    (split; [intros Hr; rewrite ?unlinked_lookup by exact (removable_pinned _ _ Hr); tauto|]);
    (split; [reflexivity|]); (split; [reflexivity|]); (split; [reflexivity|]);
    intros H; decompose [and] H; subst; rewrite ?unlinked_absent by assumption; done.
Qed.

(** C9 as stated fails: a record whose file cannot be removed (here the
    token set, saved and then protected) is still there after the
    ['tokens'] invalidation, run twice: both calls return normally, the
    failure of [unlink] being ignored like that on a missing file, and the
    store holds the token set as before. *)
Lemma C9_record_left_when_unlink_fails :
  let w := Pinned.world in
  let w1 := snd (OAuthClientProvider.invalidateCredentials OAuthClientProvider.Scope.tokens w) in
  let w2 := snd (OAuthClientProvider.invalidateCredentials OAuthClientProvider.Scope.tokens w1) in
  storedTokens w = Some Example.issued
  /\ fst (OAuthClientProvider.invalidateCredentials OAuthClientProvider.Scope.tokens w) = Ok tt
  /\ fst (OAuthClientProvider.invalidateCredentials OAuthClientProvider.Scope.tokens w1) = Ok tt
  /\ fst (FileTokenStorage.getTokens (serverUrlHash (this w2)) w2) = Ok (Some Example.issued)
  /\ ~ cleared OAuthClientProvider.Scope.tokens w2.
Proof.
  cbv zeta. split; [vm_compute; reflexivity|]. split; [vm_compute; reflexivity|].
  split; [vm_compute; reflexivity|]. split; [vm_compute; reflexivity|].
  unfold cleared. vm_compute. discriminate.
Qed.

(** C9, amended. Credential store, absent records: for every server
    identity [h], each of the three reads returns normally, with the record
    when the file holds one and with the absent result when the file is
    missing or cannot be read or parsed; each delete returns normally,
    whatever [unlink] does; it changes nothing when there is no record,
    leaves no record when the file can be removed, and a second delete
    returns normally too and changes nothing more; and invalidating a scope
    twice in a row returns normally both times, the second time changing
    nothing in the store, and leaves no record of that scope when the files
    of the store can be removed. *)
Theorem C9_credential_store_absent_records (w : World) (h : string) :
  (fst (FileTokenStorage.getTokens h w)
     = Ok (match tokens_json (disk w) !! tokenPath w h with
           | Some (Holds t) => Some t
           | Some Corrupt | None => None
           end)
   /\ fst (FileTokenStorage.getClientInfo h w)
     = Ok (match client_info_json (disk w) !! clientInfoPath w h with
           | Some (Holds c) => Some c
           | Some Corrupt | None => None
           end)
   /\ fst (FileTokenStorage.getCodeVerifier h w)
     = Ok (match code_verifier_txt (disk w) !! codeVerifierPath w h with
           | Some (Holds v) => Some v
           | Some Corrupt | None => None
           end))
  /\ (exists w1 w2,
        FileTokenStorage.deleteTokens h w = (Ok tt, w1)
        /\ (tokens_json (disk w) !! tokenPath w h = None -> disk w1 = disk w)
        /\ (tokenPath w h ∉ pinned (disk w) -> tokens_json (disk w1) !! tokenPath w h = None)
        /\ FileTokenStorage.deleteTokens h w1 = (Ok tt, w2)
        /\ disk w2 = disk w1)
  /\ (exists w1 w2,
        FileTokenStorage.deleteClientInfo h w = (Ok tt, w1)
        /\ (client_info_json (disk w) !! clientInfoPath w h = None -> disk w1 = disk w)
        /\ (clientInfoPath w h ∉ pinned (disk w) ->
            client_info_json (disk w1) !! clientInfoPath w h = None)
        /\ FileTokenStorage.deleteClientInfo h w1 = (Ok tt, w2)
        /\ disk w2 = disk w1)
  /\ (exists w1 w2,
        FileTokenStorage.deleteCodeVerifier h w = (Ok tt, w1)
        /\ (code_verifier_txt (disk w) !! codeVerifierPath w h = None -> disk w1 = disk w)
        /\ (codeVerifierPath w h ∉ pinned (disk w) ->
            code_verifier_txt (disk w1) !! codeVerifierPath w h = None)
        /\ FileTokenStorage.deleteCodeVerifier h w1 = (Ok tt, w2)
        /\ disk w2 = disk w1)
  /\ (forall scope, exists w1 w2,
        OAuthClientProvider.invalidateCredentials scope w = (Ok tt, w1)
        /\ OAuthClientProvider.invalidateCredentials scope w1 = (Ok tt, w2)
        /\ disk w2 = disk w1
        /\ (removable (disk w) = true -> cleared scope w2)).
Proof.
  split; [|split; [|split; [|split]]].
  - rewrite getTokens_run, getClientInfo_run, getCodeVerifier_run. cbn.
    unfold record. repeat split; repeat case_match; congruence.
  - do 2 eexists. rewrite !deleteTokens_run. cbn.
    split; [reflexivity|]. unfold tokenPath, set_tokens_json; cbn.
    split; [intros E; rewrite unlinked_absent by exact E; destruct (disk w); reflexivity|].
    split; [apply unlinked_lookup|]. split; [reflexivity|].
    cbn. now rewrite unlinked_twice.
  - do 2 eexists. rewrite !deleteClientInfo_run. cbn.
    split; [reflexivity|]. unfold clientInfoPath, set_client_info_json; cbn.
    split; [intros E; rewrite unlinked_absent by exact E; destruct (disk w); reflexivity|].
    split; [apply unlinked_lookup|]. split; [reflexivity|].
    cbn. now rewrite unlinked_twice.
  - do 2 eexists. rewrite !deleteCodeVerifier_run. cbn.
    split; [reflexivity|]. unfold codeVerifierPath, set_code_verifier_txt; cbn.
    split; [intros E; rewrite unlinked_absent by exact E; destruct (disk w); reflexivity|].
    split; [apply unlinked_lookup|]. split; [reflexivity|].
    cbn. now rewrite unlinked_twice.
  - intros scope.
    destruct (invalidateCredentials_run scope w) as (w1 & E1 & C1 & _ & _ & Hpin & _).
    destruct (invalidateCredentials_run scope w1) as (w2 & E2 & C2 & _ & _ & _ & Hid).
    exists w1, w2. split; [exact E1|]. split; [exact E2|].
    split; [|intros Hr; apply C2; unfold removable in *; rewrite Hpin; exact Hr].
    revert E1 E2. clear.
    unfold OAuthClientProvider.invalidateCredentials, OAuthClientProvider.hash.
    destruct scope; run; intros [= <-]; run; intros [= <-]; cbn;
      unfold tokenPath, clientInfoPath, codeVerifierPath,
        set_tokens_json, set_client_info_json, set_code_verifier_txt; cbn;
      rewrite ?unlinked_twice; reflexivity.
Qed.

Lemma C9_credential_store_absent_records_witness :
  fst (FileTokenStorage.getTokens "0123456789abcdef" Example.world) = Ok None
  /\ (exists w1 w2,
        OAuthClientProvider.invalidateCredentials OAuthClientProvider.Scope.all
          Example.world = (Ok tt, w1)
        /\ OAuthClientProvider.invalidateCredentials OAuthClientProvider.Scope.all w1
           = (Ok tt, w2)
        /\ cleared OAuthClientProvider.Scope.all w2).
Proof.
  destruct (C9_credential_store_absent_records Example.world "0123456789abcdef")
    as ((Hget & _) & _ & _ & _ & Hinv).
  split; [exact Hget|].
  destruct (Hinv OAuthClientProvider.Scope.all) as (w1 & w2 & E1 & E2 & _ & Hc).
  exists w1, w2. split; [exact E1|]. split; [exact E2|]. apply Hc. reflexivity.
Defined.

(** ** The callback listener *)

Lemma truthy_opt_given k ps v : given k ps v -> truthy_opt (params_get k ps) = true.
Proof.
  intros [-> Hv]. cbn. unfold truthy.
  destruct (String.eqb_spec v ""); [contradiction|reflexivity].
Qed.

Lemma truthy_opt_not_given k ps : not_given k ps -> truthy_opt (params_get k ps) = false.
Proof. intros [-> | ->]; reflexivity. Qed.

Lemma substring_prefix (e s : string) : substring 0 (String.length e) (e ++ s) = e.
Proof.
  induction e as [|c e IH].
  - destruct s; reflexivity.
  - change (String c (substring 0 (String.length e) (e ++ s)) = String c e).
    f_equal. exact IH.
Qed.

Lemma substring_middle (p e s : string) :
  substring (String.length p) (String.length e) (p ++ e ++ s) = e.
Proof.
  induction p as [|c p IH].
  - exact (substring_prefix e s).
  - exact IH.
Qed.

Lemma mentions_middle (p e s : string) : e <> "" -> mentions e (p ++ e ++ s) = true.
Proof.
  intros He. unfold mentions.
  destruct (String.index 0 e (p ++ e ++ s)) eqn:E; [reflexivity|].
  exfalso.
  apply (String.index_correct3 0 (String.length p) _ _ E He (Nat.le_0_l _)).
  apply substring_middle.
Qed.

(** C8 as stated fails: a request to the callback path whose [error]
    parameter is present, but empty, and that carries a code is answered
    with the success page, and signals success. *)
Lemma C8_error_present_but_empty :
  let searchParams := [("error", ""); ("code", "abc123")] in
  params_get "error" searchParams = Some ""
  /\ OAuthServer.requestListener "/oauth/callback" (ReqUrl "/oauth/callback" searchParams)
     = Ok (OAuthServer.mkReply
             (mkResponse 200 (Some "text/html") OAuthServer.successful_page)
             (Some ("auth-code", "abc123")))
  /\ ~ (exists page,
          OAuthServer.requestListener "/oauth/callback" (ReqUrl "/oauth/callback" searchParams)
          = Ok (OAuthServer.mkReply (mkResponse 400 (Some "text/html") page)
                                    (Some ("auth-error", "")))).
Proof.
  cbv zeta. split; [reflexivity|]. split; [reflexivity|].
  intros [page H]. cbn in H. discriminate H.
Qed.

(** C8, amended. For every request whose URL parses: on the callback path,
    a non-empty [error] parameter gives the failure page with that error
    (status 400) and the ['auth-error'] event carrying it; otherwise a
    non-empty [code] parameter gives the success page (status 200), which
    tells the user to close the window, and the ['auth-code'] event
    carrying the code; otherwise the generic failure page (status 400) and
    no event; on any other path, 404 Not Found and no event. (A request
    without URL gets 400 Bad Request.) *)
Theorem C8_callback_listener_dispatch
    (path pathname : string) (searchParams : list (string * string)) :
  let reply := OAuthServer.requestListener path (ReqUrl pathname searchParams) in
  (pathname = path ->
     (forall error, given "error" searchParams error ->
        reply = Ok (OAuthServer.mkReply
                      (mkResponse 400 (Some "text/html") (OAuthServer.failed_page error))
                      (Some ("auth-error", error)))
        /\ mentions error (OAuthServer.failed_page error) = true)
     /\ (not_given "error" searchParams ->
         forall code, given "code" searchParams code ->
           reply = Ok (OAuthServer.mkReply
                         (mkResponse 200 (Some "text/html") OAuthServer.successful_page)
                         (Some ("auth-code", code))))
     /\ (not_given "error" searchParams -> not_given "code" searchParams ->
           reply = Ok (OAuthServer.mkReply
                         (mkResponse 400 (Some "text/html") OAuthServer.missing_code_page)
                         None)))
  /\ (pathname <> path ->
        reply = Ok (OAuthServer.mkReply (mkResponse 404 None "Not Found") None))
  /\ mentions "You can close this window" OAuthServer.successful_page = true
  /\ OAuthServer.requestListener path NoUrl
     = Ok (OAuthServer.mkReply (mkResponse 400 None "Bad Request") None).
Proof.
  cbv zeta. split; [|split; [|split; reflexivity]].
  - intros ->. cbn. rewrite String.eqb_refl. split; [|split].
    + intros error H. rewrite (truthy_opt_given _ _ _ H). destruct H as [E Hne].
      split; [rewrite E; reflexivity|].
      unfold OAuthServer.failed_page. apply mentions_middle. exact Hne.
    + intros He code Hc. rewrite (truthy_opt_not_given _ _ He), (truthy_opt_given _ _ _ Hc).
      destruct Hc as [-> _]. reflexivity.
    + intros He Hc. rewrite (truthy_opt_not_given _ _ He), (truthy_opt_not_given _ _ Hc).
      reflexivity.
  - intros Hne. cbn. destruct (String.eqb_spec pathname path); [contradiction|reflexivity].
Qed.

Lemma saveTokens_run h t w :
  FileTokenStorage.saveTokens h t w
  = match faults (disk w) !! tokenPath w h with
    | None =>
        (Ok tt, set_disk (set_tokens_json (insert (tokenPath w h) (Holds t)))
                  (emit_effect (FsWrite (tokenPath w h)) w))
    | Some Refused => (Throw (newError "EACCES: permission denied"), w)
    | Some (Torn n) =>
        (Throw (newError "ENOSPC: no space left on device"),
         set_disk (set_tokens_json (insert (tokenPath w h) Corrupt))
           (emit_effect (FsWrite (tokenPath w h)) w))
    end.
Proof.
  unfold_storage; unfold_async; unfold tokenPath; simpl.
  destruct (faults (disk w) !! _) as [[|n]|]; reflexivity.
Qed.

Lemma saveClientInfo_run h c w :
  FileTokenStorage.saveClientInfo h c w
  = match faults (disk w) !! clientInfoPath w h with
    | None =>
        (Ok tt, set_disk (set_client_info_json (insert (clientInfoPath w h) (Holds c)))
                  (emit_effect (FsWrite (clientInfoPath w h)) w))
    | Some Refused => (Throw (newError "EACCES: permission denied"), w)
    | Some (Torn n) =>
        (Throw (newError "ENOSPC: no space left on device"),
         set_disk (set_client_info_json (insert (clientInfoPath w h) Corrupt))
           (emit_effect (FsWrite (clientInfoPath w h)) w))
    end.
Proof.
  unfold_storage; unfold_async; unfold clientInfoPath; simpl.
  destruct (faults (disk w) !! _) as [[|n]|]; reflexivity.
Qed.

Lemma saveCodeVerifier_run h v w :
  FileTokenStorage.saveCodeVerifier h v w
  = match faults (disk w) !! codeVerifierPath w h with
    | None =>
        (Ok tt, set_disk (set_code_verifier_txt (insert (codeVerifierPath w h) (Holds v)))
                  (emit_effect (FsWrite (codeVerifierPath w h)) w))
    | Some Refused => (Throw (newError "EACCES: permission denied"), w)
    | Some (Torn n) =>
        (Throw (newError "ENOSPC: no space left on device"),
         set_disk (set_code_verifier_txt
                     (insert (codeVerifierPath w h) (Holds (substring 0 n v))))
           (emit_effect (FsWrite (codeVerifierPath w h)) w))
    end.
Proof.
  unfold_storage; unfold_async; unfold codeVerifierPath; simpl.
  destruct (faults (disk w) !! _) as [[|n]|]; reflexivity.
Qed.

#[global] Hint Rewrite saveTokens_run saveClientInfo_run saveCodeVerifier_run : run.


Import OAuthClientProvider.

#[global] Arguments generatePKCEChallenge : simpl never.
#[global] Arguments ensureAuthenticated : simpl never.
#[global] Arguments _performAuthentication : simpl never.
#[global] Arguments performAuthorizationCodeFlow : simpl never.
#[global] Arguments discoverOAuthEndpoints : simpl never.
#[global] Arguments registerClient : simpl never.
#[global] Arguments initializeAuth : simpl never.
#[global] Arguments requestAuthorization : simpl never.
#[global] Arguments waitForAuthCode : simpl never.
#[global] Arguments exchangeCodeForTokens : simpl never.
#[global] Arguments count : simpl never.

Lemma requestAuthorization_run rb launched w doc ci :
  discoveryDocument (this w) = Some doc -> clientInfo (this w) = Some ci ->
  writable (disk w) = true ->
  let pkce := generatePKCEChallenge rb in
  let w1 := set_disk (set_code_verifier_txt
                        (insert (codeVerifierPath w (serverUrlHash (this w)))
                                (Holds (verifier pkce))))
              (emit_effect (FsWrite (codeVerifierPath w (serverUrlHash (this w))))
                 (set_this (set_codeVerifier (Some (verifier pkce))) w)) in
  requestAuthorization rb launched w
  = if canParse w (authorization_endpoint doc) None
    then
      match redirect_uris (client_metadata ci) with
      | None => (Throw (TypeError "Cannot read properties of undefined (reading '0')"), w1)
      | Some uris =>
          let authUrl :=
            mkUrl (authorization_endpoint doc) None
              ([("client_id", client_id ci); ("response_type", "code");
                ("redirect_uri", js_string (uris !! 0%nat));
                ("code_challenge", challenge pkce); ("code_challenge_method", "S256")]
               ++ (if truthy_opt (authorizeResource (options (this w)))
                   then [("resource", js_string (authorizeResource (options (this w))))]
                   else [])) in
          (match launched with Ok _ => Ok pkce | Throw e => Throw e end,
           emit_effect (OpenBrowser authUrl) w1)
      end
    else (Throw invalid_url, w1).
Proof.
  intros Hdoc Hci Hw. unfold requestAuthorization, saveCodeVerifier, hash, opts.
  run. rewrite Hdoc, Hci. run. rewrite (writable_faults _ _ Hw). run.
  destruct (canParse w (authorization_endpoint doc) None); [|reflexivity]. run.
  unfold index0. destruct (redirect_uris (client_metadata ci)) as [uris|]; [|reflexivity].
  run. destruct (truthy_opt (authorizeResource (options (this w)))); run;
    destruct launched; reflexivity.
Qed.

Lemma exchangeCodeForTokens_run code v answer w doc ci :
  discoveryDocument (this w) = Some doc -> clientInfo (this w) = Some ci ->
  exchangeCodeForTokens code v answer w
  = match redirect_uris (client_metadata ci) with
    | None => (Throw (TypeError "Cannot read properties of undefined (reading '0')"), w)
    | Some uris =>
        let tokenData :=
          [("grant_type", "authorization_code"); ("code", code);
           ("redirect_uri", js_string (uris !! 0%nat)); ("client_id", client_id ci);
           ("code_verifier", v)] ++ secret_field ci in
        let w1 := emit_effect (HttpPostForm (token_endpoint doc) tokenData) w in
        let failed e := Throw (newError ("Failed to exchange code for tokens: "
                                           ++ error_toString e)) in
        match answer with
        | Ok data =>
            match faults (disk w) !! tokenPath w (serverUrlHash (this w)) with
            | None =>
                (Ok tt,
                 set_disk (set_tokens_json
                             (insert (tokenPath w (serverUrlHash (this w))) (Holds data)))
                   (emit_effect (FsWrite (tokenPath w (serverUrlHash (this w)))) w1))
            | Some Refused => (failed (newError "EACCES: permission denied"), w1)
            | Some (Torn n) =>
                (failed (newError "ENOSPC: no space left on device"),
                 set_disk (set_tokens_json
                             (insert (tokenPath w (serverUrlHash (this w))) Corrupt))
                   (emit_effect (FsWrite (tokenPath w (serverUrlHash (this w)))) w1))
            end
        | Throw e => (failed e, w1)
        end
    end.
Proof.
  intros Hdoc Hci. unfold exchangeCodeForTokens, saveTokens, hash.
  run. rewrite Hdoc, Hci. run.
  unfold index0. destruct (redirect_uris (client_metadata ci)) as [uris|]; [|reflexivity].
  run. destruct answer as [data|e]; [|reflexivity].
  run. unfold tokenPath. cbn. destruct (faults (disk w) !! _) as [[|n]|]; reflexivity.
Qed.

(** C10. Redirect URIs, the unstated precondition: with the discovery
    document and a client identity in place, building the authorization URL
    and exchanging the code both read [redirect_uris[0]] of the identity
    unchecked. When the list is absent the read throws a TypeError, before
    the browser is opened and before anything is posted; when it is empty
    the read is out of bounds and both the authorization URL and the token
    request carry [redirect_uri=undefined]; only when it is non-empty do
    they carry a redirect URI of the identity, its first. (The
    authorization URL is built on the authorization endpoint: when that
    does not parse as a URL, [new URL] throws before the list is read, and
    no browser is opened.) *)
Theorem C10_redirect_uris_precondition
    (w : World) (doc : AuthorizationServerMetadata) (ci : OAuthClientInformationFull)
    (rb : nat -> list byte) (code v : string) (data : OAuthTokens) :
  discoveryDocument (this w) = Some doc ->
  clientInfo (this w) = Some ci ->
  writable (disk w) = true ->
  let '(r1, w1) := requestAuthorization rb (Ok tt) w in
  let '(r2, w2) := exchangeCodeForTokens code v (Ok data) w in
  (if canParse w (authorization_endpoint doc) None
   then
     match redirect_uris (client_metadata ci) with
     | None =>
         r1 = Throw (TypeError "Cannot read properties of undefined (reading '0')")
         /\ count opens_browser (trace w1) = count opens_browser (trace w)
     | Some [] =>
         r1 = Ok (generatePKCEChallenge rb) /\ authorizes_with "undefined" (trace w1)
     | Some (uri :: _) =>
         r1 = Ok (generatePKCEChallenge rb) /\ authorizes_with uri (trace w1)
     end
   else r1 = Throw invalid_url
        /\ count opens_browser (trace w1) = count opens_browser (trace w))
  /\ match redirect_uris (client_metadata ci) with
     | None =>
         r2 = Throw (TypeError "Cannot read properties of undefined (reading '0')")
         /\ trace w2 = trace w
     | Some [] =>
         r2 = Ok tt /\ posts_with (token_endpoint doc) "undefined" (trace w2)
     | Some (uri :: _) =>
         r2 = Ok tt /\ posts_with (token_endpoint doc) uri (trace w2)
     end.
Proof.
  intros Hdoc Hci Hw.
  rewrite (requestAuthorization_run _ _ _ _ _ Hdoc Hci Hw).
  rewrite (exchangeCodeForTokens_run _ _ _ _ _ _ Hdoc Hci).
  cbv zeta. rewrite (writable_faults _ _ Hw).
  assert (Hsame : forall e,
            count opens_browser (trace w ++ [FsWrite e]) = count opens_browser (trace w)).
  { intros e. unfold count. rewrite List.filter_app. cbn. rewrite length_app. cbn. lia. }
  destruct (canParse w (authorization_endpoint doc) None);
    destruct (redirect_uris (client_metadata ci)) as [[|uri uris]|]; cbn;
    repeat match goal with
    | |- _ /\ _ => split
    | |- authorizes_with _ _ =>
        eexists; split; [cbn; rewrite in_app_iff; right; left; reflexivity|reflexivity]
    | |- posts_with _ _ _ =>
        eexists; split; [cbn; rewrite !in_app_iff; left; right; left; reflexivity|reflexivity]
    | |- count _ _ = _ => apply Hsame
    | |- _ => reflexivity
    end.
Qed.

(** ** Client identity and refresh *)

Lemma count_app f a b : count f (a ++ b) = (count f a + count f b)%nat.
Proof. unfold count. now rewrite List.filter_app, length_app. Qed.

Lemma truthy_true s : truthy s = true <-> s <> "".
Proof. unfold truthy. destruct (String.eqb_spec s ""); split; try easy. Qed.

Lemma has_registration_endpoint_truthy w :
  has_registration_endpoint w
  <-> truthy_opt (discoveryDocument (this w) ≫= registration_endpoint) = true.
Proof.
  unfold has_registration_endpoint. split.
  - intros (doc & url & -> & H & Hne). cbn. rewrite H. cbn. now apply truthy_true.
  - destruct (discoveryDocument (this w)) as [doc|]; cbn; [|discriminate].
    destruct (registration_endpoint doc) as [url|] eqn:E; cbn; [|discriminate].
    intros H. exists doc, url. repeat split; try assumption. now apply truthy_true.
Qed.

Ltac count_solve :=
  cbn; rewrite ?count_app; unfold count; cbn; rewrite ?List.filter_app, ?length_app; cbn; lia.

(** C6. Client identity resolution: a configured static identity is used,
    and neither the cache is looked up nor anything registered (no call is
    made to the outside at all); otherwise a cached identity, in memory or
    on disk, is used without registration; otherwise registration is
    dynamic: it raises the missing-registration-endpoint error exactly when
    the discovery document names no registration endpoint, and then posts
    nothing, else it posts the registration once; it succeeds when the
    endpoint answers and the store can be written, and whenever it succeeds
    the identity the endpoint returned is in memory and on disk when the
    step completes. *)
Theorem C6_client_identity_resolution (w : World) (answer : Result OAuthClientInformationFull) :
  let '(r, w') := registerClient answer w in
  match staticOAuthClientInfo (options (this w)) with
  | Some static =>
      r = Ok tt /\ clientInfo (this w') = Some static
      /\ trace w' = trace w /\ disk w' = disk w
  | None =>
      match cached_identity w with
      | Some cached =>
          r = Ok tt /\ clientInfo (this w') = Some cached
          /\ count is_registration (trace w') = count is_registration (trace w)
          /\ disk w' = disk w
      | None =>
          (r = Throw no_registration_endpoint_error <-> ~ has_registration_endpoint w)
          /\ (~ has_registration_endpoint w ->
              count is_registration (trace w') = count is_registration (trace w))
          /\ (has_registration_endpoint w ->
              count is_registration (trace w') = S (count is_registration (trace w)))
          /\ (forall identity,
                has_registration_endpoint w -> answer = Ok identity ->
                writable (disk w) = true -> r = Ok tt)
          /\ (r = Ok tt ->
              exists identity,
                answer = Ok identity
                /\ clientInfo (this w') = Some identity
                /\ client_info_json (disk w') !! clientInfoPath w' (serverUrlHash (this w'))
                   = Some (Holds identity))
      end
  end.
Proof.
  unfold registerClient, clientInformation, saveClientInformation, hash, opts, cached_identity.
  run.
  destruct (staticOAuthClientInfo (options (this w))) as [static|]; run; [easy|].
  destruct (clientInfo (this w)) as [c|] eqn:Hc; run.
  { repeat split; reflexivity. }
  destruct (record (client_info_json (disk w) !! clientInfoPath w (serverUrlHash (this w))))
    as [c|] eqn:Hr; run.
  { repeat split; try reflexivity. count_solve. }
  pose proof (has_registration_endpoint_truthy w) as Ht.
  destruct (truthy_opt (discoveryDocument (this w) ≫= registration_endpoint)) eqn:E; run.
  - assert (Hhas : has_registration_endpoint w) by now apply Ht.
    destruct answer as [identity|e]; run.
    + destruct (faults (disk w) !! _) as [[|n]|] eqn:Hf; run.
      * split; [split; [discriminate|tauto]|]. split; [tauto|].
        split; [intros _; count_solve|].
        split; [intros ? _ _ Hw; rewrite (writable_faults _ _ Hw) in Hf; discriminate Hf|].
        discriminate.
      * split; [split; [discriminate|tauto]|]. split; [tauto|].
        split; [intros _; count_solve|].
        split; [intros ? _ _ Hw; rewrite (writable_faults _ _ Hw) in Hf; discriminate Hf|].
        discriminate.
      * split; [split; [discriminate|tauto]|]. split; [tauto|].
        split; [intros _; count_solve|].
        split; [reflexivity|]. intros _. exists identity.
        split; [reflexivity|]. split; [reflexivity|].
        unfold clientInfoPath; cbn. apply lookup_insert_eq.
    + split; [split; [discriminate|tauto]|]. split; [tauto|].
      split; [intros _; count_solve|].
      split; [discriminate|]. discriminate.
  - assert (Hno : ~ has_registration_endpoint w) by (rewrite Ht; discriminate).
    split; [split; [tauto|reflexivity]|].
    split; [intros _; count_solve|].
    split; [tauto|]. split; [tauto|]. discriminate.
Qed.

Lemma refreshTokens_returns R out w t w' :
  refreshTokens R out w = (Ok t, w') ->
  exists data, token out = Ok data
    /\ t = mkTokens (access_token data) (token_type data) (expires_in data)
             (Some (js_or (refresh_token data) R)) (scope data)
    /\ tokens_json (disk w') !! tokenPath w' (serverUrlHash (this w')) = Some (Holds t).
Proof.
  unfold refreshTokens, saveTokens, hash.
  unfold bind at 1 2. unfold gets at 1 2.
  set (pre := match discoveryDocument (this w) with Some _ => _ | None => _ end).
  unfold bind at 1.
  destruct (pre w) as [[[]|e] w1]; [|discriminate].
  clear pre. run.
  destruct (discoveryDocument (this w1)) as [doc|]; [|discriminate].
  destruct (clientInfo (this w1)) as [ci|]; [|discriminate].
  run.
  destruct (token out) as [data|e]; [|discriminate].
  run.
  destruct (faults (disk w1) !! _) as [[|n]|]; [discriminate|discriminate|].
  run.
  intros [= <- <-]. exists data. split; [reflexivity|]. split; [reflexivity|].
  cbn. unfold tokenPath. cbn. apply lookup_insert_eq.
Qed.

Lemma refreshTokens_succeeds R out w doc ci data :
  discoveryDocument (this w) = Some doc -> clientInfo (this w) = Some ci ->
  token out = Ok data -> writable (disk w) = true ->
  exists t w', refreshTokens R out w = (Ok t, w').
Proof.
  intros Hdoc Hci Htok Hw. unfold refreshTokens, saveTokens, hash. run.
  rewrite Hdoc, Hci. run. rewrite Hdoc, Hci. run. rewrite Htok. run.
  rewrite (writable_faults _ _ Hw). run. eauto.
Qed.

(** C7. Refresh-token retention: when the token endpoint answers a refresh
    of [refreshToken] with [data], every token set that [refreshTokens]
    returns is the one on disk when it returns, copies the access token of
    [data], and carries [refreshToken] itself when [data] has no refresh
    token (the field is missing or empty) and the refresh token of [data]
    otherwise; and [refreshTokens] does return a token set when the
    discovery document and the client identity are in place and the store
    can be written. *)
Theorem C7_refresh_token_retention
    (w : World) (refreshToken : string) (out : Outside) (data : OAuthTokens) :
  token out = Ok data ->
  (forall t w',
     refreshTokens refreshToken out w = (Ok t, w') ->
     (omits_refresh_token data -> refresh_token t = Some refreshToken)
     /\ (forall issued, refresh_token data = Some issued -> issued <> "" ->
         refresh_token t = Some issued)
     /\ access_token t = access_token data
     /\ record (tokens_json (disk w') !! tokenPath w' (serverUrlHash (this w'))) = Some t)
  /\ (forall doc ci,
        discoveryDocument (this w) = Some doc -> clientInfo (this w) = Some ci ->
        writable (disk w) = true ->
        exists t w', refreshTokens refreshToken out w = (Ok t, w')).
Proof.
  intros Htok. split.
  - intros t w' H. apply refreshTokens_returns in H as (data' & Htok' & -> & Hdisk).
    rewrite Htok in Htok'. injection Htok' as <-. cbn [refresh_token access_token].
    split; [|split; [|split]].
    + intros [-> | ->]; reflexivity.
    + intros issued -> Hne. cbn. apply truthy_true in Hne. now rewrite Hne.
    + reflexivity.
    + now rewrite Hdisk.
  - intros doc ci Hdoc Hci Hw. eapply refreshTokens_succeeds; eassumption.
Qed.

(** ** What each step of the flow does to the outside *)

Lemma grows_trans d1 d2 w1 w2 w3 :
  grows d1 w1 w2 -> grows d2 w2 w3 -> grows (d1 ++ d2) w1 w3.
Proof.
  unfold grows. intros (T1 & ? & ? & ? & ? & ? & ? & ?) (T2 & ? & ? & ? & ? & ? & ? & ?).
  rewrite T2, T1, app_assoc. repeat split; congruence.
Qed.

Lemma same_listener_trans w1 w2 w3 :
  same_listener w1 w2 -> same_listener w2 w3 -> same_listener w1 w3.
Proof. unfold same_listener. intuition congruence. Qed.

Ltac grows_solve :=
  unfold grows, same_listener; cbn;
  rewrite <- ?app_assoc; cbn;
  repeat split; try reflexivity; try (symmetry; apply app_nil_r).

Lemma discoverOAuthEndpoints_effects answer w r w' :
  discoverOAuthEndpoints answer w = (r, w') ->
  exists d, grows d w w' /\ calls d = (Nat.b2n (discoverable w), 0, 0, 0, 0)%nat
            /\ same_listener w w' /\ disk w' = disk w
            /\ (r = Ok tt -> discoverable w = true).
Proof.
  unfold discoverOAuthEndpoints, opts, discoverable. run.
  destruct (canParse w _ _); run;
    [destruct answer; run|]; intros [= <- <-]; eexists; grows_solve;
    try reflexivity; discriminate.
Qed.

(** When the server URL does not parse, the attempt ends before anything
    is sent. *)
Lemma discoverOAuthEndpoints_invalid answer w :
  discoverable w = false -> discoverOAuthEndpoints answer w = (Throw invalid_url, w).
Proof.
  unfold discoverOAuthEndpoints, opts, discoverable. run. intros ->. reflexivity.
Qed.

Lemma registerClient_effects answer w r w' :
  registerClient answer w = (r, w') ->
  exists d n, grows d w w' /\ calls d = (0, n, 0, 0, 0)%nat /\ (n <= 1)%nat
              /\ same_listener w w'.
Proof.
  unfold registerClient, clientInformation, saveClientInformation, hash, opts. run.
  destruct (staticOAuthClientInfo (options (this w))); run.
  { intros [= <- <-]. exists [], 0%nat. grows_solve. lia. }
  destruct (clientInfo (this w)); run.
  { intros [= <- <-]. exists [], 0%nat. grows_solve. lia. }
  destruct (record _); run.
  { intros [= <- <-]. eexists _, 0%nat. grows_solve. lia. }
  destruct (truthy_opt _); run.
  - destruct answer; run; [destruct (faults (disk w) !! _) as [[|n]|]; run|];
      intros [= <- <-]; eexists _, 1%nat; grows_solve; lia.
  - intros [= <- <-]. eexists _, 0%nat. grows_solve. lia.
Qed.

Lemma initializeAuth_effects granted w r w' :
  initializeAuth granted w = (r, w') ->
  exists d, grows d w w' /\ calls d = (0, 0, 1, 0, 0)%nat
    /\ disk w' = disk w
    /\ match r with
       | Ok server =>
           port w = None /\ granted = Ok tt /\ server = servers w
           /\ port w' = Some server /\ authServer (this w') = Some server
           /\ servers w' = S server
       | Throw _ => same_listener w w'
       end.
Proof.
  unfold initializeAuth, OAuthServer.createOAuthCallbackServer, opts. run.
  destruct (port w) eqn:Hp; run.
  { intros [= <- <-]. eexists. grows_solve. }
  destruct granted as [[]|e]; run; intros [= <- <-]; eexists; grows_solve.
Qed.

Lemma requestAuthorization_effects rb launched w r w' :
  requestAuthorization rb launched w = (r, w') ->
  exists d, grows d w w' /\ calls d = (0, 0, 0, 0, 0)%nat /\ same_listener w w'.
Proof.
  unfold requestAuthorization, saveCodeVerifier, hash, opts. run.
  destruct (discoveryDocument (this w)); run;
    [|intros [= <- <-]; exists []; grows_solve].
  destruct (clientInfo (this w)); run;
    [|intros [= <- <-]; exists []; grows_solve].
  destruct (faults (disk w) !! _) as [[|n]|]; run;
    [intros [= <- <-]; exists []; grows_solve|intros [= <- <-]; eexists; grows_solve|].
  destruct (canParse w _ _); run;
    [|intros [= <- <-]; eexists; grows_solve].
  unfold index0. destruct (redirect_uris _); run;
    [|intros [= <- <-]; eexists; grows_solve].
  destruct (truthy_opt _); run; destruct launched; run;
    intros [= <- <-]; eexists; grows_solve.
Qed.

Lemma serve_effects path requests w r w' :
  serve path requests w = (r, w') ->
  exists d, grows d w w' /\ calls d = (0, 0, 0, 0, 0)%nat /\ same_listener w w'
            /\ disk w' = disk w.
Proof.
  revert w. induction requests as [|req rest IH]; intros w; cbn [serve].
  - run. intros [= <- <-]. exists []. grows_solve.
  - destruct (OAuthServer.requestListener path req) as [reply|e]; [|apply IH].
    unfold bind at 1. unfold effect at 1, modify at 1.
    destruct (OAuthServer.emitted reply) as [[event payload]|].
    + run. destruct (String.eqb event "auth-code"); run;
        intros [= <- <-]; eexists; grows_solve.
    + intros H. apply IH in H as (d & G & C & L & D).
      exists (Respond (OAuthServer.response reply) :: d).
      split; [|split; [|split]].
      * change (Respond (OAuthServer.response reply) :: d)
          with ([Respond (OAuthServer.response reply)] ++ d).
        eapply grows_trans; [|exact G]. grows_solve.
      * revert C. unfold calls, count. cbn. trivial.
      * exact L.
      * exact D.
Qed.

Lemma waitForAuthCode_effects requests w r w' :
  waitForAuthCode requests w = (r, w') ->
  exists d, grows d w w' /\ calls d = (0, 0, 0, 0, 0)%nat /\ same_listener w w'
            /\ disk w' = disk w.
Proof.
  unfold waitForAuthCode, opts. unfold bind at 1 2. unfold gets at 1, modify at 1.
  intros H. apply serve_effects in H as (d & G & C & L & D).
  exists d. split; [|split; [exact C|split; [exact L|exact D]]].
  revert G. unfold grows. cbn. trivial.
Qed.

Lemma exchangeCodeForTokens_effects code v answer w r w' :
  exchangeCodeForTokens code v answer w = (r, w') ->
  exists d n, grows d w w' /\ calls d = (0, 0, 0, n, 0)%nat /\ (n <= 1)%nat
              /\ same_listener w w'.
Proof.
  unfold exchangeCodeForTokens, saveTokens, hash. run.
  destruct (discoveryDocument (this w)); run;
    [|intros [= <- <-]; exists [], 0%nat; grows_solve; lia].
  destruct (clientInfo (this w)); run;
    [|intros [= <- <-]; exists [], 0%nat; grows_solve; lia].
  unfold index0. destruct (redirect_uris _); run;
    [|intros [= <- <-]; exists [], 0%nat; grows_solve; lia].
  destruct answer; run; [destruct (faults (disk w) !! _) as [[|n]|]; run|];
    intros [= <- <-]; eexists _, 1%nat; grows_solve; lia.
Qed.

Lemma registerClient_registers answer w r w' :
  registerClient answer w = (r, w') ->
  count is_registration (trace w')
  = (count is_registration (trace w) + Nat.b2n (registers w))%nat.
Proof.
  unfold registerClient, clientInformation, saveClientInformation, hash, opts, registers,
    cached_identity.
  run.
  destruct (staticOAuthClientInfo (options (this w))); run.
  { intros [= <- <-]. count_solve. }
  destruct (clientInfo (this w)); run.
  { intros [= <- <-]. count_solve. }
  destruct (record _); run.
  { intros [= <- <-]. count_solve. }
  destruct (truthy_opt _); run.
  - destruct answer; run; [destruct (faults (disk w) !! _) as [[|n]|]; run|];
      intros [= <- <-]; count_solve.
  - intros [= <- <-]. count_solve.
Qed.

Lemma exchangeCodeForTokens_posts code v answer w w' :
  exchangeCodeForTokens code v answer w = (Ok tt, w') ->
  count is_exchange (trace w') = S (count is_exchange (trace w)).
Proof.
  unfold exchangeCodeForTokens, saveTokens, hash. run.
  destruct (discoveryDocument (this w)); run; [|discriminate].
  destruct (clientInfo (this w)); run; [|discriminate].
  unfold index0. destruct (redirect_uris _); run; [|discriminate].
  destruct answer; run; [|discriminate].
  destruct (faults (disk w) !! _) as [[|n]|]; run; [discriminate|discriminate|].
  intros [= <-]. count_solve.
Qed.

Lemma calls_app d1 d2 a1 b1 c1 e1 f1 a2 b2 c2 e2 f2 :
  calls d1 = (a1, b1, c1, e1, f1) -> calls d2 = (a2, b2, c2, e2, f2) ->
  calls (d1 ++ d2) = (a1 + a2, b1 + b2, c1 + c2, e1 + e2, f1 + f2)%nat.
Proof.
  unfold calls. rewrite !count_app. intros [= <- <- <- <- <-] [= <- <- <- <- <-].
  reflexivity.
Qed.

Lemma performAuthorizationCodeFlow_effects out w r w' :
  performAuthorizationCodeFlow out w = (r, w') ->
  exists d n, grows d w w' /\ calls d = (0, 0, 0, n, 0)%nat /\ (n <= 1)%nat
              /\ same_listener w w' /\ (r = Ok tt -> n = 1%nat).
Proof.
  unfold performAuthorizationCodeFlow. unfold bind at 1.
  destruct (requestAuthorization _ _ w) as [[pkce|e] w1] eqn:E1;
    apply requestAuthorization_effects in E1 as (d1 & G1 & C1 & L1).
  2:{ intros [= <- <-]. exists d1, 0%nat.
      split; [exact G1|]. split; [exact C1|]. split; [lia|]. split; [exact L1|discriminate]. }
  unfold bind at 1.
  destruct (waitForAuthCode _ w1) as [[code|e] w2] eqn:E2;
    apply waitForAuthCode_effects in E2 as (d2 & G2 & C2 & L2 & _).
  2:{ intros [= <- <-]. exists (d1 ++ d2), 0%nat.
      split; [eapply grows_trans; eassumption|].
      split; [apply (calls_app _ _ _ _ _ _ _ _ _ _ _ _ C1 C2)|].
      split; [lia|]. split; [eapply same_listener_trans; eassumption|discriminate]. }
  intros E3. pose proof E3 as E3'.
  apply exchangeCodeForTokens_effects in E3 as (d3 & n & G3 & C3 & Hn & L3).
  exists ((d1 ++ d2) ++ d3), n.
  split; [eapply grows_trans; [eapply grows_trans|]; eassumption|].
  split; [apply (calls_app _ _ _ _ _ _ _ _ _ _ _ _
                   (calls_app _ _ _ _ _ _ _ _ _ _ _ _ C1 C2) C3)|].
  split; [exact Hn|].
  split; [eapply same_listener_trans; [eapply same_listener_trans|]; eassumption|].
  intros ->. revert E3' C3.
  unfold exchangeCodeForTokens, saveTokens, hash. run.
  destruct (discoveryDocument (this w2)); run; [|discriminate].
  destruct (clientInfo (this w2)); run; [|discriminate].
  unfold index0. destruct (redirect_uris _); run; [|discriminate].
  destruct (token out); run; [|discriminate].
  destruct (faults (disk w2) !! _) as [[|k]|]; run; [discriminate|discriminate|].
  intros [= <-]. unfold grows in G3. destruct G3 as (T & _).
  cbn in T. rewrite <- app_assoc in T. apply app_inv_head in T. subst d3.
  unfold calls, count. cbn. congruence.
Qed.

Ltac calls_solve C := rewrite C; do 4 (apply f_equal2; [|lia]); lia.

Lemma _performAuthentication_effects out w r w' :
  _performAuthentication out w = (r, w') ->
  exists d nr nb ne,
    grows d w w' /\ calls d = (Nat.b2n (discoverable w), nr, nb, ne, 0)%nat
    /\ (nr <= 1)%nat /\ (nb <= 1)%nat /\ (ne <= 1)%nat
    /\ listener_kept_or_started w w'
    /\ (r = Ok tt ->
        discoverable w = true /\ nb = 1%nat /\ ne = 1%nat /\ port w' = Some (servers w)
        /\ authInitialized (this w') = true).
Proof.
  unfold _performAuthentication, try_catch.
  unfold bind at 1.
  destruct (discoverOAuthEndpoints _ w) as [[[]|e] w1] eqn:E1;
    apply discoverOAuthEndpoints_effects in E1 as (d1 & G1 & C1 & L1 & _ & Hd1).
  2:{ unfold throw. intros [= <- <-]. exists d1, 0%nat, 0%nat, 0%nat.
      split; [exact G1|]. split; [exact C1|]. do 3 (split; [lia|]).
      split; [left; exact L1|discriminate]. }
  unfold bind at 1.
  destruct (registerClient _ w1) as [[[]|e] w2] eqn:E2;
    apply registerClient_effects in E2 as (d2 & nr & G2 & C2 & Hnr & L2).
  2:{ unfold throw. intros [= <- <-]. exists (d1 ++ d2), nr, 0%nat, 0%nat.
      split; [eapply grows_trans; eassumption|].
      split; [calls_solve (calls_app _ _ _ _ _ _ _ _ _ _ _ _ C1 C2)|].
      split; [exact Hnr|]. do 2 (split; [lia|]).
      split; [left; eapply same_listener_trans; eassumption|discriminate]. }
  pose proof (same_listener_trans _ _ _ L1 L2) as L12.
  unfold bind at 1.
  destruct (initializeAuth _ w2) as [[server|e] w3] eqn:E3;
    apply initializeAuth_effects in E3 as (d3 & G3 & C3 & _ & L3).
  2:{ unfold throw. intros [= <- <-]. exists ((d1 ++ d2) ++ d3), nr, 1%nat, 0%nat.
      split; [eapply grows_trans; [eapply grows_trans|]; eassumption|].
      split; [calls_solve (calls_app _ _ _ _ _ _ _ _ _ _ _ _
                       (calls_app _ _ _ _ _ _ _ _ _ _ _ _ C1 C2) C3)|].
      split; [exact Hnr|]. do 2 (split; [lia|]).
      split; [left; eapply same_listener_trans; eassumption|discriminate]. }
  destruct L3 as (P2 & _ & -> & P3 & A3 & _).
  assert (Hstart : forall w4, same_listener w3 w4 ->
            port w = None /\ port w4 = Some (servers w)
            /\ authServer (this w4) = Some (servers w)).
  { intros w4 (Hp & _ & Ha). destruct L12 as (Hp12 & Hs12 & _).
    rewrite Hp, Ha, P3, A3, Hs12. rewrite <- Hp12, P2. tauto. }
  unfold bind at 1.
  destruct (performAuthorizationCodeFlow out w3) as [[[]|e] w4] eqn:E4;
    apply performAuthorizationCodeFlow_effects in E4 as (d4 & ne & G4 & C4 & Hne & L4 & Hok).
  2:{ unfold throw. intros [= <- <-]. exists (((d1 ++ d2) ++ d3) ++ d4), nr, 1%nat, ne.
      split; [eapply grows_trans; [eapply grows_trans; [eapply grows_trans|]|]; eassumption|].
      split; [calls_solve (calls_app _ _ _ _ _ _ _ _ _ _ _ _
                       (calls_app _ _ _ _ _ _ _ _ _ _ _ _
                          (calls_app _ _ _ _ _ _ _ _ _ _ _ _ C1 C2) C3) C4)|].
      split; [exact Hnr|]. split; [lia|]. split; [exact Hne|].
      split; [right; apply Hstart; exact L4|discriminate]. }
  unfold modify. intros [= <- <-]. exists (((d1 ++ d2) ++ d3) ++ d4), nr, 1%nat, ne.
  split.
  { assert (G : grows (((d1 ++ d2) ++ d3) ++ d4) w w4)
      by (eapply grows_trans; [eapply grows_trans; [eapply grows_trans|]|]; eassumption).
    revert G. unfold grows. cbn. trivial. }
  split; [calls_solve (calls_app _ _ _ _ _ _ _ _ _ _ _ _
                   (calls_app _ _ _ _ _ _ _ _ _ _ _ _
                      (calls_app _ _ _ _ _ _ _ _ _ _ _ _ C1 C2) C3) C4)|].
  split; [exact Hnr|]. split; [lia|]. split; [exact Hne|].
  destruct (Hstart w4 L4) as (Q1 & Q2 & Q3).
  split; [right; cbn; tauto|].
  intros _. split; [apply Hd1; reflexivity|]. split; [reflexivity|].
  split; [apply Hok; reflexivity|]. cbn. tauto.
Qed.

(** [ensureAuthenticated] when the store has no access token and no
    promise is registered: the flow runs between the registration of its
    promise and the removal of it. *)
Lemma ensureAuthenticated_starts out w :
  truthy_opt (record (tokens_json (disk w) !! tokenPath w (serverUrlHash (this w)))
                ≫= access_token) = false ->
  authenticationPromise (this w) = None ->
  ensureAuthenticated out w
  = let w0 := set_this (set_authenticationPromise (Some (promises w)))
                (set_promises (S (promises w))
                   (emit_effect (FsRead (tokenPath w (serverUrlHash (this w)))) w)) in
    let '(r, w1) := _performAuthentication out w0 in
    (r, set_this (set_authenticationPromise None) w1).
Proof.
  intros Ht Hp. unfold ensureAuthenticated, newPromise, hash. run.
  rewrite Ht. run. rewrite Hp. run.
  destruct (_performAuthentication out _) as [r w1]. reflexivity.
Qed.

Lemma ensureAuthenticated_shortcut out w :
  truthy_opt (record (tokens_json (disk w) !! tokenPath w (serverUrlHash (this w)))
                ≫= access_token) = true ->
  ensureAuthenticated out w
  = (Ok tt, emit_effect (FsRead (tokenPath w (serverUrlHash (this w)))) w).
Proof.
  intros Ht. unfold ensureAuthenticated, hash. run. rewrite Ht. reflexivity.
Qed.

(** ** The listener and the flow *)

(** C2 as stated fails: when no redirect arrives and the timer fires, the
    flow ends with the timeout error and the listener it started is still
    listening; no server was closed. *)
Lemma C2_timeout_leaves_listener_listening :
  let '(r, w') := ensureAuthenticated (Example.outside []) Example.world in
  r = Throw (newError "Authentication timeout")
  /\ port Example.world = None
  /\ port w' = Some 0%nat
  /\ authServer (this w') = Some 0%nat
  /\ count is_bind (trace w') = 1%nat
  /\ count is_close (trace w') = 0%nat.
Proof. vm_compute. repeat split; reflexivity. Qed.

Lemma cleanup_run w server :
  authServer (this w) = Some server -> port w = Some server ->
  cleanup w
  = (Ok tt, set_this (set_onceListeners [])
              (set_port None (emit_effect (CloseServer server) w))).
Proof.
  intros Ha Hp. unfold cleanup, OAuthServer.close. run. rewrite Ha. run. rewrite Hp.
  rewrite decide_True by reflexivity. reflexivity.
Qed.

(** C2, amended. The flow never stops the callback listener: no call of
    [_performAuthentication] closes a server, and the listener is after it
    as before it, or started by it and listening. When the attempt has
    started the listener, then however it leaves the wait for the redirect
    and completes (a code and the exchange, an authorization error, the
    timeout, or a failure on the way), the listener is still listening
    when it completes; [cleanup], called by the user of the provider, is
    what stops it: it closes that server once and removes all event
    listeners. *)
Theorem C2_listener_outlives_the_flow
    (w : World) (out : Outside) :
  (forall r w',
     _performAuthentication out w = (r, w') ->
     count is_close (trace w') = count is_close (trace w)
     /\ listener_kept_or_started w w')
  /\ (forall server w1,
        initializeAuth (listen out) w = (Ok server, w1) ->
        forall r w2,
          performAuthorizationCodeFlow out w1 = (r, w2) ->
          (port w2 = Some server /\ authServer (this w2) = Some server
           /\ count is_close (trace w2) = count is_close (trace w))
          /\ (exists w3,
                cleanup w2 = (Ok tt, w3) /\ port w3 = None
                /\ onceListeners (this w3) = []
                /\ count is_close (trace w3) = S (count is_close (trace w2)))).
Proof.
  split.
  { intros r w' E.
    apply _performAuthentication_effects in E as (d & nr & nb & ne & (T & _) & C & _ & _ & _ & L & _).
    split; [|exact L]. rewrite T, count_app. revert C. unfold calls. intros [= _ _ _ _ ->]. lia. }
  intros server w1 E1 r w2 E2.
  apply initializeAuth_effects in E1 as (d1 & G1 & C1 & _ & _ & _ & _ & P1 & A1 & _).
  apply performAuthorizationCodeFlow_effects in E2 as (d2 & n & G2 & C2 & _ & (P2 & _ & A2) & _).
  assert (Hp : port w2 = Some server) by congruence.
  assert (Ha : authServer (this w2) = Some server) by congruence.
  split.
  - split; [exact Hp|]. split; [exact Ha|].
    destruct G1 as (T1 & _), G2 as (T2 & _). rewrite T2, T1, !count_app.
    revert C1 C2. unfold calls. intros [= _ _ _ _ ->] [= _ _ _ _ ->]. lia.
  - eexists. rewrite (cleanup_run _ _ Ha Hp).
    split; [reflexivity|]. split; [reflexivity|]. split; [reflexivity|].
    cbn. count_solve.
Qed.

(** ** The token read path and the shortcut *)

(** C4 as stated fails: while an authentication promise is registered on
    the instance (here an attempt is discovering), [tokens()] returns
    [undefined] although a token set with an access token is in the store
    (here saved through [saveTokens] in the meantime). *)
Lemma C4_tokens_undefined_during_flow :
  match EventLoop.exec [EventLoop.Call; EventLoop.Read 0; EventLoop.Resume 0]
          (EventLoop.idle Example.world) with
  | Some s =>
      let w := snd (saveTokens Example.issued (EventLoop.world s)) in
      storedTokens w = Some Example.issued
      /\ access_token Example.issued = Some "access-1"
      /\ authenticationPromise (this w) = Some 0%nat
      /\ tokens (Example.outside Example.consent) w = (Ok None, w)
  | None => False
  end.
Proof. vm_compute. repeat split; reflexivity. Qed.

(** C4, amended. Whenever the store holds a token set with an access
    token (a non-empty one), [ensureAuthenticated] returns normally having
    only read the store: no discovery, no registration, no bind, no token
    request; and, when no authentication promise is registered on the
    instance, [tokens()] returns that token set, again having only read
    the store. *)
Theorem C4_already_authenticated_shortcut
    (w : World) (out : Outside) (t : OAuthTokens) :
  storedTokens w = Some t -> truthy_opt (access_token t) = true ->
  ensureAuthenticated out w = (Ok tt, readTokens w)
  /\ (authenticationPromise (this w) = None ->
      tokens out w = (Ok (Some t), readTokens w))
  /\ calls (trace (readTokens w)) = calls (trace w).
Proof.
  intros Hs Ha. unfold storedTokens in Hs. split; [|split].
  - apply ensureAuthenticated_shortcut. rewrite Hs. exact Ha.
  - intros Hp. unfold tokens, hash, opts. run. rewrite Hp. run. rewrite Hs. reflexivity.
  - unfold readTokens, calls. cbn. rewrite !count_app. unfold count. cbn.
    rewrite !Nat.add_0_r. reflexivity.
Qed.

(** C3 as stated fails: on an instance that has completed a flow once
    ([authInitialized]), with auto-authenticate enabled, nothing in
    progress and no token set in the store (the tokens were invalidated),
    [tokens()] returns [undefined] and drives nothing, although the flow,
    had it been driven, would have succeeded. *)
Lemma C3_no_flow_after_a_completed_one :
  let out := Example.outside Example.consent in
  let w1 := snd (ensureAuthenticated out Example.world) in
  let w2 := snd (cleanup w1) in
  let w3 := snd (invalidateCredentials Scope.tokens w2) in
  storedTokens w3 = None
  /\ autoAuthenticate (options (this w3)) = Some true
  /\ authenticationPromise (this w3) = None
  /\ authInitialized (this w3) = true
  /\ fst (tokens out w3) = Ok None
  /\ calls (trace (snd (tokens out w3))) = calls (trace w3)
  /\ fst (ensureAuthenticated out w3) = Ok tt.
Proof. vm_compute. repeat split; reflexivity. Qed.

Lemma _performAuthentication_invalid out w :
  discoverable w = false -> _performAuthentication out w = (Throw invalid_url, w).
Proof.
  intros H. unfold _performAuthentication, try_catch. unfold bind at 1.
  rewrite (discoverOAuthEndpoints_invalid _ _ H). reflexivity.
Qed.

(** C3, amended. [tokens()] returns [undefined], and does nothing, when an
    authentication promise is registered on the instance; otherwise it
    reads the store and returns the token set stored, if there is one;
    otherwise, when auto-authenticate is enabled and no flow has completed
    on this instance yet, it runs [ensureAuthenticated], and then returns
    what the store holds after it, or throws what the flow threw; otherwise
    it returns [undefined]. The flow that [ensureAuthenticated] runs there
    begins with the discovery request, which it sends when the server URL
    parses; when it does not, the flow throws [TypeError: Invalid URL]
    and nothing is sent. *)
Theorem C3_token_read_path (w : World) (out : Outside) :
  match authenticationPromise (this w) with
  | Some _ => tokens out w = (Ok None, w)
  | None =>
      match storedTokens w with
      | Some t => tokens out w = (Ok (Some t), readTokens w)
      | None =>
          match autoAuthenticate (options (this w)), authInitialized (this w) with
          | Some true, false =>
              let '(r, w1) := ensureAuthenticated out (readTokens w) in
              (if discoverable w
               then count is_discovery (trace w1) = S (count is_discovery (trace w))
               else count is_discovery (trace w1) = count is_discovery (trace w)
                    /\ r = Throw invalid_url)
              /\ match r with
                 | Ok _ => tokens out w = (Ok (storedTokens w1), readTokens w1)
                 | Throw e => tokens out w = (Throw e, w1)
                 end
          | _, _ => tokens out w = (Ok None, readTokens w)
          end
      end
  end.
Proof.
  unfold storedTokens, readTokens.
  destruct (authenticationPromise (this w)) as [p|] eqn:Hp.
  { unfold tokens. run. rewrite Hp. reflexivity. }
  destruct (record _) as [t|] eqn:Hs.
  { unfold tokens, hash, opts. run. rewrite Hp. run. rewrite Hs. reflexivity. }
  destruct (autoAuthenticate (options (this w))) as [[|]|] eqn:Hauto;
    [destruct (authInitialized (this w)) eqn:Hinit| |];
    try (unfold tokens, hash, opts; run; rewrite Hp; run; rewrite Hs, Hauto, ?Hinit;
         reflexivity).
  set (w0 := emit_effect _ w).
  destruct (ensureAuthenticated out w0) as [r w1] eqn:E.
  pose proof E as E'. rewrite ensureAuthenticated_starts in E'.
  2:{ subst w0. cbn. unfold tokenPath in *. cbn. rewrite Hs. reflexivity. }
  2:{ exact Hp. }
  cbv zeta in E'.
  destruct (_performAuthentication out _) as [r' w1'] eqn:F. injection E' as <- <-.
  pose proof F as F'.
  apply _performAuthentication_effects in F
    as (d & nr & nb & ne & (T & _ & _ & Hh & Hd & _) & C & _).
  change (discoverable _) with (discoverable w) in C.
  cbn in T, Hh, Hd. split.
  - destruct (discoverable w) eqn:Hdisc.
    + cbn. rewrite T, !count_app. revert C. unfold calls. intros [= -> _ _ _ _].
      unfold count. cbn. lia.
    + split.
      * cbn. rewrite T, !count_app. revert C. unfold calls. intros [= -> _ _ _ _].
        unfold count. cbn. lia.
      * rewrite _performAuthentication_invalid in F' by exact Hdisc. congruence.
  - unfold tokens, hash, opts. run. rewrite Hp. run. rewrite Hs, Hauto, Hinit.
    run. fold w0. rewrite E.
    destruct r' as [[]|e]; run; unfold tokenPath; cbn; rewrite ?Hh; reflexivity.
Qed.

(** ** Single flight *)

Import EventLoop SingleFlight.

Lemma filter_insert_length {A} (f : A -> bool) (l : list A) i x y :
  l !! i = Some x ->
  (length (List.filter f (<[i:=y]> l)) + Nat.b2n (f x)
   = length (List.filter f l) + Nat.b2n (f y))%nat.
Proof.
  revert i. induction l as [|a l IH]; intros [|i] H; simplify_eq/=.
  - destruct (f x), (f y); cbn; lia.
  - specialize (IH i H). destruct (f a); cbn; lia.
Qed.

Lemma sum_list_with_insert {A} (g : A -> nat) (l : list A) i x y :
  l !! i = Some x ->
  (sum_list_with g (<[i:=y]> l) + g x = sum_list_with g l + g y)%nat.
Proof.
  revert i. induction l as [|a l IH]; intros [|i] H; simplify_eq/=.
  - lia.
  - specialize (IH i H). lia.
Qed.

Lemma credits_le k s : (credits k s <= length (attempts s))%nat.
Proof.
  unfold credits. induction (attempts s) as [|a l IH]; cbn; [lia|].
  unfold credit at 1. destruct (decide _); lia.
Qed.

Lemma count_grows f d w w' :
  grows d w w' -> count f (trace w') = (count f (trace w) + count f d)%nat.
Proof. intros (-> & _). apply count_app. Qed.

Lemma advance_effects stage a m w r w' :
  advance stage a = Some m -> m w = (r, w') ->
  exists d,
    grows d w w'
    /\ (count is_discovery d + credit 1 (Pending stage) <= credit 1 (settle r))%nat
    /\ (count is_registration d + credit 2 (Pending stage) <= credit 2 (settle r))%nat
    /\ (count is_bind d + credit 3 (Pending stage) <= credit 3 (settle r))%nat
    /\ (count is_exchange d + credit 6 (Pending stage) <= credit 6 (settle r))%nat
    /\ count is_close d = 0%nat
    /\ (owed 1 (settle r) <= count is_discovery d + owed 1 (Pending stage))%nat
    /\ (owed 3 (settle r) <= count is_bind d + owed 3 (Pending stage))%nat
    /\ (owed 6 (settle r) <= count is_exchange d + owed 6 (Pending stage))%nat.
Proof.
  destruct stage, a; cbn; try discriminate; intros [= <-]; unfold bind at 1.
  - destruct (discoverOAuthEndpoints _ w) as [[[]|e] w1] eqn:E;
      apply discoverOAuthEndpoints_effects in E as (d & G & C & _ & _ & Hok);
      intros [= <- <-]; exists d; (split; [exact G|]);
      try rewrite (Hok eq_refl) in C;
      revert C; unfold calls; intros [= -> -> -> -> ->];
      unfold owed, credit; cbn; repeat case_decide; try destruct (discoverable w); cbn; lia.
  - destruct (registerClient _ w) as [[[]|e] w1] eqn:E;
      apply registerClient_effects in E as (d & n & G & C & Hn & _);
      intros [= <- <-]; exists d; (split; [exact G|]);
      revert C; unfold calls; intros [= -> -> -> -> ->];
      unfold owed, credit; cbn; repeat case_decide; lia.
  - destruct (initializeAuth _ w) as [[server|e] w1] eqn:E;
      apply initializeAuth_effects in E as (d & G & C & _);
      intros [= <- <-]; exists d; (split; [exact G|]);
      revert C; unfold calls; intros [= -> -> -> -> ->];
      unfold owed, credit; cbn; repeat case_decide; lia.
  - destruct (requestAuthorization _ _ w) as [[pkce|e] w1] eqn:E;
      apply requestAuthorization_effects in E as (d & G & C & _);
      intros [= <- <-]; exists d; (split; [exact G|]);
      revert C; unfold calls; intros [= -> -> -> -> ->];
      unfold owed, credit; cbn; repeat case_decide; lia.
  - destruct (waitForAuthCode _ w) as [[code|e] w1] eqn:E;
      apply waitForAuthCode_effects in E as (d & G & C & _);
      intros [= <- <-]; exists d; (split; [exact G|]);
      revert C; unfold calls; intros [= -> -> -> -> ->];
      unfold owed, credit; cbn; repeat case_decide; lia.
  - destruct (exchangeCodeForTokens _ _ _ w) as [[[]|e] w1] eqn:E;
      pose proof E as E';
      apply exchangeCodeForTokens_effects in E as (d & n & G & C & Hn & _);
      cbn; intros [= <- <-]; exists d;
      (split; [revert G; unfold grows; cbn; trivial|]);
      try (apply exchangeCodeForTokens_posts in E';
           rewrite (count_grows _ _ _ _ G) in E');
      revert C; unfold calls; intros [= HC1 HC2 HC3 HC4 HC5];
      rewrite ?HC1, ?HC2, ?HC3, ?HC5;
      unfold owed, credit; cbn; repeat case_decide; lia.
Qed.

#[global] Arguments credits : simpl never.
#[global] Arguments owes : simpl never.

Lemma inv_idle w : authenticationPromise (this w) = None -> SingleFlightInv w (idle w).
Proof.
  intros Hp. split; cbn; try (intros; simplify_eq/=; fail); try reflexivity;
    try (unfold credits, owes; cbn; lia).
  - intros i p r [H|H]; simplify_eq/=.
Qed.

Ltac lookups :=
  repeat match goal with
  | H : (_ ++ [_]) !! _ = Some _ |- _ =>
      apply lookup_snoc_Some in H as [[? H]|[? H]]
  | H : <[_:=_]> _ !! _ = Some _ |- _ =>
      apply list_lookup_insert_Some in H as [(? & ? & ?)|[? H]]
  end; simplify_eq/=.

Lemma inv_call w0 s :
  SingleFlightInv w0 s ->
  SingleFlightInv w0 (mkSys (world s) (attempts s) (tasks s ++ [Reading])).
Proof.
  intros [I1 I2 I3 I4 I5 I6 I7 I8 I9 I10 I13 I14 I15 I11 I12]. split; cbn; try assumption.
  - intros i p H. lookups. eapply I2; eassumption.
  - intros i j p q Hi Hj. lookups. eapply I3; eassumption.
  - intros i p r [H|H]; lookups; eapply I4; eauto.
  - unfold starters in *. cbn. rewrite List.filter_app, length_app. cbn. lia.
  - intros i p H. lookups. eapply I12; eassumption.
Qed.

Lemma count_snoc_other f t e : f e = false -> count f (t ++ [e]) = count f t.
Proof. intros H. rewrite count_app. unfold count. cbn. rewrite H. cbn. lia. Qed.

Lemma inv_read w0 s i :
  SingleFlightInv w0 s ->
  tasks s !! i = Some Reading ->
  SingleFlightInv w0
    (mkSys (emit_effect (FsRead (tokenPath (world s) (serverUrlHash (this (world s)))))
              (world s))
           (attempts s)
           (<[i := ReadDone (storedTokens (world s))]> (tasks s))).
Proof.
  intros [I1 I2 I3 I4 I5 I6 I7 I8 I9 I10 I13 I14 I15 I11 I12] Hi. split; cbn;
    rewrite ?count_snoc_other by reflexivity; try assumption.
  - intros j p H. lookups. eapply I2; eassumption.
  - intros j k p q Hj Hk. lookups. eapply I3; eassumption.
  - intros j p r [H|H]; lookups; eapply I4; eauto.
  - unfold starters in *. cbn.
    pose proof (filter_insert_length started _ _ _ (ReadDone (storedTokens (world s))) Hi).
    cbn in *. lia.
  - intros j p H. lookups. eapply I12; eassumption.
Qed.

Lemma credit_snoc k (l : list Attempt) :
  (1 <= k)%nat ->
  sum_list_with (credit k) (l ++ [Pending Discovering]) = sum_list_with (credit k) l.
Proof.
  intros Hk. rewrite sum_list_with_app. cbn.
  unfold credit. cbn. case_decide; lia.
Qed.

Lemma owed_snoc k (l : list Attempt) :
  (1 <= k)%nat ->
  sum_list_with (owed k) (l ++ [Pending Discovering]) = sum_list_with (owed k) l.
Proof.
  intros Hk. rewrite sum_list_with_app. cbn.
  unfold credit. cbn. case_decide; lia.
Qed.

Lemma inv_resume w0 s i existing :
  SingleFlightInv w0 s ->
  tasks s !! i = Some (ReadDone existing) ->
  SingleFlightInv w0
    (let '(s', t) := resume existing s in
     mkSys (world s') (attempts s') (<[i := t]> (tasks s'))).
Proof.
  intros [I1 I2 I3 I4 I5 I6 I7 I8 I9 I10 I13 I14 I15 I11 I12] Hi. unfold resume.
  destruct (truthy_opt _).
  { split; cbn; try assumption.
    - intros j p H. lookups. eapply I2; eassumption.
    - intros j k p q Hj Hk. lookups. eapply I3; eassumption.
    - intros j p r [H|H]; lookups; eapply I4; eauto.
    - unfold starters in *. cbn.
      pose proof (filter_insert_length started _ _ _ (Returned Shortcut (Ok tt)) Hi).
      cbn in *. lia.
    - intros j p H. lookups. eapply I12; eassumption. }
  destruct (authenticationPromise (this (world s))) as [p0|] eqn:Hreg.
  { split; cbn; rewrite ?Hreg; try assumption.
    - intros j p H. lookups. eapply I2; eassumption.
    - intros j k p q Hj Hk. lookups. eapply I3; eassumption.
    - intros j p r [H|H]; lookups; eapply I4; eauto.
    - unfold starters in *. cbn.
      pose proof (filter_insert_length started _ _ _ (AwaitingShared p0) Hi).
      cbn in *. lia.
    - intros j p H. lookups; [apply I11; reflexivity|eapply I12; eassumption]. }
  split; unfold credits, owes in *; cbn; rewrite ?credit_snoc, ?owed_snoc by lia;
    try assumption.
  - intros p stage H. lookups; [|reflexivity].
    apply I1 in H. congruence.
  - intros j p H. lookups; [reflexivity|].
    apply I2 in H. congruence.
  - intros j k p q Hj Hk. lookups; try reflexivity; exfalso;
      match goal with
      | H : tasks s !! _ = Some (AwaitingOwn _) |- _ => apply I2 in H; congruence
      end.
  - intros j p r [H|H]; lookups; rewrite lookup_app_l; eauto;
      eapply lookup_lt_Some; eauto.
  - unfold starters in *. cbn. rewrite length_app. cbn.
    pose proof (filter_insert_length started _ _ _ (AwaitingOwn (length (attempts s))) Hi).
    cbn in *. lia.
  - intros p [= <-]. rewrite length_app. cbn. lia.
  - intros j p H. lookups. apply I12 in H. rewrite length_app. lia.
Qed.

Lemma inv_advance w0 s p stage a m r w :
  SingleFlightInv w0 s ->
  attempts s !! p = Some (Pending stage) ->
  advance stage a = Some m ->
  m (world s) = (r, w) ->
  SingleFlightInv w0 (mkSys w (<[p := settle r]> (attempts s)) (tasks s)).
Proof.
  intros [I1 I2 I3 I4 I5 I6 I7 I8 I9 I10 I13 I14 I15 I11 I12] Hp Ha Hm.
  destruct (advance_effects _ _ _ _ _ _ Ha Hm)
    as (d & (T & Hreg & _) & C1 & C2 & C3 & C6 & Cc & M1 & M3 & M6).
  pose proof (sum_list_with_insert (credit 1) _ _ _ (settle r) Hp) as S1.
  pose proof (sum_list_with_insert (credit 2) _ _ _ (settle r) Hp) as S2.
  pose proof (sum_list_with_insert (credit 3) _ _ _ (settle r) Hp) as S3.
  pose proof (sum_list_with_insert (credit 6) _ _ _ (settle r) Hp) as S6.
  pose proof (sum_list_with_insert (owed 1) _ _ _ (settle r) Hp) as O1.
  pose proof (sum_list_with_insert (owed 3) _ _ _ (settle r) Hp) as O3.
  pose proof (sum_list_with_insert (owed 6) _ _ _ (settle r) Hp) as O6.
  split; unfold credits, owes in *; cbn; rewrite ?Hreg, ?T, ?count_app; try assumption;
    try lia.
  - intros q st H. lookups; [|eapply I1; eassumption].
    eapply I1; eassumption.
  - intros i q r0 H. apply I4 in H.
    rewrite list_lookup_insert_ne; [exact H|]. intros ->. congruence.
  - rewrite length_insert. exact I5.
  - intros q H. rewrite length_insert. apply I11. congruence.
  - intros j q H. rewrite length_insert. eapply I12; eassumption.
Qed.

Lemma inv_finish_own w0 s i p outcome :
  SingleFlightInv w0 s ->
  tasks s !! i = Some (AwaitingOwn p) ->
  attempts s !! p = Some (Settled outcome) ->
  SingleFlightInv w0
    (mkSys (set_this (set_authenticationPromise None) (world s)) (attempts s)
           (<[i := Returned (Own p) outcome]> (tasks s))).
Proof.
  intros [I1 I2 I3 I4 I5 I6 I7 I8 I9 I10 I13 I14 I15 I11 I12] Hi Hp.
  split; unfold credits, owes in *; cbn; try assumption.
  - intros q st H. exfalso. pose proof (I1 _ _ H). pose proof (I2 _ _ Hi). congruence.
  - intros j q H. lookups. exfalso.
    match goal with Hne : i <> j |- _ => apply Hne end. eapply I3; eassumption.
  - intros j k q q' Hj Hk. lookups. eapply I3; eassumption.
  - intros j q r [H|H]; lookups; try assumption; eapply I4; eauto.
  - unfold starters in *. cbn.
    pose proof (filter_insert_length started _ _ _ (Returned (Own p) outcome) Hi).
    cbn in *. lia.
  - intros q H. discriminate H.
  - intros j q H. lookups. eapply I12; eassumption.
Qed.

Lemma inv_finish_shared w0 s i p outcome :
  SingleFlightInv w0 s ->
  tasks s !! i = Some (AwaitingShared p) ->
  attempts s !! p = Some (Settled outcome) ->
  SingleFlightInv w0
    (mkSys (world s) (attempts s) (<[i := Returned (Shared p) outcome]> (tasks s))).
Proof.
  intros [I1 I2 I3 I4 I5 I6 I7 I8 I9 I10 I13 I14 I15 I11 I12] Hi Hp.
  split; unfold credits, owes in *; cbn; try assumption.
  - intros j q H. lookups. eapply I2; eassumption.
  - intros j k q q' Hj Hk. lookups. eapply I3; eassumption.
  - intros j q r [H|H]; lookups; try assumption; eapply I4; eauto.
  - unfold starters in *. cbn.
    pose proof (filter_insert_length started _ _ _ (Returned (Shared p) outcome) Hi).
    cbn in *. lia.
  - intros j q H. lookups. eapply I12; eassumption.
Qed.

Lemma inv_stored w0 s d :
  SingleFlightInv w0 s ->
  SingleFlightInv w0 (mkSys (set_disk (fun _ => d) (world s)) (attempts s) (tasks s)).
Proof.
  intros [I1 I2 I3 I4 I5 I6 I7 I8 I9 I10 I13 I14 I15 I11 I12]. split; assumption.
Qed.

Lemma inv_step w0 l s s' :
  SingleFlightInv w0 s -> step l s = Some s' -> SingleFlightInv w0 s'.
Proof.
  intros I. destruct l as [|i|i|p a|i|d]; cbn.
  - intros [= <-]. apply inv_call, I.
  - destruct (tasks s !! i) as [[]|] eqn:Hi; try discriminate.
    rewrite getTokens_run. intros [= <-]. apply inv_read; assumption.
  - destruct (tasks s !! i) as [[]|] eqn:Hi; try discriminate.
    pose proof (inv_resume w0 s i _ I Hi) as I'.
    destruct (resume _ s) as [s1 t]. intros [= <-]. exact I'.
  - destruct (attempts s !! p) as [[stage|]|] eqn:Hp; try discriminate.
    destruct (advance stage a) as [m|] eqn:Ha; try discriminate.
    destruct (m (world s)) as [r w] eqn:Hm. intros [= <-].
    eapply inv_advance; eassumption.
  - destruct (tasks s !! i) as [[| |p|p|]|] eqn:Hi; try discriminate;
      destruct (attempts s !! p) as [[|outcome]|] eqn:Hp; try discriminate;
      intros [= <-].
    + apply inv_finish_own; assumption.
    + apply inv_finish_shared; assumption.
  - intros [= <-]. apply inv_stored, I.
Qed.

Lemma inv_exec w0 ls s s' :
  SingleFlightInv w0 s -> exec ls s = Some s' -> SingleFlightInv w0 s'.
Proof.
  revert s. induction ls as [|l ls IH]; intros s I; cbn.
  - intros [= <-]. exact I.
  - destruct (step l s) as [s1|] eqn:E; [|discriminate].
    apply IH. eapply inv_step; eassumption.
Qed.

Lemma inv_reachable w s :
  authenticationPromise (this w) = None -> reachable w s -> SingleFlightInv w s.
Proof. intros Hp [ls H]. eapply inv_exec; [apply inv_idle, Hp|exact H]. Qed.

Lemma filter_none {A} (f : A -> bool) (l : list A) :
  (forall i a, l !! i = Some a -> f a = false) -> List.filter f l = [].
Proof.
  induction l as [|x l IH]; intros H; [reflexivity|]. cbn.
  rewrite (H 0%nat x eq_refl). apply IH. intros i a Hi. exact (H (S i) a Hi).
Qed.

Lemma filter_at_most_one {A} (f : A -> bool) (l : list A) :
  (forall i j a b, l !! i = Some a -> l !! j = Some b ->
                   f a = true -> f b = true -> i = j) ->
  (length (List.filter f l) <= 1)%nat.
Proof.
  induction l as [|x l IH]; intros H; cbn; [lia|].
  destruct (f x) eqn:Hx.
  - rewrite filter_none; [cbn; lia|].
    intros i a Hi. destruct (f a) eqn:Ha; [|reflexivity].
    discriminate (H 0%nat (S i) x a eq_refl Hi Hx Ha).
  - apply IH. intros i j a b Hi Hj Ha Hb.
    injection (H (S i) (S j) a b Hi Hj Ha Hb). trivial.
Qed.

Lemma starters_split (l : list Task) :
  length (List.filter started l)
  = (length (List.filter awaiting_own l) + length (List.filter returned_own l))%nat.
Proof.
  induction l as [|t l IH]; [reflexivity|].
  destruct t as [| | | |[]]; cbn; lia.
Qed.

Lemma in_flight_at_most_one w0 s : SingleFlightInv w0 s -> (length (in_flight s) <= 1)%nat.
Proof.
  intros I. apply filter_at_most_one. intros i j [st|] [st'|] Hi Hj; try discriminate.
  intros _ _. apply (inv_pending _ _ I) in Hi, Hj. congruence.
Qed.

Lemma attempts_bounded_by_cleared w0 s :
  SingleFlightInv w0 s -> (length (attempts s) <= S (cleared_by s))%nat.
Proof.
  intros I. rewrite <- (inv_starters _ _ I). unfold starters, cleared_by.
  rewrite starters_split.
  assert (length (List.filter awaiting_own (tasks s)) <= 1)%nat; [|lia].
  apply filter_at_most_one. intros i j a b Hi Hj Ha Hb.
  destruct a, b; try discriminate. eapply (inv_owner_unique _ _ I); eassumption.
Qed.

(** No attempt is in progress while no promise is registered. *)
Lemma in_flight_none w0 s :
  SingleFlightInv w0 s -> authenticationPromise (this (world s)) = None -> in_flight s = [].
Proof.
  intros I Hp. apply filter_none. intros i [stage|outcome] Hi; [|reflexivity].
  apply (inv_pending _ _ I) in Hi. congruence.
Qed.

Lemma credits_succeeded k s :
  (1 <= k <= 6)%nat -> Forall succeeded (attempts s) ->
  credits k s = length (attempts s) /\ owes k s = length (attempts s).
Proof.
  intros Hk. unfold credits, owes.
  induction 1 as [|a l Ha _ [IH1 IH2]]; [split; reflexivity|].
  cbn [sum_list_with length]. rewrite IH1, IH2, Ha. unfold owed, credit. cbn.
  rewrite decide_True by lia. split; reflexivity.
Qed.




(** ** One caller on the event loop *)

Lemma exec_app l1 l2 s :
  exec (l1 ++ l2) s = match exec l1 s with Some s' => exec l2 s' | None => None end.
Proof.
  revert s. induction l1 as [|l l1 IH]; intros s; cbn; [reflexivity|].
  destruct (step l s); [apply IH|reflexivity].
Qed.

Lemma step_advance_solo w stage a m r w' ts :
  advance stage a = Some m -> m w = (r, w') ->
  step (Advance 0 a) (mkSys w [Pending stage] ts) = Some (mkSys w' [settle r] ts).
Proof. intros Ha Hm. cbn. rewrite Ha, Hm. reflexivity. Qed.

(** From any stage, the attempt can run to its end on the event loop, and
    ends as what is left of the method ends. *)
Lemma rest_exec out ts stage w :
  exists ls,
    exec ls (mkSys w [Pending stage] ts)
    = Some (mkSys (snd (Solo.rest out stage w)) [Settled (fst (Solo.rest out stage w))] ts).
Proof.
  assert (H6 : forall code v w, exists ls,
             exec ls (mkSys w [Pending (ExchangingCode code v)] ts)
             = Some (mkSys (snd (Solo.rest out (ExchangingCode code v) w))
                           [Settled (fst (Solo.rest out (ExchangingCode code v) w))] ts)).
  { intros code v w1. exists [Advance 0%nat (Exchanged (token out))]. cbn.
    unfold bind, modify, ret.
    destruct (exchangeCodeForTokens code v (token out) w1) as [[[]|e] w2]; reflexivity. }
  assert (H5 : forall pkce w, exists ls,
             exec ls (mkSys w [Pending (AwaitingRedirect pkce)] ts)
             = Some (mkSys (snd (Solo.rest out (AwaitingRedirect pkce) w))
                           [Settled (fst (Solo.rest out (AwaitingRedirect pkce) w))] ts)).
  { intros pkce w1. cbn [Solo.rest]. unfold bind.
    destruct (waitForAuthCode (redirect out) w1) as [[code|e] w2] eqn:E.
    - destruct (H6 code (verifier pkce) w2) as [ls Hls].
      exists (Advance 0%nat (Redirected (redirect out)) :: ls). cbn [exec].
      erewrite step_advance_solo; [|reflexivity|unfold bind; rewrite E; reflexivity].
      exact Hls.
    - exists [Advance 0%nat (Redirected (redirect out))]. cbn [exec].
      erewrite step_advance_solo; [|reflexivity|unfold bind; rewrite E; reflexivity].
      reflexivity. }
  assert (H4 : forall w, exists ls,
             exec ls (mkSys w [Pending Authorizing] ts)
             = Some (mkSys (snd (Solo.rest out Authorizing w))
                           [Settled (fst (Solo.rest out Authorizing w))] ts)).
  { intros w1. cbn [Solo.rest]. unfold bind.
    destruct (requestAuthorization (randomBytes out) (browser out) w1)
      as [[pkce|e] w2] eqn:E.
    - destruct (H5 pkce w2) as [ls Hls].
      exists (Advance 0%nat (Launched (randomBytes out) (browser out)) :: ls). cbn [exec].
      erewrite step_advance_solo; [|reflexivity|unfold bind; rewrite E; reflexivity].
      exact Hls.
    - exists [Advance 0%nat (Launched (randomBytes out) (browser out))]. cbn [exec].
      erewrite step_advance_solo; [|reflexivity|unfold bind; rewrite E; reflexivity].
      reflexivity. }
  assert (H3 : forall w, exists ls,
             exec ls (mkSys w [Pending Binding] ts)
             = Some (mkSys (snd (Solo.rest out Binding w))
                           [Settled (fst (Solo.rest out Binding w))] ts)).
  { intros w1. cbn [Solo.rest]. unfold bind.
    destruct (initializeAuth (listen out) w1) as [[server|e] w2] eqn:E.
    - destruct (H4 w2) as [ls Hls].
      exists (Advance 0%nat (Bound (listen out)) :: ls). cbn [exec].
      erewrite step_advance_solo; [|reflexivity|unfold bind; rewrite E; reflexivity].
      exact Hls.
    - exists [Advance 0%nat (Bound (listen out))]. cbn [exec].
      erewrite step_advance_solo; [|reflexivity|unfold bind; rewrite E; reflexivity].
      reflexivity. }
  assert (H2 : forall w, exists ls,
             exec ls (mkSys w [Pending Registering] ts)
             = Some (mkSys (snd (Solo.rest out Registering w))
                           [Settled (fst (Solo.rest out Registering w))] ts)).
  { intros w1. cbn [Solo.rest]. unfold bind.
    destruct (registerClient (registration out) w1) as [[[]|e] w2] eqn:E.
    - destruct (H3 w2) as [ls Hls].
      exists (Advance 0%nat (Registered (registration out)) :: ls). cbn [exec].
      erewrite step_advance_solo; [|reflexivity|unfold bind; rewrite E; reflexivity].
      exact Hls.
    - exists [Advance 0%nat (Registered (registration out))]. cbn [exec].
      erewrite step_advance_solo; [|reflexivity|unfold bind; rewrite E; reflexivity].
      reflexivity. }
  destruct stage; auto.
  cbn [Solo.rest]. unfold bind.
  destruct (discoverOAuthEndpoints (discovery out) w) as [[[]|e] w2] eqn:E.
  - destruct (H2 w2) as [ls Hls].
    exists (Advance 0%nat (Discovered (discovery out)) :: ls). cbn [exec].
    erewrite step_advance_solo; [|reflexivity|unfold bind; rewrite E; reflexivity].
    exact Hls.
  - exists [Advance 0%nat (Discovered (discovery out))]. cbn [exec].
    erewrite step_advance_solo; [|reflexivity|unfold bind; rewrite E; reflexivity].
    reflexivity.
Qed.

Lemma _performAuthentication_rest out w :
  _performAuthentication out w = Solo.rest out Discovering w.
Proof.
  unfold _performAuthentication, performAuthorizationCodeFlow, Solo.rest, try_catch, throw, bind.
  destruct (discoverOAuthEndpoints _ w) as [[[]|?] w1]; [|reflexivity].
  destruct (registerClient _ w1) as [[[]|?] w2]; [|reflexivity].
  destruct (initializeAuth _ w2) as [[?|?] w3]; [|reflexivity].
  destruct (requestAuthorization _ _ w3) as [[?|?] w4]; [|reflexivity].
  destruct (waitForAuthCode _ w4) as [[?|?] w5]; [|reflexivity].
  destruct (exchangeCodeForTokens _ _ _ w5) as [[[]|?] w6]; [|reflexivity].
  destruct (modify _ w6) as [[[]|?] w7]; reflexivity.
Qed.

(** With one caller, the event loop does what the method does. *)
Theorem solo_call_agrees (out : Outside) (w : World) :
  authenticationPromise (this w) = None ->
  promises w = 0%nat ->
  exists ls atts via,
    exec ls (idle w)
    = Some (mkSys (snd (ensureAuthenticated out w)) atts
                  [Returned via (fst (ensureAuthenticated out w))]).
Proof.
  intros Hp H0.
  destruct (truthy_opt (storedTokens w ≫= access_token)) eqn:Ht.
  { rewrite ensureAuthenticated_shortcut by exact Ht.
    exists [Call; Read 0; Resume 0]%nat, [], Shortcut.
    cbn. rewrite getTokens_run. cbn. unfold resume. cbn.
    unfold storedTokens in Ht. rewrite Ht. reflexivity. }
  rewrite ensureAuthenticated_starts by assumption. cbv zeta. rewrite H0.
  rewrite _performAuthentication_rest.
  set (w0 := set_this _ _).
  destruct (rest_exec out [AwaitingOwn 0%nat] Discovering w0) as [ls Hls].
  destruct (Solo.rest out Discovering w0) as [r w1]. cbn [fst snd] in *.
  exists (([Call; Read 0; Resume 0]%nat ++ ls) ++ [Finish 0%nat]), [Settled r], (Own 0%nat).
  rewrite !exec_app.
  assert (E0 : exec [Call; Read 0; Resume 0]%nat (idle w)
               = Some (mkSys w0 [Pending Discovering] [AwaitingOwn 0%nat])).
  { cbn. rewrite getTokens_run. cbn. unfold resume. cbn.
    unfold storedTokens in Ht. rewrite Ht, Hp, H0. reflexivity. }
  rewrite E0, Hls. reflexivity.
Qed.

(** ** Witnesses and examples *)

Lemma C7_refresh_token_retention_witness :
  exists t w',
    refreshTokens "refresh-1" Example.refreshing Example.ready = (Ok t, w')
    /\ refresh_token t = Some "refresh-1".
Proof.
  destruct (C7_refresh_token_retention Example.ready "refresh-1" Example.refreshing
              Example.not_rotated eq_refl) as [Hret Hex].
  destruct (Hex Example.metadata Example.identity eq_refl eq_refl eq_refl) as (t & w' & E).
  exists t, w'. split; [exact E|].
  destruct (Hret t w' E) as [Homit _]. apply Homit. left. reflexivity.
Defined.

Lemma C10_redirect_uris_precondition_witness :
  fst (requestAuthorization (fun n => repeat x2a n) (Ok tt)
         (Example.ready_with Example.no_redirect_uris))
  = Throw (TypeError "Cannot read properties of undefined (reading '0')")
  /\ authorizes_with "undefined"
       (trace (snd (requestAuthorization (fun n => repeat x2a n) (Ok tt)
                      (Example.ready_with Example.no_redirect_uri))))
  /\ posts_with "https://as.example/token" "undefined"
       (trace (snd (exchangeCodeForTokens "abc123" "verifier" (Ok Example.issued)
                      (Example.ready_with Example.no_redirect_uri)))).
Proof.
  pose proof (C10_redirect_uris_precondition (Example.ready_with Example.no_redirect_uris)
                Example.metadata Example.no_redirect_uris (fun n => repeat x2a n)
                "abc123" "verifier" Example.issued eq_refl eq_refl eq_refl) as Habsent.
  pose proof (C10_redirect_uris_precondition (Example.ready_with Example.no_redirect_uri)
                Example.metadata Example.no_redirect_uri (fun n => repeat x2a n)
                "abc123" "verifier" Example.issued eq_refl eq_refl eq_refl) as Hempty.
  destruct (requestAuthorization _ _ (Example.ready_with Example.no_redirect_uris))
    as [r1 w1].
  destruct (exchangeCodeForTokens _ _ _ (Example.ready_with Example.no_redirect_uris))
    as [r2 w2].
  destruct (requestAuthorization _ _ (Example.ready_with Example.no_redirect_uri))
    as [r3 w3].
  destruct (exchangeCodeForTokens _ _ _ (Example.ready_with Example.no_redirect_uri))
    as [r4 w4].
  cbn in Habsent, Hempty.
  destruct Habsent as ((H1 & _) & _). destruct Hempty as ((_ & H3) & (_ & H4)).
  split; [exact H1|]. split; [exact H3|exact H4].
Defined.

Lemma C4_already_authenticated_shortcut_witness :
  ensureAuthenticated (Example.outside []) Example.authenticated
  = (Ok tt, readTokens Example.authenticated)
  /\ tokens (Example.outside []) Example.authenticated
     = (Ok (Some Example.issued), readTokens Example.authenticated).
Proof.
  assert (Hs : storedTokens Example.authenticated = Some Example.issued)
    by (vm_compute; reflexivity).
  destruct (C4_already_authenticated_shortcut Example.authenticated (Example.outside [])
              Example.issued Hs eq_refl) as (H1 & H2 & _).
  split; [exact H1|]. apply H2. vm_compute. reflexivity.
Defined.

Lemma C2_listener_outlives_the_flow_witness :
  let out := Example.outside Example.denial in
  let w1 := snd (initializeAuth (listen out) Example.ready) in
  let w2 := snd (performAuthorizationCodeFlow out w1) in
  fst (performAuthorizationCodeFlow out w1)
  = Throw (newError "Authentication error: access_denied")
  /\ port w2 = Some 0%nat
  /\ count is_close (trace w2) = count is_close (trace Example.ready).
Proof.
  intros out w1 w2.
  destruct (C2_listener_outlives_the_flow Example.ready out) as [_ H].
  assert (E1 : initializeAuth (listen out) Example.ready = (Ok 0%nat, w1))
    by (vm_compute; reflexivity).
  destruct (H 0%nat w1 E1 _ w2 (surjective_pairing _)) as ((Hp & _ & Hc) & _).
  split; [vm_compute; reflexivity|]. split; [exact Hp|exact Hc].
Defined.

Lemma C8_callback_listener_dispatch_witness :
  OAuthServer.requestListener "/oauth/callback"
    (ReqUrl "/oauth/callback" [("error", "access_denied")])
  = Ok (OAuthServer.mkReply
          (mkResponse 400 (Some "text/html") (OAuthServer.failed_page "access_denied"))
          (Some ("auth-error", "access_denied")))
  /\ OAuthServer.requestListener "/oauth/callback" (ReqUrl "/favicon.ico" [])
     = Ok (OAuthServer.mkReply (mkResponse 404 None "Not Found") None).
Proof.
  split.
  - destruct (C8_callback_listener_dispatch "/oauth/callback" "/oauth/callback"
                [("error", "access_denied")]) as [H _].
    destruct (H eq_refl) as [He _].
    apply (He "access_denied"). split; [reflexivity|discriminate].
  - destruct (C8_callback_listener_dispatch "/oauth/callback" "/favicon.ico" [])
      as (_ & H & _).
    apply H. discriminate.
Defined.

(** The event loop with one caller does what the method does. *)
Example solo_run_consent :
  let out := Example.outside Example.consent in
  exec [Call; Read 0; Resume 0;
        Advance 0 (Discovered (discovery out)); Advance 0 (Registered (registration out));
        Advance 0 (Bound (listen out)); Advance 0 (Launched (randomBytes out) (browser out));
        Advance 0 (Redirected (redirect out)); Advance 0 (Exchanged (token out));
        Finish 0]%nat (idle Example.world)
  = Some (mkSys (snd (ensureAuthenticated out Example.world))
                [Settled (fst (ensureAuthenticated out Example.world))]
                [Returned (Own 0) (fst (ensureAuthenticated out Example.world))]).
Proof. vm_compute. reflexivity. Qed.

Example solo_run_denial :
  let out := Example.outside Example.denial in
  exec [Call; Read 0; Resume 0;
        Advance 0 (Discovered (discovery out)); Advance 0 (Registered (registration out));
        Advance 0 (Bound (listen out)); Advance 0 (Launched (randomBytes out) (browser out));
        Advance 0 (Redirected (redirect out)); Finish 0]%nat (idle Example.world)
  = Some (mkSys (snd (ensureAuthenticated out Example.world))
                [Settled (fst (ensureAuthenticated out Example.world))]
                [Returned (Own 0) (fst (ensureAuthenticated out Example.world))]).
Proof. vm_compute. reflexivity. Qed.

(** Two concurrent calls, the second resumed while the flow of the first is
    in flight: one flow, one discovery, registration, bind and token
    request, and both calls return its outcome. *)
Example two_callers_share_one_flow :
  let s := Schedule.after Schedule.shared_flow in
  attempts s = [Settled (Ok tt)]
  /\ tasks s = [Returned (Own 0) (Ok tt); Returned (Shared 0) (Ok tt)]%nat
  /\ calls (trace (world s)) = (1, 1, 1, 1, 0)%nat
  /\ storedTokens (world s) = Some Example.issued.
Proof. vm_compute. repeat split; reflexivity. Qed.

Example solo_run_timeout :
  let out := Example.outside [] in
  exec [Call; Read 0; Resume 0;
        Advance 0 (Discovered (discovery out)); Advance 0 (Registered (registration out));
        Advance 0 (Bound (listen out)); Advance 0 (Launched (randomBytes out) (browser out));
        Advance 0 (Redirected (redirect out)); Finish 0]%nat (idle Example.world)
  = Some (mkSys (snd (ensureAuthenticated out Example.world))
                [Settled (fst (ensureAuthenticated out Example.world))]
                [Returned (Own 0) (fst (ensureAuthenticated out Example.world))]).
Proof. vm_compute. reflexivity. Qed.

(** * Further properties of the code

    Properties of the same embedding beyond the claims of the
    specification, numbered X1, X2, ... *)

(** ** [src/utils.ts] *)

Lemma hex_length (bs : list byte) : String.length (hex bs) = (2 * length bs)%nat.
Proof.
  unfold hex. rewrite string_of_list_ascii_length.
  induction bs as [|b bs IH]; [reflexivity|]. cbn [flat_map length app]. cbn. lia.
Qed.

Lemma hex_digit_is_hex (n : N) : is_hex_digit (hex_digit n) = true.
Proof.
  unfold hex_digit.
  destruct (N.to_nat n) as [|k]; [reflexivity|].
  do 15 (destruct k as [|k]; [reflexivity|]). reflexivity.
Qed.

Lemma hex_digits (bs : list byte) :
  Forall (fun c => is_hex_digit c = true) (list_ascii_of_string (hex bs)).
Proof.
  unfold hex. rewrite list_ascii_of_string_of_list_ascii.
  induction bs as [|b bs IH]; [constructor|].
  cbn [flat_map app]. repeat constructor; try apply hex_digit_is_hex. exact IH.
Qed.

Lemma substring_0_length (n : nat) (s : string) :
  String.length (substring 0 n s) = Nat.min n (String.length s).
Proof.
  revert s. induction n as [|n IH]; intros [|c s]; cbn; try reflexivity.
  now rewrite IH.
Qed.

Lemma substring_0_Forall (P : ascii -> Prop) (n : nat) (s : string) :
  Forall P (list_ascii_of_string s) -> Forall P (list_ascii_of_string (substring 0 n s)).
Proof.
  revert s. induction n as [|n IH]; intros [|c s] H; cbn; try constructor.
  - now inversion H.
  - apply IH. now inversion H.
Qed.

(** X1. The partition name [getServerUrlHash] gives for a server URL is
    always 16 characters long, each a lowercase hexadecimal digit: a
    directory name that [path.join] leaves as it is. *)
Theorem getServerUrlHash_format (serverUrl : string) :
  String.length (getServerUrlHash serverUrl) = 16%nat
  /\ Forall (fun c => is_hex_digit c = true)
       (list_ascii_of_string (getServerUrlHash serverUrl)).
Proof.
  unfold getServerUrlHash. split.
  - rewrite substring_0_length, hex_length, digest_length. reflexivity.
  - apply substring_0_Forall, hex_digits.
Qed.

(** ** The credential store: round trips and partitions *)

Lemma list_ascii_of_string_app (a b : string) :
  list_ascii_of_string (a ++ b) = list_ascii_of_string a ++ list_ascii_of_string b.
Proof.
  induction a as [|c a IH]; [reflexivity|].
  change (c :: list_ascii_of_string (a ++ b)
          = c :: (list_ascii_of_string a ++ list_ascii_of_string b)).
  now rewrite IH.
Qed.

Lemma list_ascii_of_string_inj (a b : string) :
  list_ascii_of_string a = list_ascii_of_string b -> a = b.
Proof.
  intros H. rewrite <- (string_of_list_ascii_of_string a), <- (string_of_list_ascii_of_string b).
  now rewrite H.
Qed.

Lemma path_join_inj (dir h h' file : string) :
  path_join (path_join dir h) file = path_join (path_join dir h') file -> h = h'.
Proof.
  unfold path_join. intros H. apply (f_equal list_ascii_of_string) in H.
  rewrite !list_ascii_of_string_app in H.
  apply app_inv_tail, app_inv_head, app_inv_head in H.
  now apply list_ascii_of_string_inj.
Qed.

(** X2. What a save wrote, the read of the same partition returns: for
    each of the three records, when the write succeeds the save returns
    normally and the read that follows returns the record saved. When the
    write fails the save throws: a write that was refused leaves the read
    as it was; a write that was cut short has emptied the file, so the
    record that was there is lost: the read returns nothing for the two
    JSON records, and for the code verifier the characters that were
    written. *)
Theorem storage_save_then_get
    (w : World) (h : string) (t : OAuthTokens) (c : OAuthClientInformationFull) (v : string) :
  let '(r1, w1) := FileTokenStorage.saveTokens h t w in
  let '(r2, w2) := FileTokenStorage.saveClientInfo h c w in
  let '(r3, w3) := FileTokenStorage.saveCodeVerifier h v w in
  (save_returns (faults (disk w) !! tokenPath w h) r1
   /\ fst (FileTokenStorage.getTokens h w1)
      = read_after_save (faults (disk w) !! tokenPath w h)
          (fst (FileTokenStorage.getTokens h w)) t (fun _ => None))
  /\ (save_returns (faults (disk w) !! clientInfoPath w h) r2
      /\ fst (FileTokenStorage.getClientInfo h w2)
         = read_after_save (faults (disk w) !! clientInfoPath w h)
             (fst (FileTokenStorage.getClientInfo h w)) c (fun _ => None))
  /\ (save_returns (faults (disk w) !! codeVerifierPath w h) r3
      /\ fst (FileTokenStorage.getCodeVerifier h w3)
         = read_after_save (faults (disk w) !! codeVerifierPath w h)
             (fst (FileTokenStorage.getCodeVerifier h w)) v
             (fun n => Some (substring 0 n v))).
Proof.
  rewrite saveTokens_run, saveClientInfo_run, saveCodeVerifier_run.
  destruct (faults (disk w) !! tokenPath w h) as [[|n1]|];
    destruct (faults (disk w) !! clientInfoPath w h) as [[|n2]|];
    destruct (faults (disk w) !! codeVerifierPath w h) as [[|n3]|];
    rewrite ?getTokens_run, ?getClientInfo_run, ?getCodeVerifier_run;
    unfold tokenPath, clientInfoPath, codeVerifierPath; cbn;
    rewrite ?lookup_insert_eq; repeat split; eauto.
Qed.

Lemma reads_run h w :
  reads h w
  = (Ok (record (tokens_json (disk w) !! tokenPath w h)),
     Ok (record (client_info_json (disk w) !! clientInfoPath w h)),
     Ok (record (code_verifier_txt (disk w) !! codeVerifierPath w h))).
Proof. unfold reads. now rewrite getTokens_run, getClientInfo_run, getCodeVerifier_run. Qed.

(** X3. The partitions of two servers are apart: when the hashes of two
    server URLs differ, no save and no delete on the partition of the one
    changes what the three reads return for the partition of the other. *)
Theorem partitions_are_apart
    (w : World) (serverUrl serverUrl' : string)
    (t : OAuthTokens) (c : OAuthClientInformationFull) (v : string) :
  getServerUrlHash serverUrl <> getServerUrlHash serverUrl' ->
  Forall (fun update : M unit =>
            reads (getServerUrlHash serverUrl') (snd (update w))
            = reads (getServerUrlHash serverUrl') w)
    (storage_updates (getServerUrlHash serverUrl) t c v).
Proof.
  intros Hne. set (h := getServerUrlHash serverUrl) in *.
  set (h' := getServerUrlHash serverUrl') in *.
  assert (P : forall file, path_join (path_join (tokenStorage (this w)) h) file
                           <> path_join (path_join (tokenStorage (this w)) h') file)
    by (intros file E; apply Hne; exact (path_join_inj _ _ _ _ E)).
  assert (U : forall A pin file (m : gmap string A),
            unlinked pin (path_join (path_join (tokenStorage (this w)) h) file) m
            !! path_join (path_join (tokenStorage (this w)) h') file
            = m !! path_join (path_join (tokenStorage (this w)) h') file).
  { intros A pin file m. unfold unlinked. case_decide; [reflexivity|].
    apply lookup_delete_ne, P. }
  unfold storage_updates. repeat constructor; rewrite !reads_run;
    rewrite ?saveTokens_run, ?saveClientInfo_run, ?saveCodeVerifier_run,
      ?deleteTokens_run, ?deleteClientInfo_run, ?deleteCodeVerifier_run;
    try (destruct (faults (disk w) !! _) as [[|n]|]);
    unfold tokenPath, clientInfoPath, codeVerifierPath; cbn;
    rewrite ?lookup_insert_ne, ?U by apply P; reflexivity.
Qed.

Lemma partitions_are_apart_witness :
  reads (getServerUrlHash "https://other.example")
    (snd (FileTokenStorage.deleteTokens (getServerUrlHash "https://mcp.example")
            Example.authenticated))
  = reads (getServerUrlHash "https://other.example") Example.authenticated.
Proof.
  assert (Hne : getServerUrlHash "https://mcp.example"
                <> getServerUrlHash "https://other.example")
    by (vm_compute; discriminate).
  pose proof (partitions_are_apart Example.authenticated "https://mcp.example"
                "https://other.example" Example.issued Example.identity "v" Hne) as H.
  unfold storage_updates in H.
  exact (Forall_inv (Forall_inv_tail H)).
Defined.

(** ** The records through the provider: memory, store, and a new instance *)

Lemma clientInformation_run w :
  clientInformation w
  = match clientInfo (this w) with
    | Some c => (Ok (Some c), w)
    | None =>
        (Ok (cached_identity w),
         set_this (set_clientInfo (cached_identity w))
           (emit_effect (FsRead (clientInfoPath w (serverUrlHash (this w)))) w))
    end.
Proof.
  unfold clientInformation, hash, cached_identity. run.
  destruct (clientInfo (this w)); run; reflexivity.
Qed.

Lemma codeVerifier_run w :
  codeVerifier w
  = if truthy_opt (_codeVerifier (this w))
    then (Ok (js_string (_codeVerifier (this w))), w)
    else
      let w1 := emit_effect (FsRead (codeVerifierPath w (serverUrlHash (this w)))) w in
      if truthy_opt (storedCodeVerifier w)
      then (Ok (js_string (storedCodeVerifier w)),
            set_this (set_codeVerifier (storedCodeVerifier w)) w1)
      else (Throw (newError "No code verifier saved"), set_this (set_codeVerifier None) w1).
Proof.
  unfold codeVerifier, hash, storedCodeVerifier. run.
  destruct (truthy_opt (_codeVerifier (this w))); [reflexivity|]. run.
  destruct (truthy_opt (record _)); reflexivity.
Qed.

#[global] Arguments getServerUrlHash : simpl never.
#[global] Arguments FileTokenStorage.new : simpl never.
#[global] Arguments clientInformation : simpl never.
#[global] Arguments codeVerifier : simpl never.
#[global] Arguments tokens : simpl never.

Lemma tokens_run_stored out w t :
  authenticationPromise (this w) = None -> storedTokens w = Some t ->
  tokens out w = (Ok (Some t), readTokens w).
Proof.
  intros Hp Hs. unfold storedTokens in Hs. unfold tokens, hash, opts. run.
  rewrite Hp. run. rewrite Hs. reflexivity.
Qed.

(** X4. Persistence across instances: when the store can be written, what
    an instance saved through [saveTokens], [saveClientInformation] and
    [saveCodeVerifier] is what a new instance, constructed from the same
    options over the same disk, gets from [tokens()] (without starting a
    flow or calling the outside), [clientInformation()] and
    [codeVerifier()] (for a non-empty verifier). *)
Theorem persistence_across_instances
    (homedir : string) (o : OAuthClientProviderOptions) (w : World) (out : Outside)
    (t : OAuthTokens) (c : OAuthClientInformationFull) (v : string) :
  constructed_from homedir o w ->
  writable (disk w) = true ->
  (let '(r, w1) := saveTokens t w in
   r = Ok tt
   /\ fst (tokens out (fresh homedir o (disk w1) (canParse w))) = Ok (Some t)
   /\ count beyond_files
        (trace (snd (tokens out (fresh homedir o (disk w1) (canParse w))))) = 0%nat)
  /\ (let '(r, w1) := saveClientInformation c w in
      r = Ok tt
      /\ fst (clientInformation (fresh homedir o (disk w1) (canParse w))) = Ok (Some c))
  /\ (let '(r, w1) := saveCodeVerifier v w in
      r = Ok tt
      /\ (v <> "" -> fst (codeVerifier (fresh homedir o (disk w1) (canParse w))) = Ok v)).
Proof.
  intros [Hh Hs] Hw. split; [|split].
  - unfold saveTokens, hash. run. rewrite (writable_faults _ _ Hw). run.
    split; [reflexivity|].
    rewrite (tokens_run_stored _ _ t); [split; reflexivity|reflexivity|].
    unfold storedTokens, tokenPath, fresh. cbn. rewrite Hh, Hs.
    rewrite lookup_insert_eq. reflexivity.
  - unfold saveClientInformation, hash. run. rewrite (writable_faults _ _ Hw). run.
    split; [reflexivity|].
    rewrite clientInformation_run. cbn. unfold cached_identity, clientInfoPath. cbn.
    rewrite Hh, Hs, lookup_insert_eq. reflexivity.
  - unfold saveCodeVerifier, hash. run. rewrite (writable_faults _ _ Hw). run.
    split; [reflexivity|].
    intros Hv. apply truthy_true in Hv.
    rewrite codeVerifier_run. cbn. unfold storedCodeVerifier, codeVerifierPath. cbn.
    rewrite Hh, Hs, lookup_insert_eq. cbn. rewrite Hv. reflexivity.
Qed.

Lemma persistence_across_instances_witness :
  fst (tokens (Example.outside [])
         (fresh "/home/user" Example.options
            (disk (snd (saveTokens Example.issued Example.world))) Example.canParse))
  = Ok (Some Example.issued).
Proof.
  pose proof (persistence_across_instances "/home/user" Example.options Example.world
                (Example.outside []) Example.issued Example.identity "verifier"
                (conj eq_refl eq_refl) eq_refl) as [H _].
  destruct (saveTokens Example.issued Example.world) as [r w1].
  exact (proj1 (proj2 H)).
Defined.

(** X5. [clientInformation()] is read through a cache: an identity in
    memory is returned without reading the store; otherwise the store is
    read once, what it holds is returned and kept in memory, so that the
    next call returns the same identity without reading again; the store is
    never written. When there is no identity, in memory or in the store,
    the result is [undefined]. *)
Theorem clientInformation_is_cached (w : World) :
  let '(r, w1) := clientInformation w in
  r = Ok (cached_identity w)
  /\ clientInfo (this w1) = cached_identity w
  /\ disk w1 = disk w
  /\ (forall c, clientInfo (this w) = Some c -> r = Ok (Some c) /\ w1 = w)
  /\ (clientInfo (this w) = None ->
      trace w1 = trace w ++ [FsRead (clientInfoPath w (serverUrlHash (this w)))])
  /\ (forall c, cached_identity w = Some c -> clientInformation w1 = (Ok (Some c), w1)).
Proof.
  rewrite clientInformation_run. unfold cached_identity.
  destruct (clientInfo (this w)) as [c|] eqn:E.
  - split; [reflexivity|]. split; [exact E|]. split; [reflexivity|].
    split; [intros c' [= <-]; split; reflexivity|]. split; [discriminate|].
    intros c' [= <-]. rewrite clientInformation_run, E. reflexivity.
  - split; [reflexivity|]. split; [reflexivity|]. split; [reflexivity|].
    split; [discriminate|]. split; [reflexivity|].
    intros c Hc. rewrite clientInformation_run. cbn. rewrite Hc. reflexivity.
Qed.

(** X6. [saveClientInformation] and [saveCodeVerifier] assign the field in
    memory before they write the store: when the write fails the call
    throws, and yet this instance returns the value from then on
    ([clientInformation()], and [codeVerifier()] for a non-empty
    verifier), without reading the store. *)
Theorem save_assigns_memory_first
    (w : World) (c : OAuthClientInformationFull) (v : string) :
  (let '(r, w1) := saveClientInformation c w in
   save_returns (faults (disk w) !! clientInfoPath w (serverUrlHash (this w))) r
   /\ clientInformation w1 = (Ok (Some c), w1))
  /\ (let '(r, w1) := saveCodeVerifier v w in
      save_returns (faults (disk w) !! codeVerifierPath w (serverUrlHash (this w))) r
      /\ (v <> "" -> codeVerifier w1 = (Ok v, w1))).
Proof.
  split.
  - unfold saveClientInformation, hash. run. unfold clientInfoPath. cbn.
    destruct (faults (disk w) !! _) as [[|n]|]; cbn;
      (split; [eauto|]); rewrite clientInformation_run; reflexivity.
  - unfold saveCodeVerifier, hash. run. unfold codeVerifierPath. cbn.
    destruct (faults (disk w) !! _) as [[|n]|]; cbn;
      (split; [eauto|]); intros Hv; apply truthy_true in Hv;
      rewrite codeVerifier_run; cbn; rewrite Hv; reflexivity.
Qed.

Lemma save_assigns_memory_first_witness :
  fst (saveClientInformation Example.identity Sample.read_only)
  = Throw (newError "EACCES: permission denied")
  /\ fst (clientInformation (snd (saveClientInformation Example.identity Sample.read_only)))
     = Ok (Some Example.identity).
Proof.
  pose proof (save_assigns_memory_first Sample.read_only Example.identity "v") as [H _].
  destruct (saveClientInformation Example.identity Sample.read_only) as [r w1] eqn:E.
  destruct H as (_ & H). split.
  - apply (f_equal fst) in E. rewrite <- E. vm_compute. reflexivity.
  - cbn [snd]. rewrite H. reflexivity.
Defined.

(** X7. The code verifier, saved and read back: after [saveCodeVerifier]
    of a non-empty verifier, [codeVerifier()] returns it; an empty verifier
    counts as none, and when it was written [codeVerifier()] throws 'No
    code verifier saved'; in any state [codeVerifier()] throws that error
    exactly when neither the memory nor the store holds a non-empty
    verifier. The ['verifier'] and the ['all'] invalidation clear the
    memory; after them [codeVerifier()] throws when the file could be
    removed, and goes back to the store, returning the verifier that is
    still there, when it could not. *)
Theorem codeVerifier_round_trip (w : World) (v : string) :
  (let '(r, w1) := saveCodeVerifier v w in
   (v <> "" -> codeVerifier w1 = (Ok v, w1))
   /\ (v = "" -> r = Ok tt ->
       fst (codeVerifier w1) = Throw (newError "No code verifier saved")))
  /\ (fst (codeVerifier w) = Throw (newError "No code verifier saved")
      <-> truthy_opt (_codeVerifier (this w)) = false
          /\ truthy_opt (storedCodeVerifier w) = false)
  /\ Forall (fun scope =>
               let w' := snd (invalidateCredentials scope w) in
               _codeVerifier (this w') = None
               /\ fst (codeVerifier w')
                  = if decide (codeVerifierPath w (serverUrlHash (this w)) ∈ pinned (disk w))
                    then fst (codeVerifier (set_this (set_codeVerifier None) w))
                    else Throw (newError "No code verifier saved"))
       [Scope.verifier; Scope.all].
Proof.
  split; [|split].
  - unfold saveCodeVerifier, hash. run.
    destruct (faults (disk w) !! _) as [[|n]|];
      (split; [intros Hv; apply truthy_true in Hv; rewrite codeVerifier_run; cbn;
               rewrite Hv; reflexivity|]); try (intros _ [=]; fail).
    intros -> _. rewrite codeVerifier_run. cbn.
    unfold storedCodeVerifier, codeVerifierPath. cbn. rewrite lookup_insert_eq. reflexivity.
  - rewrite codeVerifier_run.
    destruct (truthy_opt (_codeVerifier (this w))); cbn.
    + split; [discriminate|intros [? _]; discriminate].
    + destruct (truthy_opt (storedCodeVerifier w)); cbn.
      * split; [discriminate|intros [_ ?]; discriminate].
      * split; [tauto|reflexivity].
  - repeat (apply List.Forall_cons); try apply List.Forall_nil;
      cbv zeta; unfold invalidateCredentials, hash; run; (split; [reflexivity|]);
      rewrite !codeVerifier_run; cbn;
      unfold storedCodeVerifier, codeVerifierPath, unlinked; cbn;
      case_decide; cbn; rewrite ?lookup_delete_eq; cbn; try (destruct (truthy_opt _));
      reflexivity.
Qed.

Lemma count_snoc f t e : count f (t ++ [e]) = (count f t + Nat.b2n (f e))%nat.
Proof. rewrite count_app. unfold count. cbn. destruct (f e); reflexivity. Qed.

(** X8. [invalidateCredentials] reaches what its scope names, and no
    further: the records of the other kinds are as they were, on disk and
    in memory; the discovery document, [authInitialized], the registered
    promise and the callback listener are untouched in every scope; and
    nothing is done beyond the file system (nothing is revoked at the
    authorization server). *)
Theorem invalidateCredentials_frame (scope : Scope.t) (w : World) :
  let w' := snd (invalidateCredentials scope w) in
  kept scope w w'
  /\ discoveryDocument (this w') = discoveryDocument (this w)
  /\ authInitialized (this w') = authInitialized (this w)
  /\ authenticationPromise (this w') = authenticationPromise (this w)
  /\ same_listener w w'
  /\ count beyond_files (trace w') = count beyond_files (trace w).
Proof.
  unfold invalidateCredentials, hash, kept, same_listener.
  destruct scope; run; rewrite ?count_snoc; cbn; rewrite ?Nat.add_0_r; tauto.
Qed.

(** ** The steps of the flow, one by one *)

#[global] Arguments browsers : simpl never.
#[global] Arguments exchanges : simpl never.

Lemma quiet_refl w : quiet w w.
Proof. repeat split. Qed.

Lemma quiet_trans w1 w2 w3 : quiet w1 w2 -> quiet w2 w3 -> quiet w1 w3.
Proof. unfold quiet, keeps_tokens. intuition congruence. Qed.

Lemma keeps_tokens_trans w1 w2 w3 : keeps_tokens w1 w2 -> keeps_tokens w2 w3 -> keeps_tokens w1 w3.
Proof. unfold keeps_tokens. intuition congruence. Qed.

Lemma same_endpoints_trans w1 w2 w3 :
  same_endpoints w1 w2 -> same_endpoints w2 w3 -> same_endpoints w1 w3.
Proof. unfold same_endpoints. intuition congruence. Qed.

Lemma same_partition_trans w1 w2 w3 :
  same_partition w1 w2 -> same_partition w2 w3 -> same_partition w1 w3.
Proof. unfold same_partition. intuition congruence. Qed.

Ltac frame_solve :=
  unfold quiet, keeps_tokens, same_endpoints, same_partition, same_listener, browsers, exchanges;
  cbn; rewrite ?count_snoc; cbn; rewrite ?Nat.add_0_r;
  repeat split; try reflexivity.

Lemma keeps_tokens_kept_or_torn w w' : keeps_tokens w w' -> kept_or_torn w w'.
Proof. intros [K I]. split; [exact I|left; exact K]. Qed.

Lemma kept_or_torn_after w w1 w2 :
  keeps_tokens w w1 -> same_partition w w1 -> faults (disk w1) = faults (disk w) ->
  kept_or_torn w1 w2 -> kept_or_torn w w2.
Proof.
  unfold kept_or_torn, tokenPath. intros [K I] [Ph Ps] F [I2 H].
  rewrite Ph, Ps, F, K, I in *. tauto.
Qed.

Lemma discoverOAuthEndpoints_stage answer w r w' :
  discoverOAuthEndpoints answer w = (r, w') ->
  quiet w w' /\ same_listener w w' /\ same_partition w w'
  /\ clientInfo (this w') = clientInfo (this w)
  /\ match r with
     | Ok _ =>
         exists doc,
           answer = Ok doc /\ discoveryDocument (this w') = Some doc
           /\ discoverable w = true
     | Throw e =>
         this w' = this w /\ disk w' = disk w
         /\ if discoverable w
            then exists cause,
                   answer = Throw cause
                   /\ e = newError ("Failed to fetch OAuth discovery document: "
                                      ++ error_toString cause)
            else e = invalid_url /\ w' = w
     end.
Proof.
  unfold discoverOAuthEndpoints, opts, discoverable. run.
  destruct (canParse w _ _); run; [destruct answer; run|];
    intros [= <- <-]; frame_solve; eauto.
Qed.

Lemma registerClient_stage answer w r w' :
  registerClient answer w = (r, w') ->
  quiet w w' /\ same_listener w w' /\ same_partition w w'
  /\ discoveryDocument (this w') = discoveryDocument (this w)
  /\ (r = Ok tt -> clientInfo (this w') <> None).
Proof.
  unfold registerClient, clientInformation, saveClientInformation, hash, opts. run.
  destruct (staticOAuthClientInfo (options (this w))); run.
  { intros [= <- <-]. frame_solve. discriminate. }
  destruct (clientInfo (this w)) eqn:Hc; run.
  { intros [= <- <-]. frame_solve. discriminate. }
  destruct (record _); run.
  { intros [= <- <-]. frame_solve. discriminate. }
  destruct (truthy_opt _); run.
  - destruct answer; run; [destruct (faults (disk w) !! _) as [[|n]|]; run|];
      intros [= <- <-]; frame_solve; discriminate.
  - intros [= <- <-]. frame_solve. discriminate.
Qed.

Lemma initializeAuth_stage granted w r w' :
  initializeAuth granted w = (r, w') ->
  quiet w w' /\ same_endpoints w w' /\ same_partition w w' /\ disk w' = disk w
  /\ match r with
     | Ok server =>
         port w = None /\ server = servers w
         /\ port w' = Some server /\ authServer (this w') = Some server
     | Throw _ => same_listener w w'
     end.
Proof.
  unfold initializeAuth, OAuthServer.createOAuthCallbackServer, opts. run.
  destruct (port w) eqn:Hp; run.
  { intros [= <- <-]. frame_solve. }
  destruct granted as [[]|e]; run; intros [= <- <-]; frame_solve.
Qed.

Lemma requestAuthorization_stage rb launched w r w' :
  requestAuthorization rb launched w = (r, w') ->
  keeps_tokens w w' /\ exchanges w' = exchanges w /\ (browsers w' <= S (browsers w))%nat
  /\ same_listener w w' /\ same_endpoints w w' /\ same_partition w w'.
Proof.
  unfold requestAuthorization, saveCodeVerifier, hash, opts. run.
  destruct (discoveryDocument (this w)); run;
    [|intros [= <- <-]; frame_solve; lia].
  destruct (clientInfo (this w)); run;
    [|intros [= <- <-]; frame_solve; lia].
  destruct (faults (disk w) !! _) as [[|n]|]; run;
    [intros [= <- <-]; frame_solve; lia|intros [= <- <-]; frame_solve; lia|].
  destruct (canParse w _ _); run;
    [|intros [= <- <-]; frame_solve; lia].
  unfold index0. destruct (redirect_uris _); run;
    [|intros [= <- <-]; frame_solve; lia].
  destruct (truthy_opt _); run; destruct launched; run;
    intros [= <- <-]; frame_solve; lia.
Qed.

Lemma serve_stage path requests w r w' :
  serve path requests w = (r, w') ->
  quiet w w' /\ same_listener w w' /\ same_endpoints w w' /\ same_partition w w'
  /\ disk w' = disk w.
Proof.
  revert w. induction requests as [|req rest IH]; intros w; cbn [serve].
  - run. intros [= <- <-]. frame_solve.
  - destruct (OAuthServer.requestListener path req) as [reply|e]; [|apply IH].
    unfold bind at 1. unfold effect at 1, modify at 1.
    destruct (OAuthServer.emitted reply) as [[event payload]|].
    + run. destruct (String.eqb event "auth-code"); run;
        intros [= <- <-]; frame_solve.
    + intros H. apply IH in H as (Q & L & E & P & D).
      revert Q L E P D. frame_solve; cbn in *; intuition congruence.
Qed.

Lemma waitForAuthCode_stage requests w r w' :
  waitForAuthCode requests w = (r, w') ->
  quiet w w' /\ same_listener w w' /\ same_endpoints w w' /\ same_partition w w'
  /\ disk w' = disk w.
Proof.
  unfold waitForAuthCode, opts. unfold bind at 1 2. unfold gets at 1, modify at 1.
  intros H. apply serve_stage in H. exact H.
Qed.

Lemma exchangeCodeForTokens_stage code v answer w r w' :
  exchangeCodeForTokens code v answer w = (r, w') ->
  browsers w' = browsers w /\ same_listener w w' /\ this w' = this w
  /\ match r with
     | Ok _ =>
         exists data, answer = Ok data /\ storedTokens w' = Some data
     | Throw _ => kept_or_torn w w'
     end.
Proof.
  unfold exchangeCodeForTokens, saveTokens, hash, storedTokens, kept_or_torn. run.
  destruct (discoveryDocument (this w)); run;
    [|intros [= <- <-]; frame_solve; tauto].
  destruct (clientInfo (this w)); run;
    [|intros [= <- <-]; frame_solve; tauto].
  unfold index0. destruct (redirect_uris _); run;
    [|intros [= <- <-]; frame_solve; tauto].
  destruct answer as [data|e]; run;
    [unfold tokenPath; cbn; destruct (faults (disk w) !! _) as [[|n]|] eqn:Hf; run|];
    intros [= <- <-]; frame_solve; try tauto.
  - right. exists n. split; reflexivity.
  - exists data. split; [reflexivity|]. unfold tokenPath. cbn. now rewrite lookup_insert_eq.
Qed.

Lemma performAuthorizationCodeFlow_stage out w r w' :
  performAuthorizationCodeFlow out w = (r, w') ->
  (browsers w' <= S (browsers w))%nat
  /\ same_listener w w' /\ same_endpoints w w' /\ same_partition w w'
  /\ authInitialized (this w') = authInitialized (this w)
  /\ match r with
     | Ok _ => exists data, token out = Ok data /\ storedTokens w' = Some data
     | Throw _ => kept_or_torn w w'
     end.
Proof.
  unfold performAuthorizationCodeFlow. unfold bind at 1.
  destruct (requestAuthorization _ _ w) as [[pkce|e] w1] eqn:E1;
    pose proof E1 as G1;
    apply requestAuthorization_effects in G1 as (d1 & (_ & _ & _ & _ & _ & _ & _ & F1) & _);
    apply requestAuthorization_stage in E1 as (K1 & X1 & B1 & L1 & D1 & P1).
  2:{ intros [= <- <-]. pose proof (keeps_tokens_kept_or_torn _ _ K1) as K.
      destruct K1. repeat split; assumption || apply D1 || apply L1 || apply P1 || apply K. }
  unfold bind at 1.
  destruct (waitForAuthCode _ w1) as [[code|e] w2] eqn:E2;
    apply waitForAuthCode_stage in E2 as ((K2 & B2 & X2) & L2 & D2 & P2 & F2).
  2:{ intros [= <- <-].
      split; [rewrite B2; exact B1|].
      split; [eapply same_listener_trans; eassumption|].
      split; [eapply same_endpoints_trans; eassumption|].
      split; [eapply same_partition_trans; eassumption|].
      pose proof (keeps_tokens_trans _ _ _ K1 K2) as K.
      split; [apply K|exact (keeps_tokens_kept_or_torn _ _ K)]. }
  intros E3. apply exchangeCodeForTokens_stage in E3 as (B3 & L3 & T3 & R3).
  pose proof (keeps_tokens_trans _ _ _ K1 K2) as K.
  split; [rewrite B3, B2; exact B1|].
  split; [eapply same_listener_trans; [eapply same_listener_trans|]; eassumption|].
  assert (D3 : same_endpoints w2 w') by (unfold same_endpoints; rewrite T3; tauto).
  assert (P3 : same_partition w2 w') by (unfold same_partition; rewrite T3; tauto).
  split; [eapply same_endpoints_trans; [eapply same_endpoints_trans|]; eassumption|].
  split; [eapply same_partition_trans; [eapply same_partition_trans|]; eassumption|].
  split; [rewrite T3; apply K|].
  destruct r as [[]|e]; [exact R3|].
  eapply kept_or_torn_after; [exact K|eapply same_partition_trans; eassumption| |exact R3].
  rewrite F2. exact F1.
Qed.

(** The two ways an attempt can go: it stops before the listener is
    started, or it starts the listener and goes on from there. *)
Lemma _performAuthentication_stages out w r w' :
  _performAuthentication out w = (r, w') ->
  same_partition w w'
  /\ (((exists e, r = Throw e) /\ quiet w w' /\ same_listener w w')
      \/ (port w = None /\ port w' = Some (servers w)
          /\ authServer (this w') = Some (servers w)
          /\ (exists doc, discovery out = Ok doc /\ discoveryDocument (this w') = Some doc)
          /\ clientInfo (this w') <> None
          /\ (browsers w' <= S (browsers w))%nat
          /\ match r with
             | Ok _ =>
                 exists data,
                   token out = Ok data /\ storedTokens w' = Some data
                   /\ authInitialized (this w') = true
             | Throw _ => kept_or_torn w w'
             end)).
Proof.
  unfold _performAuthentication, try_catch.
  unfold bind at 1.
  destruct (discoverOAuthEndpoints _ w) as [[[]|e] w1] eqn:E1;
    pose proof E1 as G1;
    apply discoverOAuthEndpoints_effects in G1 as (? & (_ & _ & _ & _ & _ & _ & _ & F1) & _);
    apply discoverOAuthEndpoints_stage in E1 as (Q1 & L1 & P1 & C1 & R1).
  2:{ unfold throw. intros [= <- <-]. split; [exact P1|]. left. eauto. }
  destruct R1 as (doc & Hdoc & D1 & _).
  unfold bind at 1.
  destruct (registerClient _ w1) as [[[]|e] w2] eqn:E2;
    pose proof E2 as G2;
    apply registerClient_effects in G2 as (? & ? & (_ & _ & _ & _ & _ & _ & _ & F2) & _);
    apply registerClient_stage in E2 as (Q2 & L2 & P2 & D2 & C2).
  2:{ unfold throw. intros [= <- <-].
      split; [eapply same_partition_trans; eassumption|]. left.
      split; [eauto|]. split; [eapply quiet_trans; eassumption|].
      eapply same_listener_trans; eassumption. }
  specialize (C2 eq_refl).
  pose proof (quiet_trans _ _ _ Q1 Q2) as Q12.
  pose proof (same_listener_trans _ _ _ L1 L2) as L12.
  pose proof (same_partition_trans _ _ _ P1 P2) as P12.
  unfold bind at 1.
  destruct (initializeAuth _ w2) as [[server|e] w3] eqn:E3;
    apply initializeAuth_stage in E3 as (Q3 & D3 & P3 & F3 & R3).
  2:{ unfold throw. intros [= <- <-].
      split; [eapply same_partition_trans; eassumption|]. left.
      split; [eauto|]. split; [eapply quiet_trans; eassumption|].
      eapply same_listener_trans; eassumption. }
  destruct R3 as (Hp2 & -> & Hp3 & Ha3).
  pose proof (quiet_trans _ _ _ Q12 Q3) as (K123 & B123 & _).
  pose proof (same_partition_trans _ _ _ P12 P3) as P123.
  assert (F123 : faults (disk w3) = faults (disk w)) by (rewrite F3, F2; exact F1).
  destruct L12 as (Lp & Ls & _). rewrite Ls in Hp3, Ha3. rewrite Lp in Hp2.
  destruct D3 as (Dd3 & Dc3). rewrite D2, D1 in Dd3. rewrite <- Dc3 in C2.
  unfold bind at 1.
  destruct (performAuthorizationCodeFlow out w3) as [[[]|e] w4] eqn:E4;
    apply performAuthorizationCodeFlow_stage in E4
      as (B4 & (Lp4 & _ & La4) & (Dd4 & Dc4) & P4 & I4 & R4).
  2:{ unfold throw. intros [= <- <-].
      split; [eapply same_partition_trans; eassumption|]. right.
      split; [exact Hp2|]. split; [congruence|]. split; [congruence|].
      split; [exists doc; split; [exact Hdoc|congruence]|].
      split; [congruence|]. split; [rewrite <- B123; exact B4|].
      eapply kept_or_torn_after; eassumption. }
  unfold modify. intros [= <- <-].
  split; [revert P123 P4; unfold same_partition; cbn; intuition congruence|]. right.
  cbn. split; [exact Hp2|]. split; [congruence|]. split; [congruence|].
  split; [exists doc; split; [exact Hdoc|congruence]|].
  split; [congruence|]. split; [rewrite <- B123; exact B4|].
  destruct R4 as (data & Ht & Hs). exists data. repeat split; assumption.
Qed.

(** ** [ensureAuthenticated]: the promise, the outcome and the token record *)

(** X9. The registered promise around one call of [ensureAuthenticated]:
    a call that finds no promise registered leaves none registered when it
    returns, whether it took the shortcut, succeeded or threw (so a failed
    attempt can be tried again); a call that finds one registered leaves it
    registered, calls nothing beyond the file system, and returns normally
    when the store holds an access token and with the outcome of that
    promise otherwise. *)
Theorem ensureAuthenticated_promise_lifecycle (out : Outside) (w : World) :
  let '(r, w') := ensureAuthenticated out w in
  match authenticationPromise (this w) with
  | None => authenticationPromise (this w') = None
  | Some p =>
      authenticationPromise (this w') = Some p
      /\ count beyond_files (trace w') = count beyond_files (trace w)
      /\ r = if truthy_opt (storedTokens w ≫= access_token) then Ok tt else inflight out
  end.
Proof.
  unfold storedTokens.
  destruct (truthy_opt (record _ ≫= access_token)) eqn:Ht.
  - rewrite (ensureAuthenticated_shortcut _ _ Ht). cbn.
    destruct (authenticationPromise (this w)); [|reflexivity].
    rewrite count_snoc. cbn. rewrite Nat.add_0_r. repeat split.
  - destruct (authenticationPromise (this w)) as [p|] eqn:Hp.
    + unfold ensureAuthenticated, hash. run. rewrite Ht. run. rewrite Hp. run.
      rewrite count_snoc. cbn. rewrite Nat.add_0_r. repeat split. exact Hp.
    + rewrite (ensureAuthenticated_starts _ _ Ht Hp). cbv zeta.
      destruct (_performAuthentication out _) as [r w1]. reflexivity.
Qed.

Lemma ensureAuthenticated_cases out w r w' :
  authenticationPromise (this w) = None ->
  ensureAuthenticated out w = (r, w') ->
  (truthy_opt (storedTokens w ≫= access_token) = true /\ r = Ok tt /\ w' = readTokens w)
  \/ (unauthenticated w
      /\ exists w0 w1,
           quiet w w0 /\ same_listener w w0 /\ same_partition w w0
           /\ servers w0 = servers w /\ disk w0 = disk w
           /\ _performAuthentication out w0 = (r, w1)
           /\ w' = set_this (set_authenticationPromise None) w1).
Proof.
  intros Hp E. unfold unauthenticated, storedTokens in *.
  destruct (truthy_opt (record _ ≫= access_token)) eqn:Ht.
  - rewrite (ensureAuthenticated_shortcut _ _ Ht) in E. injection E as <- <-. left. tauto.
  - rewrite (ensureAuthenticated_starts _ _ Ht Hp) in E. cbv zeta in E.
    destruct (_performAuthentication out _) as [r1 w1] eqn:F. injection E as <- <-.
    right. split; [reflexivity|]. do 2 eexists.
    split; [|split; [|split; [|split; [|split; [|split; [exact F|reflexivity]]]]]];
      frame_solve.
Qed.

(** X10. What a successful [ensureAuthenticated] leaves: when no promise
    was registered and the call returns normally, the store holds a token
    set: the one it already held (with its access token), or the one the
    token endpoint returned to this attempt, in which case the instance is
    marked [authInitialized]; and [tokens()] called then returns that
    token set, having only read the store. *)
Theorem ensureAuthenticated_success (out : Outside) (w w' : World) :
  authenticationPromise (this w) = None ->
  ensureAuthenticated out w = (Ok tt, w') ->
  exists t,
    storedTokens w' = Some t
    /\ ((storedTokens w = Some t /\ truthy_opt (access_token t) = true)
        \/ (token out = Ok t /\ authInitialized (this w') = true))
    /\ forall out', tokens out' w' = (Ok (Some t), readTokens w').
Proof.
  intros Hp E.
  apply (ensureAuthenticated_cases _ _ _ _ Hp) in E
    as [(Ht & _ & ->) | (_ & w0 & w1 & _ & _ & _ & _ & _ & F & ->)].
  - destruct (storedTokens w) as [t|] eqn:Hs; [|discriminate Ht].
    exists t. split; [exact Hs|]. split; [left; split; [reflexivity|exact Ht]|].
    intros out'. apply tokens_run_stored; [exact Hp|exact Hs].
  - apply _performAuthentication_stages in F as (_ & [((e & [=]) & _) | (_ & _ & _ & _ & _ & _ & R)]).
    destruct R as (data & Ht & Hs & Hi). exists data.
    split; [exact Hs|]. split; [right; split; [exact Ht|exact Hi]|].
    intros out'. apply tokens_run_stored; [reflexivity|exact Hs].
Qed.

Lemma ensureAuthenticated_success_witness :
  storedTokens Example.authenticated = Some Example.issued
  /\ tokens (Example.outside []) Example.authenticated
     = (Ok (Some Example.issued), readTokens Example.authenticated).
Proof.
  assert (E : ensureAuthenticated (Example.outside Example.consent) Example.world
              = (Ok tt, Example.authenticated)) by (vm_compute; reflexivity).
  destruct (ensureAuthenticated_success (Example.outside Example.consent) Example.world
              Example.authenticated eq_refl E) as (t & Hs & _ & Ht).
  assert (Hi : Some t = Some Example.issued) by (rewrite <- Hs; vm_compute; reflexivity).
  injection Hi as ->. split; [exact Hs|apply Ht].
Defined.

Lemma kept_or_torn_stored w w' :
  same_partition w w' -> kept_or_torn w w' ->
  (storedTokens w' = storedTokens w \/ storedTokens w' = None)
  /\ ((forall n, faults (disk w) !! tokenPath w (serverUrlHash (this w)) <> Some (Torn n)) ->
      tokens_json (disk w') = tokens_json (disk w)).
Proof.
  unfold storedTokens, tokenPath. intros [Ph Ps] [_ [K|(n & Hf & K)]]; rewrite Ph, Ps, K.
  - split; [left; reflexivity|reflexivity].
  - split; [right; rewrite lookup_insert_eq; reflexivity|].
    intros H. destruct (H n Hf).
Qed.

(** X11. A failed attempt does not replace the token set: when no promise
    was registered and [ensureAuthenticated] throws, the token set the
    store returns is the one it returned before the call, or none;
    [authInitialized] is as it was and no promise is left registered. The
    token records are untouched unless the failure is that of the write of
    the new token set, cut short. *)
Theorem ensureAuthenticated_failure (out : Outside) (w w' : World) (e : Error) :
  authenticationPromise (this w) = None ->
  ensureAuthenticated out w = (Throw e, w') ->
  (storedTokens w' = storedTokens w \/ storedTokens w' = None)
  /\ ((forall n, faults (disk w) !! tokenPath w (serverUrlHash (this w)) <> Some (Torn n)) ->
      tokens_json (disk w') = tokens_json (disk w))
  /\ authInitialized (this w') = authInitialized (this w)
  /\ authenticationPromise (this w') = None.
Proof.
  intros Hp E.
  apply (ensureAuthenticated_cases _ _ _ _ Hp) in E
    as [(_ & [=] & _) | (_ & w0 & w1 & (K0 & _) & _ & P0 & _ & D0 & F & ->)].
  apply _performAuthentication_stages in F as (P1 & H).
  assert (K : kept_or_torn w w1).
  { eapply kept_or_torn_after; [exact K0|exact P0|rewrite D0; reflexivity|].
    destruct H as [(_ & (K1 & _) & _) | (_ & _ & _ & _ & _ & _ & K1)];
      [apply keeps_tokens_kept_or_torn|]; exact K1. }
  pose proof (same_partition_trans _ _ _ P0 P1) as P.
  destruct (kept_or_torn_stored _ _ P K) as [Hs Hk].
  split; [exact Hs|]. split; [exact Hk|]. split; [apply K|reflexivity].
Qed.

Lemma ensureAuthenticated_failure_witness :
  let w' := snd (ensureAuthenticated (Example.outside Example.denial) Example.world) in
  fst (ensureAuthenticated (Example.outside Example.denial) Example.world)
  = Throw (newError "Authentication error: access_denied")
  /\ tokens_json (disk w') = tokens_json (disk Example.world).
Proof.
  intros w'.
  assert (E : ensureAuthenticated (Example.outside Example.denial) Example.world
              = (Throw (newError "Authentication error: access_denied"), w'))
    by (vm_compute; reflexivity).
  destruct (ensureAuthenticated_failure (Example.outside Example.denial) Example.world w'
              _ eq_refl E) as (_ & H & _).
  split; [rewrite E; reflexivity|]. apply H. intros n. vm_compute. discriminate.
Defined.

(** X12. When the discovery fails, the attempt ends there: with no promise
    registered and no access token in the store, [ensureAuthenticated]
    has read the store and then, when the server URL parses, sent the one
    request to [/.well-known/oauth-authorization-server] of the server URL
    and, as that request failed, throws 'Failed to fetch OAuth discovery
    document: ' followed by the cause; when the server URL does not parse
    it throws [TypeError: Invalid URL] and has sent nothing. Either way
    nothing else is done: the store and the listener are as they were and
    no promise is left registered. *)
Theorem discovery_failure_ends_the_attempt (out : Outside) (w : World) (cause : Error) :
  authenticationPromise (this w) = None ->
  unauthenticated w ->
  discovery out = Throw cause ->
  exists w',
    ensureAuthenticated out w
    = (Throw (if discoverable w
              then newError ("Failed to fetch OAuth discovery document: "
                               ++ error_toString cause)
              else invalid_url),
       w')
    /\ trace w'
       = trace w ++ FsRead (tokenPath w (serverUrlHash (this w)))
                 :: (if discoverable w then [HttpGet (discoveryUrl w)] else [])
    /\ disk w' = disk w
    /\ same_listener w w'
    /\ authenticationPromise (this w') = None.
Proof.
  intros Hp Ht Hd. unfold unauthenticated, storedTokens in Ht.
  rewrite (ensureAuthenticated_starts _ _ Ht Hp). cbv zeta.
  unfold _performAuthentication, discoverOAuthEndpoints, opts, discoverable. run.
  destruct (canParse w _ _); run; rewrite ?Hd; run;
    (eexists; split; [reflexivity|]); cbn; rewrite <- ?app_assoc; repeat split.
Qed.

Lemma discovery_failure_ends_the_attempt_witness :
  fst (ensureAuthenticated Sample.server_down Example.world)
  = Throw (newError
             "Failed to fetch OAuth discovery document: AxiosError: connect ECONNREFUSED")
  /\ fst (ensureAuthenticated Sample.server_down Unparsable.world) = Throw invalid_url.
Proof.
  destruct (discovery_failure_ends_the_attempt Sample.server_down Example.world
              Example.refused eq_refl eq_refl eq_refl) as (w1 & E1 & _).
  destruct (discovery_failure_ends_the_attempt Sample.server_down Unparsable.world
              Example.refused eq_refl eq_refl eq_refl) as (w2 & E2 & _).
  rewrite E1, E2. split; reflexivity.
Defined.

(** ** The listener, the browser and [cleanup] *)

(** X13. The browser is opened only once everything is ready for the
    redirect: an attempt opens the browser at most once, and when it has
    opened it, the discovery has answered, a client identity is in place,
    and the callback listener was started by this attempt and is
    listening. *)
Theorem browser_opens_after_listener (out : Outside) (w : World) :
  let '(r, w') := _performAuthentication out w in
  (browsers w' <= S (browsers w))%nat
  /\ (browsers w' = S (browsers w) ->
      port w = None /\ port w' = Some (servers w)
      /\ authServer (this w') = Some (servers w)
      /\ (exists doc, discovery out = Ok doc /\ discoveryDocument (this w') = Some doc)
      /\ clientInfo (this w') <> None).
Proof.
  destruct (_performAuthentication out w) as [r w'] eqn:E.
  apply _performAuthentication_stages in E
    as (_ & [(_ & (_ & B & _) & _) | (P0 & P1 & A1 & D & C & B & _)]).
  - rewrite B. split; [lia|]. intros H. exfalso. lia.
  - split; [exact B|]. intros _. tauto.
Qed.

Lemma browser_opens_after_listener_witness :
  let w' := snd (_performAuthentication (Example.outside Example.consent) Example.world) in
  browsers w' = 1%nat /\ port w' = Some 0%nat.
Proof.
  intros w'.
  assert (Hb : browsers w' = 1%nat) by (vm_compute; reflexivity).
  pose proof (browser_opens_after_listener (Example.outside Example.consent) Example.world)
    as H.
  fold w' in H.
  destruct (_performAuthentication (Example.outside Example.consent) Example.world)
    as [r w0].
  subst w'. cbn [snd] in *. destruct H as [_ H]. split; [exact Hb|].
  apply H. rewrite Hb. reflexivity.
Defined.

(** X14. A listener left listening blocks the next attempt: on an
    instance whose callback port is still held by a listener (no
    [cleanup()] since the attempt that started it), with no promise
    registered and no access token in the store, [ensureAuthenticated]
    throws; it opens no browser and posts no token request, and the token
    record and the listener are as they were. *)
Theorem listener_left_listening_blocks_retry (out : Outside) (w : World) :
  port w <> None ->
  authenticationPromise (this w) = None ->
  unauthenticated w ->
  let '(r, w') := ensureAuthenticated out w in
  (exists e, r = Throw e)
  /\ browsers w' = browsers w /\ exchanges w' = exchanges w
  /\ keeps_tokens w w' /\ port w' = port w.
Proof.
  intros Hport Hp Ht.
  destruct (ensureAuthenticated out w) as [r w'] eqn:E.
  apply (ensureAuthenticated_cases _ _ _ _ Hp) in E
    as [(Ht' & _) | (_ & w0 & w1 & Q0 & L0 & _ & _ & _ & F & ->)].
  { unfold unauthenticated in Ht. congruence. }
  apply _performAuthentication_stages in F as (_ & [(He & Q1 & L1) | (P0 & _)]).
  - pose proof (quiet_trans _ _ _ Q0 Q1) as (K & B & X).
    destruct (same_listener_trans _ _ _ L0 L1) as (Lp & _).
    split; [exact He|]. split; [exact B|]. split; [exact X|]. split; [exact K|exact Lp].
  - destruct L0 as (Lp & _). congruence.
Qed.

Lemma listener_left_listening_blocks_retry_witness :
  port Retry.timed_out = Some 0%nat
  /\ (exists e,
        fst (ensureAuthenticated (Example.outside Example.consent) Retry.timed_out) = Throw e)
  /\ browsers (snd (ensureAuthenticated (Example.outside Example.consent) Retry.timed_out))
     = browsers Retry.timed_out.
Proof.
  assert (Hport : port Retry.timed_out = Some 0%nat) by (vm_compute; reflexivity).
  assert (Hp : authenticationPromise (this Retry.timed_out) = None)
    by (vm_compute; reflexivity).
  assert (Ht : unauthenticated Retry.timed_out) by (vm_compute; reflexivity).
  assert (Hne : port Retry.timed_out <> None) by (rewrite Hport; discriminate).
  pose proof (listener_left_listening_blocks_retry (Example.outside Example.consent)
                Retry.timed_out Hne Hp Ht) as H.
  destruct (ensureAuthenticated (Example.outside Example.consent) Retry.timed_out) as [r w'].
  destruct H as (He & Hb & _). cbn [fst snd]. tauto.
Defined.

Lemma cleanup_cases w :
  cleanup w
  = (Ok tt,
     set_this (set_onceListeners [])
       match authServer (this w) with
       | Some server =>
           if decide (port w = Some server)
           then set_port None (emit_effect (CloseServer server) w)
           else emit_effect (CloseServer server) w
       | None => w
       end).
Proof.
  unfold cleanup, OAuthServer.close. run.
  destruct (authServer (this w)) as [server|]; run; [|reflexivity].
  destruct (decide (port w = Some server)); reflexivity.
Qed.

(** X15. [cleanup()] never throws and can be called again: in every state
    it returns normally, removes all event listeners and leaves the store
    alone; it frees the callback port when the listener of this instance
    holds it, so that a listener can be started again; without a listener
    it closes nothing; and a second call returns normally too (its close
    of the server that is no longer listening fails, and the failure is
    ignored) and changes neither port nor store. *)
Theorem cleanup_always_returns (w : World) :
  exists w1 w2,
    cleanup w = (Ok tt, w1)
    /\ onceListeners (this w1) = [] /\ disk w1 = disk w
    /\ (forall server,
          authServer (this w) = Some server -> port w = Some server ->
          port w1 = None /\ fst (initializeAuth (Ok tt) w1) = Ok (servers w))
    /\ (authServer (this w) = None -> port w1 = port w /\ trace w1 = trace w)
    /\ cleanup w1 = (Ok tt, w2)
    /\ onceListeners (this w2) = [] /\ disk w2 = disk w1 /\ port w2 = port w1.
Proof.
  do 2 eexists. split; [apply cleanup_cases|].
  split; [reflexivity|].
  split; [destruct (authServer (this w)); [case_decide|]; reflexivity|].
  split.
  { intros server Ha Hp. rewrite Ha, decide_True by exact Hp. split; [reflexivity|].
    unfold initializeAuth, OAuthServer.createOAuthCallbackServer, opts. run. reflexivity. }
  split.
  { intros Ha. rewrite Ha. split; reflexivity. }
  split; [apply cleanup_cases|].
  split; [reflexivity|].
  destruct (authServer (this w)) as [server|] eqn:Ha; cbn.
  - destruct (decide (port w = Some server)) as [Hp|Hp]; cbn; rewrite Ha.
    + rewrite decide_False by discriminate. split; reflexivity.
    + rewrite decide_False by exact Hp. split; reflexivity.
  - rewrite Ha. split; reflexivity.
Qed.

(** ** The wait for the redirect *)

Lemma truthy_opt_true_given k ps :
  truthy_opt (params_get k ps) = true -> exists v, given k ps v /\ js_string (params_get k ps) = v.
Proof.
  unfold given. destruct (params_get k ps) as [v|]; [|discriminate].
  cbn. intros H. apply truthy_true in H. eauto.
Qed.

Lemma truthy_opt_false_not_given k ps :
  truthy_opt (params_get k ps) = false -> not_given k ps.
Proof.
  unfold not_given. destruct (params_get k ps) as [v|]; [|tauto].
  cbn. unfold truthy. destruct (String.eqb_spec v ""); [subst; tauto|discriminate].
Qed.

(** The requests on which the listener emits ['auth-code']. *)
Lemma requestListener_code path req reply payload :
  OAuthServer.requestListener path req = Ok reply ->
  OAuthServer.emitted reply = Some ("auth-code", payload) ->
  exists ps, req = ReqUrl path ps /\ not_given "error" ps /\ given "code" ps payload.
Proof.
  destruct req as [| |pathname ps]; cbn; [intros [= <-]; discriminate|discriminate|].
  destruct (String.eqb_spec pathname path) as [->|]; [|intros [= <-]; discriminate].
  destruct (truthy_opt (params_get "error" ps)) eqn:He; [intros [= <-]; discriminate|].
  destruct (truthy_opt (params_get "code" ps)) eqn:Hc; intros [= <-]; [|discriminate].
  cbn. intros [= <-]. exists ps. split; [reflexivity|].
  split; [now apply truthy_opt_false_not_given|].
  apply truthy_opt_true_given in Hc as (v & G & <-). exact G.
Qed.

Lemma serve_code path requests w code w' :
  serve path requests w = (Ok code, w') ->
  exists ps, In (ReqUrl path ps) requests /\ not_given "error" ps /\ given "code" ps code.
Proof.
  revert w. induction requests as [|req rest IH]; intros w; cbn [serve].
  - run. discriminate.
  - assert (Later : serve path rest w = (Ok code, w') ->
                    exists ps, In (ReqUrl path ps) (req :: rest)
                               /\ not_given "error" ps /\ given "code" ps code).
    { intros H. apply IH in H as (ps & Hin & H).
      exists ps. split; [right; exact Hin|exact H]. }
    destruct (OAuthServer.requestListener path req) as [reply|e] eqn:R; [|exact Later].
    unfold bind at 1. unfold effect at 1, modify at 1.
    destruct (OAuthServer.emitted reply) as [[event payload]|] eqn:Em.
    + run. destruct (String.eqb_spec event "auth-code") as [->|]; run; [|discriminate].
      intros [= <- <-].
      destruct (requestListener_code _ _ _ _ R Em) as (ps & -> & He & Hc).
      exists ps. split; [left; reflexivity|tauto].
    + intros H. apply IH in H as (ps & Hin & H). exists ps. split; [right; exact Hin|exact H].
Qed.

Lemma serve_passed_over path pre rest w :
  Forall (passed_over path) pre ->
  exists w1,
    serve path (pre ++ rest) w = serve path rest w1 /\ this w1 = this w.
Proof.
  intros H. revert w. induction H as [|req pre (reply & R & Em) _ IH]; intros w.
  - exists w. split; reflexivity.
  - cbn [app serve]. rewrite R.
    unfold bind at 1. unfold effect at 1, modify at 1. rewrite Em.
    destruct (IH (emit_effect (Respond (OAuthServer.response reply)) w)) as (w1 & E & T).
    exists w1. split; [exact E|exact T].
Qed.

Lemma waitForAuthCode_passed_over pre rest w :
  Forall (passed_over (listenerPath w)) pre ->
  exists w1,
    waitForAuthCode (pre ++ rest) w = serve (listenerPath w) rest w1
    /\ this w1
       = set_onceListeners (onceListeners (this w) ++ ["auth-code"; "auth-error"]) (this w).
Proof.
  intros H. unfold waitForAuthCode, opts. unfold bind at 1 2. unfold gets at 1, modify at 1.
  destruct (serve_passed_over _ _ rest
              (set_this (fun p => set_onceListeners
                                    (onceListeners p ++ ["auth-code"; "auth-error"]) p) w) H)
    as (w1 & E & T).
  exists w1. split; [exact E|exact T].
Qed.

(** X16. The wait for the redirect is settled by the first request on
    which the listener emits an event: after requests that are answered
    without an event (other paths, the callback path without code and
    error), a request to the callback path with a code and no error makes
    [waitForAuthCode] return that code, and one with an error makes it
    throw 'Authentication error: ' followed by the error; when no request
    emits an event the timer fires and it throws 'Authentication timeout'.
    The one-shot listener of the event that did not occur stays
    registered (both after the timeout). *)
Theorem wait_settles_on_first_event
    (w : World) (pre post : list Request) (ps : list (string * string)) :
  Forall (passed_over (listenerPath w)) pre ->
  (forall code,
     not_given "error" ps -> given "code" ps code ->
     let '(r, w') := waitForAuthCode (pre ++ ReqUrl (listenerPath w) ps :: post) w in
     r = Ok code
     /\ In "auth-error" (onceListeners (this w'))
     /\ ~ In "auth-code" (onceListeners (this w')))
  /\ (forall error,
        given "error" ps error ->
        let '(r, w') := waitForAuthCode (pre ++ ReqUrl (listenerPath w) ps :: post) w in
        r = Throw (newError ("Authentication error: " ++ error))
        /\ In "auth-code" (onceListeners (this w'))
        /\ ~ In "auth-error" (onceListeners (this w')))
  /\ (let '(r, w') := waitForAuthCode pre w in
      r = Throw (newError "Authentication timeout")
      /\ In "auth-code" (onceListeners (this w'))
      /\ In "auth-error" (onceListeners (this w'))).
Proof.
  intros Hpre. split; [|split].
  - intros code He Hc.
    destruct (waitForAuthCode_passed_over pre (ReqUrl (listenerPath w) ps :: post) w Hpre)
      as (w1 & -> & T).
    cbn [serve OAuthServer.requestListener].
    rewrite String.eqb_refl, (truthy_opt_not_given _ _ He), (truthy_opt_given _ _ _ Hc).
    destruct Hc as [Hc _]. rewrite Hc. run. rewrite T. cbn.
    split; [reflexivity|]. rewrite List.filter_app. cbn. split.
    + apply in_or_app. right. left. reflexivity.
    + rewrite in_app_iff. intros [H | [H | []]]; [|discriminate H].
      apply List.filter_In in H as [_ H]. cbn in H. discriminate H.
  - intros error Hg.
    destruct (waitForAuthCode_passed_over pre (ReqUrl (listenerPath w) ps :: post) w Hpre)
      as (w1 & -> & T).
    cbn [serve OAuthServer.requestListener].
    rewrite String.eqb_refl, (truthy_opt_given _ _ _ Hg).
    destruct Hg as [Hg _]. rewrite Hg. run. rewrite T. cbn.
    split; [reflexivity|]. rewrite List.filter_app. cbn. split.
    + apply in_or_app. right. left. reflexivity.
    + rewrite in_app_iff. intros [H | [H | []]]; [|discriminate H].
      apply List.filter_In in H as [_ H]. cbn in H. discriminate H.
  - destruct (waitForAuthCode_passed_over pre [] w Hpre) as (w1 & E & T).
    rewrite app_nil_r in E. rewrite E. cbn [serve]. run. rewrite T. cbn.
    split; [reflexivity|]. rewrite !in_app_iff. cbn. tauto.
Qed.


Lemma wait_settles_on_first_event_witness :
  let '(r, w') :=
    waitForAuthCode
      ([ReqUrl "/favicon.ico" []; NoUrl; ReqUrl "/oauth/callback" [("state", "xyz")]]
       ++ ReqUrl (listenerPath Example.world) [("code", "abc123")]
          :: [ReqUrl "/oauth/callback" []])
      Example.world in
  r = Ok "abc123"
  /\ In "auth-error" (onceListeners (this w'))
  /\ ~ In "auth-code" (onceListeners (this w')).
Proof.
  assert (Hpath : listenerPath Example.world = "/oauth/callback") by reflexivity.
  assert (Hpre : Forall (passed_over (listenerPath Example.world))
                   [ReqUrl "/favicon.ico" []; NoUrl;
                    ReqUrl "/oauth/callback" [("state", "xyz")]]).
  { rewrite Hpath. do 3 (constructor; [eexists; split; reflexivity|]). constructor. }
  assert (Hcode : given "code" [("code", "abc123")] "abc123")
    by (split; [reflexivity|discriminate]).
  exact (proj1 (wait_settles_on_first_event Example.world _ [ReqUrl "/oauth/callback" []]
                  [("code", "abc123")] Hpre)
           "abc123" (or_introl eq_refl) Hcode).
Defined.

(** ** The authorization request and the token request *)

Lemma count_zero_In f (d : list Effect) x : count f d = 0%nat -> In x d -> f x = false.
Proof.
  unfold count. intros H Hin. destruct (f x) eqn:E; [|reflexivity].
  assert (Hf : In x (List.filter f d)) by (apply List.filter_In; tauto).
  destruct (List.filter f d); [destruct Hf|discriminate].
Qed.

Lemma exchanges_In w w' d url form :
  trace w' = trace w ++ d -> In (HttpPostForm url form) d -> exchanges w' <> exchanges w.
Proof.
  unfold exchanges. intros -> Hin. rewrite count_app. intros H.
  assert (Hz : count is_exchange d = 0%nat) by lia.
  pose proof (count_zero_In _ _ _ Hz Hin) as Hf. discriminate Hf.
Qed.

Lemma waitForAuthCode_code requests w code w' :
  waitForAuthCode requests w = (Ok code, w') ->
  exists ps,
    In (ReqUrl (listenerPath w) ps) requests /\ not_given "error" ps /\ given "code" ps code.
Proof.
  unfold waitForAuthCode, opts. unfold bind at 1 2. unfold gets at 1, modify at 1.
  apply serve_code.
Qed.

(** [requestAuthorization] when the write of the verifier succeeds. *)
Lemma requestAuthorization_saved rb launched w doc ci :
  discoveryDocument (this w) = Some doc -> clientInfo (this w) = Some ci ->
  faults (disk w) !! codeVerifierPath w (serverUrlHash (this w)) = None ->
  let pkce := generatePKCEChallenge rb in
  let w1 := set_disk (set_code_verifier_txt
                        (insert (codeVerifierPath w (serverUrlHash (this w)))
                                (Holds (verifier pkce))))
              (emit_effect (FsWrite (codeVerifierPath w (serverUrlHash (this w))))
                 (set_this (set_codeVerifier (Some (verifier pkce))) w)) in
  requestAuthorization rb launched w
  = if canParse w (authorization_endpoint doc) None
    then
      match redirect_uris (client_metadata ci) with
      | None => (Throw (TypeError "Cannot read properties of undefined (reading '0')"), w1)
      | Some uris =>
          (match launched with Ok _ => Ok pkce | Throw e => Throw e end,
           emit_effect
             (OpenBrowser
                (mkUrl (authorization_endpoint doc) None
                   ([("client_id", client_id ci); ("response_type", "code");
                     ("redirect_uri", js_string (uris !! 0%nat));
                     ("code_challenge", challenge pkce); ("code_challenge_method", "S256")]
                    ++ (if truthy_opt (authorizeResource (options (this w)))
                        then [("resource", js_string (authorizeResource (options (this w))))]
                        else [])))) w1)
      end
    else (Throw invalid_url, w1).
Proof.
  intros Hdoc Hci Hf. unfold requestAuthorization, saveCodeVerifier, hash, opts.
  run. rewrite Hdoc, Hci. run. unfold codeVerifierPath in Hf. rewrite Hf. run.
  destruct (canParse w (authorization_endpoint doc) None); [|reflexivity]. run.
  unfold index0. destruct (redirect_uris (client_metadata ci)) as [uris|]; [|reflexivity].
  run. destruct (truthy_opt (authorizeResource (options (this w)))); run;
    destruct launched; reflexivity.
Qed.

(** The token request of a flow, and what led to it. *)
Lemma flow_token_request out w r w' d url form :
  performAuthorizationCodeFlow out w = (r, w') ->
  trace w' = trace w ++ d ->
  In (HttpPostForm url form) d ->
  exists doc ci uris code ps,
    discoveryDocument (this w) = Some doc
    /\ clientInfo (this w) = Some ci
    /\ redirect_uris (client_metadata ci) = Some uris
    /\ In (ReqUrl (listenerPath w) ps) (redirect out)
    /\ not_given "error" ps /\ given "code" ps code
    /\ url = token_endpoint doc
    /\ form = [("grant_type", "authorization_code"); ("code", code);
               ("redirect_uri", js_string (uris !! 0%nat)); ("client_id", client_id ci);
               ("code_verifier", verifier (generatePKCEChallenge (randomBytes out)))]
              ++ secret_field ci
    /\ In (OpenBrowser
             (mkUrl (authorization_endpoint doc) None
                ([("client_id", client_id ci); ("response_type", "code");
                  ("redirect_uri", js_string (uris !! 0%nat));
                  ("code_challenge", challenge (generatePKCEChallenge (randomBytes out)));
                  ("code_challenge_method", "S256")]
                 ++ (if truthy_opt (authorizeResource (options (this w)))
                     then [("resource", js_string (authorizeResource (options (this w))))]
                     else [])))) d.
Proof.
  intros E T Hin. unfold performAuthorizationCodeFlow in E. unfold bind at 1 in E.
  destruct (requestAuthorization _ _ w) as [[pkce|e] w1] eqn:E1.
  2:{ injection E as <- <-. apply requestAuthorization_stage in E1 as (_ & X & _).
      exfalso. exact (exchanges_In _ _ _ _ _ T Hin X). }
  pose proof E1 as S1. apply requestAuthorization_stage in S1 as (_ & X1 & _ & _ & D1 & _).
  destruct (discoveryDocument (this w)) as [doc|] eqn:Hdoc.
  2:{ exfalso. revert E1. unfold requestAuthorization. run. rewrite Hdoc. discriminate. }
  destruct (clientInfo (this w)) as [ci|] eqn:Hci.
  2:{ exfalso. revert E1. unfold requestAuthorization. run. rewrite Hdoc, Hci. discriminate. }
  destruct (faults (disk w) !! codeVerifierPath w (serverUrlHash (this w))) as [f|] eqn:Hw.
  { exfalso. revert E1. unfold requestAuthorization, saveCodeVerifier, hash. run.
      rewrite Hdoc, Hci. run. unfold codeVerifierPath in Hw. rewrite Hw.
      destruct f; discriminate. }
  rewrite (requestAuthorization_saved _ _ _ _ _ Hdoc Hci Hw) in E1. cbv zeta in E1.
  destruct (canParse w (authorization_endpoint doc) None); [|discriminate E1].
  destruct (redirect_uris (client_metadata ci)) as [uris|] eqn:Hu; [|discriminate E1].
  destruct (browser out) as [[]|e]; [|discriminate E1].
  injection E1 as <- Hw1.
  unfold bind at 1 in E.
  destruct (waitForAuthCode _ w1) as [[code|e] w2] eqn:E2.
  2:{ injection E as <- <-. apply waitForAuthCode_stage in E2 as ((_ & _ & X2) & _).
      exfalso. rewrite X1 in X2. exact (exchanges_In _ _ _ _ _ T Hin X2). }
  pose proof E2 as S2. apply waitForAuthCode_effects in S2 as (d2 & (T2 & _) & C2 & _).
  pose proof E2 as D2. apply waitForAuthCode_stage in D2 as (_ & _ & (Dd & Dc) & _).
  apply waitForAuthCode_code in E2 as (ps & Hps & He & Hc).
  destruct D1 as (Dd1 & Dc1). rewrite Dd1, Hdoc in Dd. rewrite Dc1, Hci in Dc.
  assert (Hpath : listenerPath w1 = listenerPath w) by (rewrite <- Hw1; reflexivity).
  rewrite Hpath in Hps.
  rewrite (exchangeCodeForTokens_run _ _ _ _ _ _ Dd Dc), Hu in E. cbv zeta in E.
  exists doc, ci, uris, code, ps.
  split; [reflexivity|]. split; [reflexivity|]. split; [exact Hu|].
  split; [exact Hps|]. split; [exact He|]. split; [exact Hc|].
  assert (Hz : count is_exchange d2 = 0%nat) by (revert C2; unfold calls; congruence).
  assert (Hd : exists tail,
             d = [FsWrite (codeVerifierPath w (serverUrlHash (this w)));
                  OpenBrowser
                    (mkUrl (authorization_endpoint doc) None
                       ([("client_id", client_id ci); ("response_type", "code");
                         ("redirect_uri", js_string (uris !! 0%nat));
                         ("code_challenge", challenge (generatePKCEChallenge (randomBytes out)));
                         ("code_challenge_method", "S256")]
                        ++ (if truthy_opt (authorizeResource (options (this w)))
                            then [("resource", js_string (authorizeResource (options (this w))))]
                            else [])))]
                 ++ d2
                 ++ HttpPostForm (token_endpoint doc)
                      ([("grant_type", "authorization_code"); ("code", code);
                        ("redirect_uri", js_string (uris !! 0%nat));
                        ("client_id", client_id ci);
                        ("code_verifier", verifier (generatePKCEChallenge (randomBytes out)))]
                       ++ secret_field ci)
                    :: tail
             /\ count is_exchange tail = 0%nat).
  { destruct (token out) as [data|e];
      [destruct (faults (disk w2) !! _) as [[|n]|]|]; injection E as <- <-; cbn in T;
      rewrite T2 in T; rewrite <- Hw1 in T; cbn in T; rewrite <- !app_assoc in T;
      apply app_inv_head in T; subst d; eexists; (split; [cbn; reflexivity|reflexivity]). }
  destruct Hd as (tail & -> & Htail).
  assert (Hpost : HttpPostForm url form
                  = HttpPostForm (token_endpoint doc)
                      ([("grant_type", "authorization_code"); ("code", code);
                        ("redirect_uri", js_string (uris !! 0%nat));
                        ("client_id", client_id ci);
                        ("code_verifier", verifier (generatePKCEChallenge (randomBytes out)))]
                       ++ secret_field ci)).
  { cbn in Hin. destruct Hin as [H|[H|Hin]]; [discriminate H|discriminate H|].
    apply in_app_or in Hin as [Hin|[H|Hin]].
    - pose proof (count_zero_In _ _ _ Hz Hin) as F. discriminate F.
    - symmetry. exact H.
    - pose proof (count_zero_In _ _ _ Htail Hin) as F. discriminate F. }
  injection Hpost as -> ->.
  split; [reflexivity|]. split; [reflexivity|]. right. left. reflexivity.
Qed.

(** X17. No token request without a redirect: whenever the authorization
    code flow posts to the token endpoint, a request to the callback path
    of the listener, with a non-empty code and no error, was among those
    that reached the listener, and the request posted is the
    [authorization_code] grant for that code, sent to the token endpoint of
    the discovery document. *)
Theorem token_request_carries_received_code
    (out : Outside) (w w' : World) (r : Result unit) (d : list Effect)
    (url : string) (form : list (string * string)) :
  performAuthorizationCodeFlow out w = (r, w') ->
  trace w' = trace w ++ d ->
  In (HttpPostForm url form) d ->
  exists ps code,
    In (ReqUrl (listenerPath w) ps) (redirect out)
    /\ not_given "error" ps /\ given "code" ps code
    /\ field "code" form = code
    /\ field "grant_type" form = "authorization_code"
    /\ exists doc, discoveryDocument (this w) = Some doc /\ url = token_endpoint doc.
Proof.
  intros E T Hin.
  destruct (flow_token_request _ _ _ _ _ _ _ E T Hin)
    as (doc & ci & uris & code & ps & Hdoc & _ & _ & Hps & He & Hc & -> & -> & _).
  exists ps, code. repeat split; try assumption; try apply Hc. eauto.
Qed.

Lemma token_request_carries_received_code_witness :
  exists ps,
    In (ReqUrl (listenerPath Example.ready) ps) Example.consent
    /\ given "code" ps "abc123".
Proof.
  destruct (performAuthorizationCodeFlow (Example.outside Example.consent) Example.ready)
    as [r0 w0] eqn:E.
  assert (T : trace w0 = trace Example.ready ++ trace w0) by reflexivity.
  assert (Hd : exists url form,
             In (HttpPostForm url form) (trace w0) /\ field "code" form = "abc123").
  { replace (trace w0) with (trace (snd (performAuthorizationCodeFlow
                                           (Example.outside Example.consent) Example.ready)))
      by (rewrite E; reflexivity).
    vm_compute. do 2 eexists. split; [repeat first [left; reflexivity | right]|reflexivity]. }
  destruct Hd as (url & form & Hin & Hcode).
  destruct (token_request_carries_received_code (Example.outside Example.consent)
              Example.ready w0 r0 (trace w0) url form E T Hin)
    as (ps & code & Hps & _ & Hc & Hf & _).
  exists ps. split; [exact Hps|]. rewrite Hcode in Hf. rewrite Hf. exact Hc.
Defined.

(** X18. The token request answers the authorization request: whenever
    the flow posts to the token endpoint, it has opened the browser at an
    authorization URL with [response_type=code] and
    [code_challenge_method=S256] whose [code_challenge] is the S256
    transform of the [code_verifier] posted, and both requests carry the
    same [client_id] and the same [redirect_uri]; the token request carries
    a [client_secret] exactly when the client identity has a non-empty
    one, and the authorization URL a [resource] exactly when
    [authorizeResource] is configured and non-empty. *)
Theorem token_request_answers_the_challenge
    (out : Outside) (w w' : World) (r : Result unit) (d : list Effect)
    (url : string) (form : list (string * string)) :
  performAuthorizationCodeFlow out w = (r, w') ->
  trace w' = trace w ++ d ->
  In (HttpPostForm url form) d ->
  exists authUrl ci,
    In (OpenBrowser authUrl) d
    /\ clientInfo (this w) = Some ci
    /\ S256_valid (field "code_verifier" form) (field "code_challenge" (url_params authUrl))
       = true
    /\ field "code_challenge_method" (url_params authUrl) = "S256"
    /\ field "response_type" (url_params authUrl) = "code"
    /\ field "client_id" form = client_id ci
    /\ field "client_id" (url_params authUrl) = client_id ci
    /\ field "redirect_uri" form = field "redirect_uri" (url_params authUrl)
    /\ params_get "client_secret" form
       = (if truthy_opt (client_secret ci) then client_secret ci else None)
    /\ params_get "resource" (url_params authUrl)
       = (if truthy_opt (authorizeResource (options (this w)))
          then authorizeResource (options (this w)) else None).
Proof.
  intros E T Hin.
  destruct (flow_token_request _ _ _ _ _ _ _ E T Hin)
    as (doc & ci & uris & code & ps & _ & Hci & _ & _ & _ & _ & -> & -> & Hopen).
  eexists _, ci. split; [exact Hopen|]. split; [exact Hci|].
  split.
  { change (S256_valid (verifier (generatePKCEChallenge (randomBytes out)))
                       (challenge (generatePKCEChallenge (randomBytes out))) = true).
    unfold S256_valid, generatePKCEChallenge. cbn [verifier challenge].
    apply String.eqb_refl. }
  unfold field, secret_field. cbn.
  do 5 (split; [reflexivity|]). split.
  - destruct (client_secret ci) as [s|]; cbn; [|reflexivity].
    destruct (truthy s); reflexivity.
  - destruct (authorizeResource (options (this w))) as [s|]; cbn; [|reflexivity].
    destruct (truthy s); reflexivity.
Qed.

Lemma token_request_answers_the_challenge_witness :
  exists authUrl form,
    In (OpenBrowser authUrl)
      (trace (snd (performAuthorizationCodeFlow (Example.outside Example.consent)
                     Example.ready)))
    /\ S256_valid (field "code_verifier" form) (field "code_challenge" (url_params authUrl))
       = true.
Proof.
  destruct (performAuthorizationCodeFlow (Example.outside Example.consent) Example.ready)
    as [r0 w0] eqn:E.
  assert (T : trace w0 = trace Example.ready ++ trace w0) by reflexivity.
  assert (Hd : exists url form, In (HttpPostForm url form) (trace w0)).
  { replace (trace w0) with (trace (snd (performAuthorizationCodeFlow
                                           (Example.outside Example.consent) Example.ready)))
      by (rewrite E; reflexivity).
    vm_compute. do 2 eexists. repeat first [left; reflexivity | right]. }
  destruct Hd as (url & form & Hin).
  destruct (token_request_answers_the_challenge (Example.outside Example.consent)
              Example.ready w0 r0 (trace w0) url form E T Hin)
    as (authUrl & ci & Hopen & _ & Hs & _).
  exists authUrl, form. split; [exact Hopen|exact Hs].
Defined.

(** ** Registration and the store *)

(** X19. A registration that cannot be saved is not repeated by this
    instance: when dynamic registration succeeds at the server and the
    write of the identity fails, [registerClient] throws 'Failed to
    register OAuth client: ' followed by the cause; the store is as it
    was when the write was refused, and holds an unreadable identity
    record when the write was cut short; either way the identity the
    server returned stays in memory, and every later [registerClient] on
    this instance adopts it without posting a registration. *)
Theorem registration_survives_failed_save
    (w : World) (identity : OAuthClientInformationFull) (fault : Fault) :
  staticOAuthClientInfo (options (this w)) = None ->
  cached_identity w = None ->
  has_registration_endpoint w ->
  faults (disk w) !! clientInfoPath w (serverUrlHash (this w)) = Some fault ->
  exists cause w1,
    registerClient (Ok identity) w
    = (Throw (newError ("Failed to register OAuth client: " ++ error_toString cause)), w1)
    /\ clientInfo (this w1) = Some identity
    /\ disk w1
       = match fault with
         | Refused => disk w
         | Torn _ =>
             set_client_info_json
               (insert (clientInfoPath w (serverUrlHash (this w))) Corrupt) (disk w)
         end
    /\ count is_registration (trace w1) = S (count is_registration (trace w))
    /\ forall answer,
         exists w2,
           registerClient answer w1 = (Ok tt, w2)
           /\ clientInfo (this w2) = Some identity
           /\ trace w2 = trace w1.
Proof.
  intros Hstatic Hcached Hendpoint Hw.
  apply has_registration_endpoint_truthy in Hendpoint.
  unfold cached_identity in Hcached.
  destruct (clientInfo (this w)) as [c|] eqn:Hc; [discriminate Hcached|].
  unfold registerClient, clientInformation, saveClientInformation, hash, opts. run.
  rewrite Hstatic. run. rewrite Hc. run. rewrite Hcached. run. rewrite Hendpoint. run.
  unfold clientInfoPath in Hw. rewrite Hw.
  destruct fault as [|n]; run; (do 2 eexists); (split; [reflexivity|]); cbn;
    (split; [reflexivity|]); (split; [reflexivity|]);
    (split; [rewrite !count_snoc; cbn; lia|]);
    intros answer; rewrite Hstatic; run; eexists; repeat split.
Qed.

Lemma registration_survives_failed_save_witness :
  exists w1,
    fst (registerClient (Ok Example.identity) Sample.discovered)
    = Throw (newError "Failed to register OAuth client: Error: EACCES: permission denied")
    /\ fst (registerClient (Throw Example.refused) w1) = Ok tt.
Proof.
  assert (He : has_registration_endpoint Sample.discovered).
  { exists Example.metadata, "https://as.example/register".
    split; [reflexivity|]. split; [reflexivity|discriminate]. }
  assert (Hf : faults (disk Sample.discovered)
               !! clientInfoPath Sample.discovered (serverUrlHash (this Sample.discovered))
               = Some Refused) by (vm_compute; reflexivity).
  destruct (registration_survives_failed_save Sample.discovered Example.identity Refused
              eq_refl eq_refl He Hf) as (cause & w1 & E & _ & _ & _ & Hnext).
  exists w1. split.
  - vm_compute. reflexivity.
  - destruct (Hnext (Throw Example.refused)) as (w2 & E2 & _). rewrite E2. reflexivity.
Defined.

(** ** [refreshTokens] *)

#[global] Arguments refreshTokens : simpl never.

Lemma refreshTokens_cached_run R out w doc ci :
  discoveryDocument (this w) = Some doc -> clientInfo (this w) = Some ci ->
  refreshTokens R out w
  = let w1 := emit_effect (HttpPostForm (token_endpoint doc) (refreshForm R ci)) w in
    match token out with
    | Ok data =>
        let t := mkTokens (access_token data) (token_type data) (expires_in data)
                   (Some (js_or (refresh_token data) R)) (scope data) in
        match faults (disk w) !! tokenPath w (serverUrlHash (this w)) with
        | None =>
            (Ok t,
             set_disk (set_tokens_json
                         (insert (tokenPath w (serverUrlHash (this w))) (Holds t)))
               (emit_effect (FsWrite (tokenPath w (serverUrlHash (this w)))) w1))
        | Some Refused =>
            (Throw (newError ("Failed to refresh tokens: "
                                ++ error_toString (newError "EACCES: permission denied"))),
             w1)
        | Some (Torn _) =>
            (Throw (newError ("Failed to refresh tokens: "
                                ++ error_toString
                                     (newError "ENOSPC: no space left on device"))),
             set_disk (set_tokens_json
                         (insert (tokenPath w (serverUrlHash (this w))) Corrupt))
               (emit_effect (FsWrite (tokenPath w (serverUrlHash (this w)))) w1))
        end
    | Throw e => (Throw (newError ("Failed to refresh tokens: " ++ error_toString e)), w1)
    end.
Proof.
  intros Hdoc Hci. unfold refreshTokens, saveTokens, hash, refreshForm. run.
  rewrite Hdoc, Hci. run. rewrite Hdoc, Hci. run.
  destruct (token out) as [data|e]; run; [|reflexivity].
  unfold tokenPath. cbn. destruct (faults (disk w) !! _) as [[|n]|]; reflexivity.
Qed.

(** X20. A refresh with the endpoints in memory is one request: when the
    discovery document and the client identity are cached,
    [refreshTokens] posts the [refresh_token] grant (the refresh token,
    the client id and, when there is one, the client secret) to the token
    endpoint, and reaches nothing else beyond the file system: no
    discovery, no registration, no listener, no browser; when the token
    endpoint fails it throws 'Failed to refresh tokens: ' followed by the
    cause and the store is as it was. *)
Theorem refresh_with_cached_endpoints
    (w : World) (refreshToken : string) (out : Outside)
    (doc : AuthorizationServerMetadata) (ci : OAuthClientInformationFull) :
  discoveryDocument (this w) = Some doc ->
  clientInfo (this w) = Some ci ->
  let '(r, w') := refreshTokens refreshToken out w in
  (exists tail,
     trace w'
     = trace w ++ HttpPostForm (token_endpoint doc) (refreshForm refreshToken ci) :: tail
     /\ count beyond_files tail = 0%nat)
  /\ same_listener w w' /\ this w' = this w
  /\ (forall cause,
        token out = Throw cause ->
        r = Throw (newError ("Failed to refresh tokens: " ++ error_toString cause))
        /\ disk w' = disk w).
Proof.
  intros Hdoc Hci. rewrite (refreshTokens_cached_run _ _ _ _ _ Hdoc Hci). cbv zeta.
  destruct (token out) as [data|e]; [destruct (faults (disk w) !! _) as [[|n]|]|];
    (split; [eexists; split; [cbn; rewrite <- ?app_assoc; reflexivity|reflexivity]|]);
    (split; [repeat split|]); (split; [reflexivity|]);
    intros cause [=]; subst; split; reflexivity.
Qed.

Lemma refresh_with_cached_endpoints_witness :
  let '(r, w') := refreshTokens "refresh-1" Example.refreshing Example.ready in
  exists tail,
    trace w'
    = trace Example.ready
      ++ HttpPostForm "https://as.example/token"
           [("grant_type", "refresh_token"); ("refresh_token", "refresh-1");
            ("client_id", "client-1")] :: tail
    /\ count beyond_files tail = 0%nat.
Proof.
  pose proof (refresh_with_cached_endpoints Example.ready "refresh-1" Example.refreshing
                Example.metadata Example.identity eq_refl eq_refl) as H.
  destruct (refreshTokens "refresh-1" Example.refreshing Example.ready) as [r w'].
  exact (proj1 H).
Defined.

(** The first part of [refreshTokens]: nothing when the endpoints are
    cached, the discovery and the resolution of the identity otherwise. *)
Lemma refresh_resolution_stage out w r w' :
  refresh_resolution out w = (r, w') ->
  quiet w w' /\ same_listener w w' /\ same_partition w w'
  /\ faults (disk w') = faults (disk w)
  /\ (endpoints_cached w = true -> w' = w)
  /\ (endpoints_cached w = false ->
      count is_discovery (trace w')
      = (count is_discovery (trace w) + Nat.b2n (discoverable w))%nat
      /\ (discoverable w = false -> r = Throw invalid_url)
      /\ forall cause,
           discoverable w = true ->
           discovery out = Throw cause ->
           r = Throw (newError ("Failed to fetch OAuth discovery document: "
                                  ++ error_toString cause))).
Proof.
  assert (Hun : (discoverOAuthEndpoints (discovery out) ;; registerClient (registration out)) w
                = (r, w') ->
                quiet w w' /\ same_listener w w' /\ same_partition w w'
                /\ faults (disk w') = faults (disk w)
                /\ count is_discovery (trace w')
                   = (count is_discovery (trace w) + Nat.b2n (discoverable w))%nat
                /\ (discoverable w = false -> r = Throw invalid_url)
                /\ forall cause,
                     discoverable w = true ->
                     discovery out = Throw cause ->
                     r = Throw (newError ("Failed to fetch OAuth discovery document: "
                                            ++ error_toString cause))).
  { unfold bind at 1.
    destruct (discoverOAuthEndpoints _ w) as [[[]|e] w1] eqn:E1;
      pose proof E1 as F1;
      apply discoverOAuthEndpoints_stage in E1 as (Q1 & L1 & P1 & _ & R1);
      apply discoverOAuthEndpoints_effects
        in F1 as (d1 & (T1 & _ & _ & _ & _ & _ & _ & A1) & C1 & _).
    - intros E2. pose proof E2 as F2.
      apply registerClient_stage in E2 as (Q2 & L2 & P2 & _).
      apply registerClient_effects
        in F2 as (d2 & n & (T2 & _ & _ & _ & _ & _ & _ & A2) & C2 & _).
      split; [eapply quiet_trans; eassumption|].
      split; [eapply same_listener_trans; eassumption|].
      split; [eapply same_partition_trans; eassumption|].
      split; [congruence|].
      destruct R1 as (doc & Hd & _ & Hp).
      split; [|split].
      + rewrite T2, T1, !count_app. revert C1 C2. unfold calls.
        intros [= -> _ _ _ _] [= -> _ _ _ _]. lia.
      + congruence.
      + intros cause _ Hc. congruence.
    - intros [= <- <-]. split; [exact Q1|]. split; [exact L1|]. split; [exact P1|].
      split; [exact A1|].
      split; [|split].
      + rewrite T1, count_app. revert C1. unfold calls. intros [= -> _ _ _ _]. lia.
      + intros Hp. destruct R1 as (_ & _ & R1). rewrite Hp in R1. destruct R1 as [-> _].
        reflexivity.
      + intros cause Hp Hc. destruct R1 as (_ & _ & R1). rewrite Hp in R1.
        destruct R1 as (cause' & Hd & ->). congruence. }
  unfold endpoints_cached, refresh_resolution.
  destruct (discoveryDocument (this w)) as [doc|]; [destruct (clientInfo (this w)) as [ci|]|].
  - unfold ret. intros [= <- <-].
    split; [apply quiet_refl|]. split; [repeat split|]. split; [repeat split|].
    split; [reflexivity|]. split; [reflexivity|discriminate].
  - intros E. destruct (Hun E) as (Q & L & P & A & H).
    split; [exact Q|]. split; [exact L|]. split; [exact P|]. split; [exact A|].
    split; [discriminate|]. intros _. exact H.
  - intros E. destruct (Hun E) as (Q & L & P & A & H).
    split; [exact Q|]. split; [exact L|]. split; [exact P|]. split; [exact A|].
    split; [discriminate|]. intros _. exact H.
Qed.

Lemma refreshTokens_split R out w :
  refreshTokens R out w
  = let '(r0, w1) := refresh_resolution out w in
    match r0 with
    | Throw e => (Throw e, w1)
    | Ok _ =>
        match discoveryDocument (this w1), clientInfo (this w1) with
        | Some doc, Some ci => refreshTokens R out w1
        | _, _ => (Throw (newError "Missing discovery document or client info"), w1)
        end
    end.
Proof.
  unfold refreshTokens at 1. unfold bind at 1 2. unfold gets at 1 2.
  set (pre := match discoveryDocument (this w) with Some _ => _ | None => _ end).
  assert (Hpre : pre w = refresh_resolution out w).
  { unfold pre, refresh_resolution.
    destruct (discoveryDocument (this w)); [destruct (clientInfo (this w))|]; reflexivity. }
  unfold bind at 1. rewrite Hpre.
  destruct (refresh_resolution out w) as [[[]|e] w1]; [|reflexivity]. clear pre Hpre.
  destruct (discoveryDocument (this w1)) as [doc|] eqn:Hdoc;
    [destruct (clientInfo (this w1)) as [ci|] eqn:Hci|].
  - unfold refreshTokens. run. rewrite Hdoc, Hci. run. rewrite Hdoc, Hci. reflexivity.
  - run. rewrite Hdoc, Hci. reflexivity.
  - run. rewrite Hdoc. reflexivity.
Qed.

(** X21. A refresh that fails does not replace the token set: whenever
    [refreshTokens] throws, whatever the cause (the discovery, the
    registration, the token endpoint, the store), the token set the store
    returns is the one it returned before the call, or none, and
    [authInitialized] is as it was; the token records are untouched, and
    the token set stored still the one [tokens()] would read, unless the
    failure is that of the write of the new token set, cut short. No
    refresh ever opens the browser or starts or stops the listener. *)
Theorem failed_refresh_and_the_tokens (w : World) (refreshToken : string) (out : Outside) :
  let '(r, w') := refreshTokens refreshToken out w in
  browsers w' = browsers w /\ same_listener w w'
  /\ (forall e,
        r = Throw e ->
        authInitialized (this w') = authInitialized (this w)
        /\ (storedTokens w' = storedTokens w \/ storedTokens w' = None)
        /\ ((forall n,
               faults (disk w) !! tokenPath w (serverUrlHash (this w)) <> Some (Torn n)) ->
            tokens_json (disk w') = tokens_json (disk w)
            /\ storedTokens w' = storedTokens w)).
Proof.
  rewrite refreshTokens_split.
  destruct (refresh_resolution out w) as [r0 w1] eqn:E0.
  apply refresh_resolution_stage in E0 as ((K0 & B0 & _) & L0 & P0 & A0 & _).
  assert (Hst : forall w',
            kept_or_torn w1 w' -> same_partition w1 w' ->
            authInitialized (this w') = authInitialized (this w)
            /\ (storedTokens w' = storedTokens w \/ storedTokens w' = None)
            /\ ((forall n,
                   faults (disk w) !! tokenPath w (serverUrlHash (this w)) <> Some (Torn n)) ->
                tokens_json (disk w') = tokens_json (disk w)
                /\ storedTokens w' = storedTokens w)).
  { intros w' K P. pose proof (kept_or_torn_after _ _ _ K0 P0 A0 K) as K'.
    pose proof (same_partition_trans _ _ _ P0 P) as P'.
    destruct (kept_or_torn_stored _ _ P' K') as [Hs Hk].
    split; [apply K'|]. split; [exact Hs|]. intros Hn. specialize (Hk Hn).
    split; [exact Hk|]. destruct P' as [Ph Ps].
    unfold storedTokens, tokenPath. rewrite Ph, Ps, Hk. reflexivity. }
  assert (Hrefl : forall w0, kept_or_torn w0 w0) by (intros w0; split; [|left]; reflexivity).
  destruct r0 as [[]|e0].
  2:{ split; [exact B0|]. split; [exact L0|]. intros e _.
      apply Hst; [apply Hrefl|repeat split]. }
  destruct (discoveryDocument (this w1)) as [doc|] eqn:Hdoc;
    [destruct (clientInfo (this w1)) as [ci|] eqn:Hci|].
  2,3: split; [exact B0|]; (split; [exact L0|]); intros e _;
       (apply Hst; [apply Hrefl|repeat split]).
  rewrite (refreshTokens_cached_run _ _ _ _ _ Hdoc Hci). cbv zeta.
  destruct (token out) as [data|e];
    [destruct (faults (disk w1) !! _) as [[|n]|] eqn:Hf|];
    (split; [rewrite <- B0; unfold browsers; cbn; rewrite ?count_snoc; cbn; lia|]);
    (split; [eapply same_listener_trans; [exact L0|repeat split]|]);
    intros e' [=]; (apply Hst; [|repeat split]);
    (split; [reflexivity|]);
    first [left; reflexivity | right; exists n; split; [exact Hf|reflexivity]].
Qed.

Lemma failed_refresh_and_the_tokens_witness :
  let w' := snd (refreshTokens "refresh-1" Sample.token_endpoint_down Example.authenticated) in
  fst (refreshTokens "refresh-1" Sample.token_endpoint_down Example.authenticated)
  = Throw (newError "Failed to refresh tokens: AxiosError: connect ECONNREFUSED")
  /\ storedTokens w' = storedTokens Example.authenticated.
Proof.
  intros w'.
  assert (Hr : fst (refreshTokens "refresh-1" Sample.token_endpoint_down Example.authenticated)
               = Throw (newError "Failed to refresh tokens: AxiosError: connect ECONNREFUSED"))
    by (vm_compute; reflexivity).
  assert (Hn : forall n,
            faults (disk Example.authenticated)
            !! tokenPath Example.authenticated (serverUrlHash (this Example.authenticated))
            <> Some (Torn n)) by (intros n; vm_compute; discriminate).
  pose proof (failed_refresh_and_the_tokens Example.authenticated "refresh-1"
                Sample.token_endpoint_down) as H.
  subst w'.
  destruct (refreshTokens "refresh-1" Sample.token_endpoint_down Example.authenticated)
    as [r w0].
  cbn [fst snd] in *. destruct H as (_ & _ & H). split; [exact Hr|].
  destruct (H _ Hr) as (_ & _ & Hk). exact (proj2 (Hk Hn)).
Defined.

(** X22. The discovery of a refresh is lazy, and its failure is not
    disguised: when the discovery document or the client identity is not
    in memory, [refreshTokens] first builds the discovery URL and, when
    the server URL parses, sends the discovery request, once; when the
    server URL does not parse it throws [TypeError: Invalid URL] and
    sends no discovery request; when the request fails it throws 'Failed
    to fetch OAuth discovery document: ' followed by the cause (not the
    refresh error); in both failures it posts no token request. With both
    in memory it sends no discovery request. *)
Theorem refresh_discovers_lazily (w : World) (refreshToken : string) (out : Outside) :
  let '(r, w') := refreshTokens refreshToken out w in
  if endpoints_cached w
  then count is_discovery (trace w') = count is_discovery (trace w)
  else count is_discovery (trace w')
       = (count is_discovery (trace w) + Nat.b2n (discoverable w))%nat
       /\ (discoverable w = false -> r = Throw invalid_url /\ exchanges w' = exchanges w)
       /\ forall cause,
            discoverable w = true ->
            discovery out = Throw cause ->
            r = Throw (newError ("Failed to fetch OAuth discovery document: "
                                   ++ error_toString cause))
            /\ exchanges w' = exchanges w.
Proof.
  rewrite refreshTokens_split.
  destruct (refresh_resolution out w) as [r0 w1] eqn:E0.
  apply refresh_resolution_stage in E0 as ((_ & _ & X0) & _ & _ & _ & Hc & Hu).
  assert (Hpost : forall r w',
            match r0 with
            | Throw e => (Throw e, w1)
            | Ok _ =>
                match discoveryDocument (this w1), clientInfo (this w1) with
                | Some doc, Some ci => refreshTokens refreshToken out w1
                | _, _ => (Throw (newError "Missing discovery document or client info"), w1)
                end
            end = (r, w') ->
            count is_discovery (trace w') = count is_discovery (trace w1)
            /\ (forall e, r0 = Throw e -> r = Throw e /\ w' = w1)).
  { intros r w'. destruct r0 as [[]|e0].
    2:{ intros [= <- <-]. split; [reflexivity|]. intros e [= <-]. split; reflexivity. }
    destruct (discoveryDocument (this w1)) as [doc|] eqn:Hdoc;
      [destruct (clientInfo (this w1)) as [ci|] eqn:Hci|].
    2,3: intros [= <- <-]; split; [reflexivity|discriminate].
    rewrite (refreshTokens_cached_run _ _ _ _ _ Hdoc Hci). cbv zeta.
    destruct (token out) as [data|e]; [destruct (faults (disk w1) !! _) as [[|n]|]|];
      intros [= <- <-]; (split; [cbn; rewrite ?count_snoc; cbn; lia|discriminate]). }
  destruct (match r0 with Ok _ => _ | Throw e => _ end) as [r w'] eqn:E.
  destruct (Hpost r w' eq_refl) as (Hd & Hthrow).
  destruct (endpoints_cached w).
  - rewrite Hd, (Hc eq_refl). reflexivity.
  - destruct (Hu eq_refl) as (Hn & Hinv & Hfail). split; [rewrite Hd; exact Hn|].
    split.
    + intros Hp. destruct (Hthrow _ (Hinv Hp)) as [-> ->]. split; [reflexivity|exact X0].
    + intros cause Hp Hcause. destruct (Hthrow _ (Hfail cause Hp Hcause)) as [-> ->].
      split; [reflexivity|exact X0].
Qed.

Lemma refresh_discovers_lazily_witness :
  endpoints_cached Example.world = false
  /\ fst (refreshTokens "refresh-1" Sample.server_down Example.world)
     = Throw (newError
                "Failed to fetch OAuth discovery document: AxiosError: connect ECONNREFUSED")
  /\ fst (refreshTokens "refresh-1" Sample.server_down Unparsable.world)
     = Throw invalid_url.
Proof.
  pose proof (refresh_discovers_lazily Example.world "refresh-1" Sample.server_down) as H.
  pose proof (refresh_discovers_lazily Unparsable.world "refresh-1" Sample.server_down) as U.
  destruct (refreshTokens "refresh-1" Sample.server_down Example.world) as [r w0].
  destruct (refreshTokens "refresh-1" Sample.server_down Unparsable.world) as [r1 w1].
  change (endpoints_cached Example.world) with false in H.
  change (endpoints_cached Unparsable.world) with false in U.
  destruct H as (_ & _ & H). destruct U as (_ & U & _).
  split; [reflexivity|]. split.
  - exact (proj1 (H Example.refused eq_refl eq_refl)).
  - exact (proj1 (U eq_refl)).
Defined.

(** ** Construction and the first read *)

Lemma ensureAuthenticated_partition out w r w' :
  authenticationPromise (this w) = None ->
  ensureAuthenticated out w = (r, w') -> same_partition w w'.
Proof.
  intros Hp E.
  apply (ensureAuthenticated_cases _ _ _ _ Hp) in E
    as [(_ & _ & ->) | (_ & w0 & w1 & _ & _ & P0 & _ & _ & F & ->)]; [repeat split|].
  apply _performAuthentication_stages in F as (P1 & _).
  exact (same_partition_trans _ _ _ P0 P1).
Qed.

Lemma tokens_run_auto out w :
  authenticationPromise (this w) = None -> storedTokens w = None ->
  autoAuthenticate (options (this w)) = Some true -> authInitialized (this w) = false ->
  tokens out w
  = let '(r, w1) := ensureAuthenticated out (readTokens w) in
    match r with
    | Ok _ => (Ok (storedTokens w1), readTokens w1)
    | Throw e => (Throw e, w1)
    end.
Proof.
  intros Hp Hs Hauto Hinit. unfold storedTokens in Hs.
  unfold tokens, hash, opts. run. rewrite Hp. run. rewrite Hs, Hauto, Hinit. run.
  fold (readTokens w).
  destruct (ensureAuthenticated out (readTokens w)) as [[[]|e] w1] eqn:E; [|reflexivity].
  apply ensureAuthenticated_partition in E as [Ph Ps]; [|exact Hp]. run.
  unfold storedTokens, readTokens, tokenPath in *. cbn in *. rewrite Ph, Ps. reflexivity.
Qed.

Lemma tokens_run_manual out w :
  authenticationPromise (this w) = None -> storedTokens w = None ->
  autoAuthenticate (options (this w)) <> Some true \/ authInitialized (this w) = true ->
  tokens out w = (Ok None, readTokens w).
Proof.
  intros Hp Hs H. unfold storedTokens in Hs.
  unfold tokens, hash, opts. run. rewrite Hp. run. rewrite Hs.
  destruct (autoAuthenticate (options (this w))) as [[|]|];
    destruct (authInitialized (this w)); try reflexivity.
  destruct H as [H|H]; [contradiction|discriminate].
Qed.

(** X23. Auto-authentication is the default: the constructor leaves
    [autoAuthenticate] off only when it was passed [false], and
    [createWithAutoAuth] turns it on whatever was passed, so the two make
    the same instance unless [false] was passed. On a new instance over a
    store without token set, the first [tokens()] returns [undefined],
    registers no promise and calls nothing beyond the file system when the
    instance was constructed with [autoAuthenticate: false], and otherwise
    (also on every instance made by [createWithAutoAuth]) starts an
    attempt: it registers the promise of one, and the attempt sends the
    discovery request when the server URL parses, and nothing when it
    does not. *)
Theorem auto_authentication_is_the_default
    (homedir : string) (o : OAuthClientProviderOptions) (d : Disk)
    (parser : string -> option string -> bool) (out : Outside) :
  storedTokens (fresh homedir o d parser) = None ->
  autoAuthenticate (options (createWithAutoAuth homedir o)) = Some true
  /\ (createWithAutoAuth homedir o = constructor homedir o <-> autoAuthenticate o <> Some false)
  /\ (let '(r, w') := tokens out (fresh homedir o d parser) in
      if bool_decide (autoAuthenticate o = Some false)
      then r = Ok None /\ promises w' = 0%nat /\ count beyond_files (trace w') = 0%nat
      else promises w' = 1%nat
           /\ count is_discovery (trace w')
              = Nat.b2n (discoverable (fresh homedir o d parser)))
  /\ (let '(r, w') :=
        tokens out (mkWorld (createWithAutoAuth homedir o) d None 0 0 [] parser) in
      promises w' = 1%nat
      /\ count is_discovery (trace w') = Nat.b2n (discoverable (fresh homedir o d parser))).
Proof.
  intros Hs.
  assert (Hrun : forall w0, authenticationPromise (this w0) = None ->
            storedTokens w0 = None -> autoAuthenticate (options (this w0)) = Some true ->
            authInitialized (this w0) = false -> trace w0 = [] -> promises w0 = 0%nat ->
            let '(r, w') := tokens out w0 in
            promises w' = 1%nat
            /\ count is_discovery (trace w') = Nat.b2n (discoverable w0)).
  { intros w0 Hp Hs0 Ha Hi Ht Hn.
    rewrite tokens_run_auto by assumption.
    destruct (ensureAuthenticated out _) as [r w1] eqn:E.
    rewrite ensureAuthenticated_starts in E; [| |exact Hp].
    2:{ change (truthy_opt (storedTokens w0 ≫= access_token) = false).
        rewrite Hs0. reflexivity. }
    cbv zeta in E. destruct (_performAuthentication out _) as [r' w1'] eqn:F.
    injection E as <- <-.
    apply _performAuthentication_effects
      in F as (d' & nr & nb & ne & (T & _ & N & _) & C & _).
    cbn in T, N. rewrite Ht in T. rewrite Hn in N. revert C. unfold calls.
    intros [= C _ _ _ _].
    assert (C' : count is_discovery d' = Nat.b2n (discoverable w0)) by exact C.
    clear C. revert C'. generalize (Nat.b2n (discoverable w0)). intros k C.
    destruct r' as [[]|e]; cbn; (split; [exact N|]); rewrite T; unfold count in *; cbn;
      rewrite ?List.filter_app, ?length_app; cbn; lia. }
  split; [reflexivity|]. split; [|split].
  - unfold createWithAutoAuth, constructor. cbn.
    destruct (autoAuthenticate o) as [[|]|]; cbn; split.
    + discriminate.
    + reflexivity.
    + intros H. apply (f_equal (fun p => autoAuthenticate (options p))) in H. discriminate H.
    + intros H. contradiction H. reflexivity.
    + discriminate.
    + reflexivity.
  - case_bool_decide as Ha.
    + rewrite tokens_run_manual; [repeat split|reflexivity|exact Hs|].
      left. cbn. rewrite bool_decide_true by exact Ha. discriminate.
    + apply Hrun; try reflexivity; [exact Hs|].
      cbn. rewrite bool_decide_false by exact Ha. reflexivity.
  - apply (Hrun (mkWorld (createWithAutoAuth homedir o) d None 0 0 [] parser));
      try reflexivity.
    revert Hs. unfold storedTokens, tokenPath, fresh, createWithAutoAuth, constructor.
    cbn. trivial.
Qed.

Lemma auto_authentication_is_the_default_witness :
  let '(r, w') :=
    tokens (Example.outside Example.consent)
      (fresh "/home/user" Example.options Example.store Example.canParse) in
  if bool_decide (autoAuthenticate Example.options = Some false)
  then r = Ok None /\ promises w' = 0%nat /\ count beyond_files (trace w') = 0%nat
  else promises w' = 1%nat
       /\ count is_discovery (trace w')
          = Nat.b2n (discoverable
                       (fresh "/home/user" Example.options Example.store Example.canParse)).
Proof.
  pose proof (auto_authentication_is_the_default "/home/user" Example.options
                Example.store Example.canParse (Example.outside Example.consent) eq_refl)
    as H.
  destruct H as (_ & _ & H & _). exact H.
Defined.

(** X24. Dynamic registration names the listener: on an instance
    constructed from options without static client metadata, the one
    redirect URI in the metadata that [registerClient] posts is the
    callback address: [http://], the host, the callback port and the
    callback path ([/oauth/callback] unless configured); the port is the
    one [initializeAuth] binds and the path the one the listener
    dispatches on; and [redirectUrl] is that address. *)
Theorem registration_names_the_listener
    (homedir : string) (o : OAuthClientProviderOptions) (w : World) :
  options (this w) = options (constructor homedir o) ->
  staticOAuthClientMetadata o = None ->
  (forall answer r w' d url payload,
     registerClient answer w = (r, w') -> trace w' = trace w ++ d ->
     In (HttpPostJson url payload) d ->
     redirect_uris payload = Some [callbackAddress o])
  /\ (forall granted r w' d p,
        initializeAuth granted w = (r, w') -> trace w' = trace w ++ d ->
        In (Listen p) d -> p = callbackPort o)
  /\ callbackAddress o
     = ("http://" ++ host o ++ ":" ++ string_of_N (callbackPort o) ++ listenerPath w)%string
  /\ redirectUrl (options (this w)) = callbackAddress o.
Proof.
  intros Ho Hm.
  assert (Hredirect : redirectUrl (options (this w)) = callbackAddress o)
    by (rewrite Ho; reflexivity).
  assert (Hmeta : redirect_uris (clientMetadata (options (this w))) = Some [callbackAddress o]).
  { rewrite Ho. unfold clientMetadata. cbn. rewrite Hm. reflexivity. }
  split; [|split; [|split]].
  - intros answer r w' d url payload E T Hin. revert E.
    unfold registerClient, clientInformation, saveClientInformation, hash, opts. run.
    assert (Hnone : forall w0, trace w0 = trace w -> trace w' = trace w0 ->
                               redirect_uris payload = Some [callbackAddress o]).
    { intros w0 T0 T'. rewrite T', T0 in T. rewrite <- (app_nil_r (trace w)) in T at 1.
      apply app_inv_head in T. subst d. destruct Hin. }
    assert (Hread : forall p, trace w' = trace w ++ [FsRead p] ->
                              redirect_uris payload = Some [callbackAddress o]).
    { intros p T'. rewrite T' in T. apply app_inv_head in T. subst d.
      destruct Hin as [H|[]]. discriminate H. }
    assert (Hpost : forall p u tail,
              trace w' = ((trace w ++ [FsRead p])
                          ++ [HttpPostJson u (clientMetadata (options (this w)))]) ++ tail ->
              Forall (fun e => is_registration e = false) tail ->
              redirect_uris payload = Some [callbackAddress o]).
    { intros p u tail T' Htail. rewrite T' in T. rewrite <- !app_assoc in T.
      apply app_inv_head in T. subst d. cbn in Hin.
      destruct Hin as [H|[H|Hin]]; [discriminate H| |].
      - injection H as _ <-. exact Hmeta.
      - rewrite List.Forall_forall in Htail. specialize (Htail _ Hin). discriminate Htail. }
    destruct (staticOAuthClientInfo (options (this w))); run.
    { intros [= <- <-]. eapply Hnone; reflexivity. }
    destruct (clientInfo (this w)); run.
    { intros [= <- <-]. eapply Hnone; reflexivity. }
    destruct (record _); run.
    { intros [= <- <-]. eapply Hread. reflexivity. }
    destruct (truthy_opt _); run.
    + destruct answer; run; [destruct (faults (disk w) !! _) as [[|n]|]; run|];
        intros [= <- <-].
      * eapply (Hpost _ _ []); [cbn; rewrite app_nil_r; reflexivity|constructor].
      * eapply (Hpost _ _ [_]); [cbn; rewrite <- !app_assoc; reflexivity|].
        repeat constructor.
      * eapply (Hpost _ _ [_]); [cbn; rewrite <- !app_assoc; reflexivity|].
        repeat constructor.
      * eapply (Hpost _ _ []); [cbn; rewrite app_nil_r; reflexivity|constructor].
    + intros [= <- <-]. eapply Hread. reflexivity.
  - intros granted r w' d p E T Hin. revert E.
    unfold initializeAuth, OAuthServer.createOAuthCallbackServer, opts. run.
    assert (Hl : trace w' = trace w ++ [Listen (callbackPort (options (this w)))] ->
                 p = callbackPort o).
    { intros T'. rewrite T' in T. apply app_inv_head in T. subst d.
      destruct Hin as [H|[]]. injection H as <-. rewrite Ho. reflexivity. }
    destruct (port w); run; [intros [= <- <-]; apply Hl; reflexivity|].
    destruct granted as [[]|e]; run; intros [= <- <-]; apply Hl; reflexivity.
  - unfold listenerPath. rewrite Ho. reflexivity.
  - exact Hredirect.
Qed.

Lemma registration_names_the_listener_witness :
  redirectUrl (options (this Example.world)) = callbackAddress Example.options
  /\ callbackAddress Example.options = "http://localhost:3334/oauth/callback".
Proof.
  pose proof (registration_names_the_listener "/home/user" Example.options
                Example.world eq_refl eq_refl) as H.
  destruct H as (_ & _ & _ & H). split; [exact H|]. vm_compute. reflexivity.
Defined.

(** X25. A stored token set without access token is read as tokens by
    [tokens()] and as none by [ensureAuthenticated]: with no promise
    registered, when the store holds a token set whose access token is
    missing or empty, [tokens()] returns that token set as it is and
    starts nothing, while [ensureAuthenticated] goes on to authenticate:
    it registers the promise of a new attempt, and the attempt sends the
    discovery request when the server URL parses. *)
Theorem token_set_without_access_token (out : Outside) (w : World) (t : OAuthTokens) :
  authenticationPromise (this w) = None ->
  storedTokens w = Some t ->
  truthy_opt (access_token t) = false ->
  tokens out w = (Ok (Some t), readTokens w)
  /\ (let '(r, w') := ensureAuthenticated out w in
      promises w' = S (promises w)
      /\ count is_discovery (trace w')
         = (count is_discovery (trace w) + Nat.b2n (discoverable w))%nat).
Proof.
  intros Hp Hs Ha. split; [apply tokens_run_stored; assumption|].
  rewrite ensureAuthenticated_starts; [|fold (storedTokens w); rewrite Hs; exact Ha|exact Hp].
  cbv zeta. destruct (_performAuthentication out _) as [r w1] eqn:F.
  apply _performAuthentication_effects in F as (d' & nr & nb & ne & (T & _ & N & _) & C & _).
  cbn in T, N. revert C. unfold calls. intros [= C _ _ _ _].
  assert (C' : count is_discovery d' = Nat.b2n (discoverable w)) by exact C.
  clear C. revert C'. generalize (Nat.b2n (discoverable w)). intros k C.
  cbn. split; [exact N|].
  rewrite T. unfold count in *. cbn. rewrite ?List.filter_app, ?length_app. cbn. lia.
Qed.

Lemma token_set_without_access_token_witness :
  tokens (Example.outside Example.consent) Partial.world
  = (Ok (Some Partial.token_set), readTokens Partial.world).
Proof.
  assert (Hs : storedTokens Partial.world = Some Partial.token_set)
    by (vm_compute; reflexivity).
  assert (Hp : authenticationPromise (this Partial.world) = None)
    by (vm_compute; reflexivity).
  pose proof (token_set_without_access_token (Example.outside Example.consent)
                Partial.world Partial.token_set Hp Hs eq_refl) as H.
  destruct H as (H & _). exact H.
Defined.

(** ** The code verifier and the flow *)

Lemma serve_this path requests w r w' :
  serve path requests w = (r, w') ->
  _codeVerifier (this w') = _codeVerifier (this w).
Proof.
  revert w. induction requests as [|req rest IH]; intros w; cbn [serve].
  - run. intros [= <- <-]. reflexivity.
  - destruct (OAuthServer.requestListener path req) as [reply|e]; [|apply IH].
    unfold bind at 1. unfold effect at 1, modify at 1.
    destruct (OAuthServer.emitted reply) as [[event payload]|].
    + run. destruct (String.eqb event "auth-code"); run; intros [= <- <-]; reflexivity.
    + intros H. apply IH in H. exact H.
Qed.

Lemma exchangeCodeForTokens_verifier code v answer w r w' :
  exchangeCodeForTokens code v answer w = (r, w') ->
  code_verifier_txt (disk w') = code_verifier_txt (disk w).
Proof.
  unfold exchangeCodeForTokens, saveTokens, hash. run.
  destruct (discoveryDocument (this w)); run; [|intros [= <- <-]; reflexivity].
  destruct (clientInfo (this w)); run; [|intros [= <- <-]; reflexivity].
  unfold index0. destruct (redirect_uris _); run; [|intros [= <- <-]; reflexivity].
  destruct answer as [data|e]; run; [destruct (faults (disk w) !! _) as [[|n]|]; run|];
    intros [= <- <-]; reflexivity.
Qed.

Lemma requestAuthorization_verifier rb launched w r w' :
  requestAuthorization rb launched w = (r, w') ->
  browsers w' = S (browsers w) ->
  _codeVerifier (this w') = Some (verifier (generatePKCEChallenge rb))
  /\ storedCodeVerifier w' = Some (verifier (generatePKCEChallenge rb)).
Proof.
  unfold requestAuthorization, saveCodeVerifier, hash, opts, browsers. run.
  destruct (discoveryDocument (this w)); run; [|intros [= _ <-]; lia].
  destruct (clientInfo (this w)); run; [|intros [= _ <-]; lia].
  destruct (faults (disk w) !! _) as [[|n]|]; run;
    [intros [= _ <-]; cbn; lia
    |intros [= _ <-]; cbn; rewrite ?count_snoc; cbn; lia|].
  destruct (canParse w _ _); run.
  2:{ intros [= _ <-]. cbn. rewrite count_snoc. cbn. lia. }
  unfold index0. destruct (redirect_uris _); run.
  2:{ intros [= _ <-]. cbn. rewrite count_snoc. cbn. lia. }
  destruct (truthy_opt _); run; destruct launched; run; intros [= _ <-] _;
    (split; [reflexivity|]); unfold storedCodeVerifier, codeVerifierPath; cbn;
    now rewrite lookup_insert_eq.
Qed.

Lemma waitForAuthCode_verifier requests w r w' :
  waitForAuthCode requests w = (r, w') ->
  _codeVerifier (this w') = _codeVerifier (this w)
  /\ storedCodeVerifier w' = storedCodeVerifier w.
Proof.
  intros E. pose proof E as S2.
  apply waitForAuthCode_stage in S2 as (_ & _ & _ & (Ph & Ps) & D2).
  split.
  - revert E. unfold waitForAuthCode, opts. unfold bind at 1 2.
    unfold gets at 1, modify at 1. intros E. apply serve_this in E. exact E.
  - unfold storedCodeVerifier, codeVerifierPath. rewrite Ph, Ps, D2. reflexivity.
Qed.

Lemma performAuthorizationCodeFlow_verifier out w r w' :
  performAuthorizationCodeFlow out w = (r, w') ->
  browsers w' = S (browsers w) ->
  _codeVerifier (this w') = Some (verifier (generatePKCEChallenge (randomBytes out)))
  /\ storedCodeVerifier w' = Some (verifier (generatePKCEChallenge (randomBytes out))).
Proof.
  intros E Hb. unfold performAuthorizationCodeFlow in E. unfold bind at 1 in E.
  destruct (requestAuthorization _ _ w) as [[pkce|e] w1] eqn:E1.
  2:{ injection E as <- <-. exact (requestAuthorization_verifier _ _ _ _ _ E1 Hb). }
  unfold bind at 1 in E.
  destruct (waitForAuthCode _ w1) as [[code|e] w2] eqn:E2.
  - pose proof E2 as V2. apply waitForAuthCode_verifier in V2 as (M2 & D2).
    apply waitForAuthCode_stage in E2 as ((_ & B2 & _) & _).
    pose proof E as V3. apply exchangeCodeForTokens_verifier in V3.
    apply exchangeCodeForTokens_stage in E as (B3 & _ & T3 & _).
    rewrite B3, B2 in Hb.
    destruct (requestAuthorization_verifier _ _ _ _ _ E1 Hb) as (Hm & Hd).
    split; [rewrite T3, M2; exact Hm|].
    rewrite <- D2 in Hd. unfold storedCodeVerifier, codeVerifierPath in *.
    rewrite T3, V3. exact Hd.
  - injection E as <- <-.
    pose proof E2 as V2. apply waitForAuthCode_verifier in V2 as (M2 & D2).
    apply waitForAuthCode_stage in E2 as ((_ & B2 & _) & _).
    rewrite B2 in Hb.
    destruct (requestAuthorization_verifier _ _ _ _ _ E1 Hb) as (Hm & Hd).
    split; [rewrite M2; exact Hm|rewrite D2; exact Hd].
Qed.

Lemma _performAuthentication_verifier out w r w' :
  _performAuthentication out w = (r, w') ->
  browsers w' = S (browsers w) ->
  _codeVerifier (this w') = Some (verifier (generatePKCEChallenge (randomBytes out)))
  /\ storedCodeVerifier w' = Some (verifier (generatePKCEChallenge (randomBytes out))).
Proof.
  unfold _performAuthentication, try_catch.
  unfold bind at 1.
  destruct (discoverOAuthEndpoints _ w) as [[[]|e] w1] eqn:E1;
    apply discoverOAuthEndpoints_stage in E1 as ((_ & B1 & _) & _).
  2:{ unfold throw. intros [= <- <-] Hb. lia. }
  unfold bind at 1.
  destruct (registerClient _ w1) as [[[]|e] w2] eqn:E2;
    apply registerClient_stage in E2 as ((_ & B2 & _) & _).
  2:{ unfold throw. intros [= <- <-] Hb. lia. }
  unfold bind at 1.
  destruct (initializeAuth _ w2) as [[server|e] w3] eqn:E3;
    apply initializeAuth_stage in E3 as ((_ & B3 & _) & _).
  2:{ unfold throw. intros [= <- <-] Hb. lia. }
  unfold bind at 1.
  destruct (performAuthorizationCodeFlow out w3) as [[[]|e] w4] eqn:E4.
  - unfold modify. intros [= <- <-] Hb.
    assert (Hb4 : browsers w4 = S (browsers w3)) by (unfold browsers in *; cbn in Hb; lia).
    exact (performAuthorizationCodeFlow_verifier _ _ _ _ E4 Hb4).
  - unfold throw. intros [= <- <-] Hb.
    assert (Hb4 : browsers w4 = S (browsers w3)) by lia.
    exact (performAuthorizationCodeFlow_verifier _ _ _ _ E4 Hb4).
Qed.

(** X26. The code verifier outlives the flow: whenever a call of
    [ensureAuthenticated] (no promise registered) has opened the browser,
    the PKCE verifier of that attempt is in memory and in the store when
    the call returns, whether it returns normally, with the tokens saved,
    or throws: the flow saves the verifier before it opens the browser
    and never removes it. *)
Theorem code_verifier_outlives_the_flow (out : Outside) (w : World) :
  authenticationPromise (this w) = None ->
  let '(r, w') := ensureAuthenticated out w in
  browsers w' = S (browsers w) ->
  _codeVerifier (this w') = Some (verifier (generatePKCEChallenge (randomBytes out)))
  /\ storedCodeVerifier w' = Some (verifier (generatePKCEChallenge (randomBytes out))).
Proof.
  intros Hp. destruct (ensureAuthenticated out w) as [r w'] eqn:E. intros Hb.
  apply (ensureAuthenticated_cases _ _ _ _ Hp) in E
    as [(_ & _ & ->) | (_ & w0 & w1 & (_ & B0 & _) & _ & _ & _ & _ & F & ->)].
  - exfalso. revert Hb. unfold browsers, readTokens. cbn. rewrite count_snoc. cbn. lia.
  - assert (Hb1 : browsers w1 = S (browsers w0)) by (unfold browsers in *; cbn in Hb; lia).
    exact (_performAuthentication_verifier _ _ _ _ F Hb1).
Qed.

Lemma code_verifier_outlives_the_flow_witness :
  fst (ensureAuthenticated (Example.outside Example.consent) Example.world) = Ok tt
  /\ storedCodeVerifier Example.authenticated
     = Some (verifier (generatePKCEChallenge (fun n => repeat x2a n))).
Proof.
  assert (Hr : fst (ensureAuthenticated (Example.outside Example.consent) Example.world)
               = Ok tt) by (vm_compute; reflexivity).
  assert (Hb : browsers Example.authenticated = S (browsers Example.world))
    by (vm_compute; reflexivity).
  pose proof (code_verifier_outlives_the_flow (Example.outside Example.consent)
                Example.world eq_refl) as H.
  unfold Example.authenticated in *.
  destruct (ensureAuthenticated (Example.outside Example.consent) Example.world) as [r w'].
  cbn [fst snd] in *. split; [exact Hr|]. exact (proj2 (H Hb)).
Defined.

(** ** The configuration of an instance *)

Lemma same_configuration_refl w : same_configuration w w.
Proof. repeat split. Qed.

Lemma same_configuration_trans w1 w2 w3 :
  same_configuration w1 w2 -> same_configuration w2 w3 -> same_configuration w1 w3.
Proof. unfold same_configuration, same_partition. intuition congruence. Qed.

Lemma grows_configuration d w w' : grows d w w' -> same_configuration w w'.
Proof. unfold grows, same_configuration, same_partition. tauto. Qed.

Lemma ensureAuthenticated_configuration out w :
  same_configuration w (snd (ensureAuthenticated out w)).
Proof.
  destruct (truthy_opt (storedTokens w ≫= access_token)) eqn:Ht; unfold storedTokens in Ht.
  { rewrite (ensureAuthenticated_shortcut _ _ Ht). repeat split. }
  destruct (authenticationPromise (this w)) as [p|] eqn:Hp.
  { unfold ensureAuthenticated, hash. run. rewrite Ht. run. rewrite Hp. run. repeat split. }
  rewrite (ensureAuthenticated_starts _ _ Ht Hp). cbv zeta.
  destruct (_performAuthentication out _) as [r w1] eqn:F.
  apply _performAuthentication_effects in F as (d & _ & _ & _ & G & _).
  apply grows_configuration in G. revert G.
  unfold same_configuration, same_partition. cbn. tauto.
Qed.

Lemma refreshTokens_configuration R out w :
  same_configuration w (snd (refreshTokens R out w)).
Proof.
  rewrite refreshTokens_split.
  destruct (refresh_resolution out w) as [r0 w1] eqn:E0.
  assert (C0 : same_configuration w w1).
  { revert E0. unfold refresh_resolution.
    assert (Hun : (discoverOAuthEndpoints (discovery out) ;; registerClient (registration out)) w
                  = (r0, w1) -> same_configuration w w1).
    { unfold bind at 1.
      destruct (discoverOAuthEndpoints _ w) as [[[]|e] w0] eqn:E1;
        apply discoverOAuthEndpoints_effects in E1 as (d1 & G1 & _).
      - intros E2. apply registerClient_effects in E2 as (d2 & n & G2 & _).
        eapply same_configuration_trans; eapply grows_configuration; eassumption.
      - intros [= <- <-]. eapply grows_configuration; eassumption. }
    destruct (discoveryDocument (this w)); [destruct (clientInfo (this w))|]; try exact Hun.
    unfold ret. intros [= <- <-]. apply same_configuration_refl. }
  destruct r0 as [[]|e0]; [|exact C0].
  destruct (discoveryDocument (this w1)) as [doc|] eqn:Hdoc;
    [destruct (clientInfo (this w1)) as [ci|] eqn:Hci|]; try exact C0.
  rewrite (refreshTokens_cached_run _ _ _ _ _ Hdoc Hci). cbv zeta.
  eapply same_configuration_trans; [exact C0|].
  destruct (token out) as [data|e]; [destruct (faults (disk w1) !! _) as [[|n]|]|];
    repeat split.
Qed.

(** X27. The configuration of an instance never changes: no public method
    ([clientInformation], [saveClientInformation], [tokens], [saveTokens],
    [redirectToAuthorization], [saveCodeVerifier], [codeVerifier],
    [invalidateCredentials], [ensureAuthenticated], [refreshTokens],
    [cleanup]), whatever it is given and however it ends, changes the
    options, the partition name or the directory of the store that the
    constructor set. *)
Theorem configuration_is_fixed
    (w : World) (out : Outside) (refreshToken : string) (t : OAuthTokens)
    (c : OAuthClientInformationFull) (v : string) (scope : Scope.t) (url : Url) :
  Forall (fun call : World -> World => same_configuration w (call w))
    (public_calls out refreshToken t c v scope url).
Proof.
  unfold public_calls. repeat (apply List.Forall_cons); try apply List.Forall_nil.
  - rewrite clientInformation_run. destruct (clientInfo (this w)); repeat split.
  - unfold saveClientInformation, hash. run.
    destruct (faults (disk w) !! _) as [[|n]|]; repeat split.
  - destruct (authenticationPromise (this w)) as [p|] eqn:Hp.
    { unfold tokens. run. rewrite Hp. repeat split. }
    destruct (storedTokens w) as [t0|] eqn:Hs.
    { rewrite (tokens_run_stored _ _ _ Hp Hs). repeat split. }
    destruct (autoAuthenticate (options (this w))) as [[|]|] eqn:Ha;
      [destruct (authInitialized (this w)) eqn:Hi| |].
    + rewrite tokens_run_manual by (try assumption; right; assumption). repeat split.
    + rewrite (tokens_run_auto _ _ Hp Hs Ha Hi).
      pose proof (ensureAuthenticated_configuration out (readTokens w)) as C.
      destruct (ensureAuthenticated out (readTokens w)) as [[[]|e] w1]; cbn [snd] in *;
        revert C; unfold same_configuration, same_partition; cbn; tauto.
    + rewrite tokens_run_manual by (try assumption; left; rewrite Ha; discriminate).
      repeat split.
    + rewrite tokens_run_manual by (try assumption; left; rewrite Ha; discriminate).
      repeat split.
  - unfold saveTokens, hash. run. destruct (faults (disk w) !! _) as [[|n]|]; repeat split.
  - unfold redirectToAuthorization. run. destruct (browser out); repeat split.
  - unfold saveCodeVerifier, hash. run.
    destruct (faults (disk w) !! _) as [[|n]|]; repeat split.
  - rewrite codeVerifier_run. destruct (truthy_opt (_codeVerifier (this w))); [repeat split|].
    cbv zeta. destruct (truthy_opt (storedCodeVerifier w)); repeat split.
  - unfold invalidateCredentials, hash. destruct scope; run; repeat split.
  - apply ensureAuthenticated_configuration.
  - apply refreshTokens_configuration.
  - rewrite cleanup_cases. cbn.
    destruct (authServer (this w)); [case_decide|]; repeat split.
Qed.

(** ** When the flow succeeds *)

Lemma registerClient_resolves out w doc ci :
  discoveryDocument (this w) = Some doc ->
  identity_source out w doc ci ->
  writable (disk w) = true ->
  exists w',
    registerClient (registration out) w = (Ok tt, w')
    /\ clientInfo (this w') = Some ci
    /\ writable (disk w') = true.
Proof.
  intros Hdoc Hsrc Hw. unfold identity_source, cached_identity in Hsrc.
  unfold registerClient, clientInformation, saveClientInformation, hash, opts. run.
  destruct (staticOAuthClientInfo (options (this w))) as [static|]; run.
  { subst. eexists. split; [reflexivity|]. split; [reflexivity|exact Hw]. }
  destruct (clientInfo (this w)) as [c|] eqn:Hc; run.
  { subst. eexists. split; [reflexivity|]. split; [reflexivity|exact Hw]. }
  destruct (record _) as [c|]; run.
  { subst. eexists. split; [reflexivity|]. split; [reflexivity|exact Hw]. }
  destruct Hsrc as [Hend Hreg]. rewrite Hdoc. cbn. rewrite Hend. run. rewrite Hreg. run.
  rewrite (writable_faults _ _ Hw). run.
  eexists. split; [reflexivity|]. split; [reflexivity|exact Hw].
Qed.

Lemma waitForAuthCode_returns_code w pre post ps code :
  Forall (passed_over (listenerPath w)) pre ->
  not_given "error" ps -> given "code" ps code ->
  fst (waitForAuthCode (pre ++ ReqUrl (listenerPath w) ps :: post) w) = Ok code.
Proof.
  intros Hpre He Hc.
  destruct (waitForAuthCode_passed_over pre (ReqUrl (listenerPath w) ps :: post) w Hpre)
    as (w1 & -> & T).
  cbn [serve OAuthServer.requestListener].
  rewrite String.eqb_refl, (truthy_opt_not_given _ _ He), (truthy_opt_given _ _ _ Hc).
  destruct Hc as [Hc _]. rewrite Hc. run. reflexivity.
Qed.

Lemma performAuthorizationCodeFlow_succeeds out w doc ci data pre post ps code :
  discoveryDocument (this w) = Some doc ->
  clientInfo (this w) = Some ci ->
  canParse w (authorization_endpoint doc) None = true ->
  redirect_uris (client_metadata ci) <> None ->
  writable (disk w) = true ->
  browser out = Ok tt ->
  redirect out = pre ++ ReqUrl (listenerPath w) ps :: post ->
  Forall (passed_over (listenerPath w)) pre ->
  not_given "error" ps -> given "code" ps code ->
  token out = Ok data ->
  exists w', performAuthorizationCodeFlow out w = (Ok tt, w').
Proof.
  intros Hdoc Hci Hparse Huris Hw Hb Hred Hpre He Hc Htok.
  destruct (redirect_uris (client_metadata ci)) as [uris|] eqn:Hu; [|contradiction].
  unfold performAuthorizationCodeFlow. unfold bind at 1.
  rewrite (requestAuthorization_run _ _ _ _ _ Hdoc Hci Hw), Hparse, Hu, Hb. cbv zeta.
  unfold bind at 1.
  match goal with |- context [waitForAuthCode _ ?x] => set (w1 := x) end.
  assert (Hpath : listenerPath w1 = listenerPath w) by reflexivity.
  destruct (waitForAuthCode (redirect out) w1) as [r2 w2] eqn:E2.
  assert (Hr2 : r2 = Ok code).
  { pose proof (waitForAuthCode_returns_code w1 pre post ps code) as H.
    rewrite Hpath, <- Hred, E2 in H. apply H; assumption. }
  subst r2.
  apply waitForAuthCode_stage in E2 as (_ & _ & (Dd & Dc) & _ & D2).
  assert (Hdoc2 : discoveryDocument (this w2) = Some doc) by (rewrite Dd; exact Hdoc).
  assert (Hci2 : clientInfo (this w2) = Some ci) by (rewrite Dc; exact Hci).
  rewrite (exchangeCodeForTokens_run _ _ _ _ _ _ Hdoc2 Hci2), Hu, Htok. cbv zeta.
  rewrite D2. subst w1. cbn. rewrite (writable_faults _ _ Hw). eexists. reflexivity.
Qed.

Lemma ensureAuthenticated_succeeds
    (out : Outside) (w : World) (doc : AuthorizationServerMetadata)
    (ci : OAuthClientInformationFull) (data : OAuthTokens)
    (pre post : list Request) (ps : list (string * string)) (code : string) :
  authenticationPromise (this w) = None ->
  unauthenticated w ->
  port w = None ->
  writable (disk w) = true ->
  discoverable w = true ->
  discovery out = Ok doc ->
  canParse w (authorization_endpoint doc) None = true ->
  identity_source out w doc ci ->
  redirect_uris (client_metadata ci) <> None ->
  listen out = Ok tt ->
  browser out = Ok tt ->
  redirect out = pre ++ ReqUrl (listenerPath w) ps :: post ->
  Forall (passed_over (listenerPath w)) pre ->
  not_given "error" ps -> given "code" ps code ->
  token out = Ok data ->
  fst (ensureAuthenticated out w) = Ok tt.
Proof.
  intros Hp Hun Hport Hw Hdisc Hd Hparse Hsrc Huris Hl Hb Hred Hpre He Hc Htok.
  unfold unauthenticated, storedTokens in Hun.
  rewrite (ensureAuthenticated_starts _ _ Hun Hp). cbv zeta.
  match goal with |- context [_performAuthentication out ?x] => set (w0 := x) end.
  assert (Hsrc0 : identity_source out w0 doc ci) by exact Hsrc.
  assert (Hpath0 : listenerPath w0 = listenerPath w) by reflexivity.
  assert (Hport0 : port w0 = None) by exact Hport.
  assert (Hw0 : writable (disk w0) = true) by exact Hw.
  assert (Hs0 : servers w0 = servers w) by reflexivity.
  destruct (_performAuthentication out w0) as [r w1] eqn:F.
  assert (Hr : r = Ok tt).
  { revert F. unfold _performAuthentication, try_catch.
    unfold bind at 1.
    assert (E1 : discoverOAuthEndpoints (discovery out) w0
                 = (Ok tt, set_this (set_discoveryDocument (Some doc))
                             (emit_effect (HttpGet (discoveryUrl w0)) w0))).
    { unfold discoverOAuthEndpoints, opts. run.
      change (canParse w "/.well-known/oauth-authorization-server"
                (Some (serverUrl (options (this w)))))
        with (discoverable w).
      rewrite Hdisc. run. rewrite Hd. run. reflexivity. }
    rewrite E1. set (w1' := set_this _ _).
    assert (Hsrc1 : identity_source out w1' doc ci) by exact Hsrc0.
    destruct (registerClient_resolves out w1' doc ci eq_refl Hsrc1 Hw0)
      as (w2 & E2 & Hci2 & Hw2).
    unfold bind at 1. rewrite E2.
    pose proof E2 as S2. apply registerClient_stage in S2 as (_ & (Lp & Ls & _) & _ & Dd2 & _).
    apply registerClient_effects in E2 as (d2 & n2 & (_ & _ & _ & _ & _ & Ho2 & Hc2 & _) & _).
    unfold bind at 1.
    destruct (initializeAuth (listen out) w2) as [r3 w3] eqn:E3.
    assert (Hr3 : exists server, r3 = Ok server).
    { revert E3. unfold initializeAuth, OAuthServer.createOAuthCallbackServer, opts. run.
      rewrite Lp. change (port w1') with (port w0). rewrite Hport0. run. rewrite Hl. run.
      intros [= <- _]. eauto. }
    destruct Hr3 as (server & ->).
    pose proof E3 as S3.
    apply initializeAuth_stage in S3 as (_ & (Dd3 & Dc3) & _ & D3 & _).
    apply initializeAuth_effects in E3 as (d3 & (_ & _ & _ & _ & _ & Ho3 & Hc3 & _) & _).
    assert (Hdoc3 : discoveryDocument (this w3) = Some doc) by (rewrite Dd3, Dd2; reflexivity).
    assert (Hci3 : clientInfo (this w3) = Some ci) by (rewrite Dc3; exact Hci2).
    assert (Hw3 : writable (disk w3) = true) by (rewrite D3; exact Hw2).
    assert (Hparse3 : canParse w3 (authorization_endpoint doc) None = true)
      by (rewrite Hc3, Hc2; exact Hparse).
    assert (Hpath3 : listenerPath w3 = listenerPath w).
    { unfold listenerPath. rewrite Ho3, Ho2. reflexivity. }
    rewrite <- Hpath3 in Hred, Hpre.
    destruct (performAuthorizationCodeFlow_succeeds out w3 doc ci data pre post ps code
                Hdoc3 Hci3 Hparse3 Huris Hw3 Hb Hred Hpre He Hc Htok) as (w4 & E4).
    unfold bind at 1. rewrite E4. unfold modify. intros [= <- _]. reflexivity. }
  exact Hr.
Qed.

Lemma ensureAuthenticated_stored out w w' data :
  authenticationPromise (this w) = None ->
  unauthenticated w ->
  ensureAuthenticated out w = (Ok tt, w') ->
  token out = Ok data ->
  storedTokens w' = Some data
  /\ authInitialized (this w') = true
  /\ authenticationPromise (this w') = None
  /\ port w' = Some (servers w).
Proof.
  intros Hp Hun E Htok.
  apply (ensureAuthenticated_cases _ _ _ _ Hp) in E
    as [(Ht & _) | (_ & w0 & w1 & _ & _ & _ & Hs0 & _ & F & ->)].
  { unfold unauthenticated in Hun. congruence. }
  apply _performAuthentication_stages in F
    as (_ & [((e & [=]) & _) | (_ & P1 & _ & _ & _ & _ & (data' & Ht & Hs & Hi))]).
  rewrite Htok in Ht. injection Ht as <-.
  split; [exact Hs|]. split; [exact Hi|]. split; [reflexivity|].
  cbn. rewrite P1, Hs0. reflexivity.
Qed.

(** X28. When the flow succeeds: with no promise registered, no access
    token in the store, the callback port free and the store writable,
    [ensureAuthenticated] returns normally whenever the server URL parses
    and the discovery answers, the authorization endpoint it names
    parses as a URL, the client identity is at hand (static, cached, or
    returned by the registration endpoint that the discovery document
    names) and lists its redirect URIs, the port is granted, the browser
    is launched, a request to the callback path with a code and no error
    reaches the listener after requests that emit no event, and the token
    endpoint answers; the token set it answered is then in the store, the
    instance is marked [authInitialized], no promise is left registered,
    and the listener this attempt started is still listening. *)
Theorem the_flow_succeeds
    (out : Outside) (w : World) (doc : AuthorizationServerMetadata)
    (ci : OAuthClientInformationFull) (data : OAuthTokens)
    (pre post : list Request) (ps : list (string * string)) (code : string) :
  authenticationPromise (this w) = None ->
  unauthenticated w ->
  port w = None ->
  writable (disk w) = true ->
  discoverable w = true ->
  discovery out = Ok doc ->
  canParse w (authorization_endpoint doc) None = true ->
  identity_source out w doc ci ->
  redirect_uris (client_metadata ci) <> None ->
  listen out = Ok tt ->
  browser out = Ok tt ->
  redirect out = pre ++ ReqUrl (listenerPath w) ps :: post ->
  Forall (passed_over (listenerPath w)) pre ->
  not_given "error" ps -> given "code" ps code ->
  token out = Ok data ->
  exists w',
    ensureAuthenticated out w = (Ok tt, w')
    /\ storedTokens w' = Some data
    /\ authInitialized (this w') = true
    /\ authenticationPromise (this w') = None
    /\ port w' = Some (servers w).
Proof.
  intros Hp Hun Hport Hw Hdisc Hd Hparse Hsrc Huris Hl Hb Hred Hpre He Hc Htok.
  pose proof (ensureAuthenticated_succeeds out w doc ci data pre post ps code
                Hp Hun Hport Hw Hdisc Hd Hparse Hsrc Huris Hl Hb Hred Hpre He Hc Htok)
    as Hr.
  destruct (ensureAuthenticated out w) as [r w'] eqn:E. cbn [fst] in Hr. subst r.
  exists w'. split; [reflexivity|].
  exact (ensureAuthenticated_stored _ _ _ _ Hp Hun E Htok).
Qed.

Lemma the_flow_succeeds_witness :
  exists w',
    ensureAuthenticated (Example.outside Example.consent) Example.world = (Ok tt, w')
    /\ storedTokens w' = Some Example.issued.
Proof.
  assert (Hpre : Forall (passed_over (listenerPath Example.world)) [ReqUrl "/favicon.ico" []])
    by (constructor; [eexists; split; reflexivity|constructor]).
  assert (Hc : given "code" [("code", "abc123")] "abc123")
    by (split; [reflexivity|discriminate]).
  assert (Hsrc : identity_source (Example.outside Example.consent) Example.world
                   Example.metadata Example.identity)
    by (split; reflexivity).
  assert (Huris : redirect_uris (client_metadata Example.identity) <> None) by discriminate.
  destruct (the_flow_succeeds (Example.outside Example.consent) Example.world
              Example.metadata Example.identity Example.issued
              [ReqUrl "/favicon.ico" []] [] [("code", "abc123")] "abc123"
              eq_refl eq_refl eq_refl eq_refl eq_refl eq_refl eq_refl Hsrc Huris
              eq_refl eq_refl eq_refl Hpre (or_introl eq_refl) Hc eq_refl)
    as (w' & E & Hs & _).
  exists w'. split; [exact E|exact Hs].
Defined.

(** X29. [tokens()] authenticates and returns the tokens issued: on an
    instance with auto-authentication on, on which no flow has completed
    and none is in progress, over a store without token set, [tokens()]
    returns the token set that the token endpoint answered, under the
    conditions under which the flow succeeds (the server URL parses and
    the discovery answers, the authorization endpoint parses as a URL,
    the identity is at hand and lists its redirect URIs, the port is
    free and granted, the store is writable, the browser launches, a code
    arrives and the token endpoint answers). *)
Theorem tokens_returns_the_tokens_issued
    (out : Outside) (w : World) (doc : AuthorizationServerMetadata)
    (ci : OAuthClientInformationFull) (data : OAuthTokens)
    (pre post : list Request) (ps : list (string * string)) (code : string) :
  authenticationPromise (this w) = None ->
  storedTokens w = None ->
  autoAuthenticate (options (this w)) = Some true ->
  authInitialized (this w) = false ->
  port w = None ->
  writable (disk w) = true ->
  discoverable w = true ->
  discovery out = Ok doc ->
  canParse w (authorization_endpoint doc) None = true ->
  identity_source out w doc ci ->
  redirect_uris (client_metadata ci) <> None ->
  listen out = Ok tt ->
  browser out = Ok tt ->
  redirect out = pre ++ ReqUrl (listenerPath w) ps :: post ->
  Forall (passed_over (listenerPath w)) pre ->
  not_given "error" ps -> given "code" ps code ->
  token out = Ok data ->
  fst (tokens out w) = Ok (Some data).
Proof.
  intros Hp Hs Ha Hi Hport Hw Hdisc Hd Hparse Hsrc Huris Hl Hb Hred Hpre He Hc Htok.
  rewrite (tokens_run_auto _ _ Hp Hs Ha Hi).
  assert (Hun : unauthenticated (readTokens w)).
  { unfold unauthenticated. change (storedTokens (readTokens w)) with (storedTokens w).
    rewrite Hs. reflexivity. }
  pose proof (ensureAuthenticated_succeeds out (readTokens w) doc ci data pre post ps code
                Hp Hun Hport Hw Hdisc Hd Hparse Hsrc Huris Hl Hb Hred Hpre He Hc Htok)
    as Hr.
  destruct (ensureAuthenticated out (readTokens w)) as [r w'] eqn:E.
  cbn [fst] in Hr. subst r.
  destruct (ensureAuthenticated_stored out (readTokens w) w' data Hp Hun E Htok) as (Hst & _).
  cbn. rewrite Hst. reflexivity.
Qed.

Lemma tokens_returns_the_tokens_issued_witness :
  fst (tokens (Example.outside Example.consent) Example.world) = Ok (Some Example.issued).
Proof.
  assert (Hpre : Forall (passed_over (listenerPath Example.world)) [ReqUrl "/favicon.ico" []])
    by (constructor; [eexists; split; reflexivity|constructor]).
  assert (Hc : given "code" [("code", "abc123")] "abc123")
    by (split; [reflexivity|discriminate]).
  assert (Hsrc : identity_source (Example.outside Example.consent) Example.world
                   Example.metadata Example.identity)
    by (split; reflexivity).
  assert (Huris : redirect_uris (client_metadata Example.identity) <> None) by discriminate.
  exact (tokens_returns_the_tokens_issued (Example.outside Example.consent) Example.world
           Example.metadata Example.identity Example.issued
           [ReqUrl "/favicon.ico" []] [] [("code", "abc123")] "abc123"
           eq_refl eq_refl eq_refl eq_refl eq_refl eq_refl eq_refl eq_refl eq_refl
           Hsrc Huris eq_refl eq_refl eq_refl Hpre (or_introl eq_refl) Hc eq_refl).
Defined.
